(* ===== verification/_CoqProject ===== *)
-Q . S2P
Prelude.v
Streamlit.v
Credentials.v
Messages.v
Collab.v
Toolkit.v
Nodes.v
Graph.v
Trace.v
Driver.v
Budget.v
Answer.v
Failure.v
Orchestrator.v
Page.v
Secrets.v
Chinook.v
Scenarios.v
