(* ===== verification/Prelude.v ===== *)
(** * A verification development for the natural-language-to-SQL agent

    (Header of the whole development; each other file opens with a short
    comment of its own.)

    ** The program

    [src/app.py] is a Streamlit page around a LangGraph state machine.  Each
    run of the script reads the settings ([get_credentials]), stops if the key
    of the generation service or the database password is missing, builds the
    agent once per session (chat model, database opened from a URL with
    percent-encoded user and password, toolkit, graph) and shows a form.  A
    question typed by the user becomes a one-message conversation; the graph
    runs the nodes [list_tables], [call_get_schema], [get_schema],
    [generate_query], [check_query], [run_query], looping from [run_query]
    back to [generate_query] until [should_continue] routes to [END]; the page
    consumes the stream of graph states, counts them against [max_steps = 10]
    and shows the first assistant message that passes its final-answer test.
    The language model and the database are external collaborators.
    [src/chinook_db.py] downloads a sample database file.

    ** Files, and what of the code each models

    - [Prelude] (this file): Python values that are not specific to the
      program: exceptions ([Exn], with [str_exn] for [str(e)] and [repr_exn]
      for [repr(e)]), truthiness of strings, the substring test [contains]
      behind [in], [strip] (with the white space of Unicode, read off the
      UTF-8 bytes) and [split_on], [last_item] for [l[-1]], [found] for a
      lookup that is shown not to raise, and the state-and-exception monad
      [M] in which
      every effectful operation is written ([let*] in [py_scope],
      [try_except] for [try: ... except Exception as e: ...]).  The tactics
      [invert], [run_simpl], [case_scrut] and the hint database [agent]; the
      lemmas on lists and on [strip] and [split_on] the other files share.
    - [Streamlit]: [Ui], one constructor per [st.*] call the script makes,
      the widgets of the form included; what a run shows is a list of them.
    - [Credentials]: lines 21-77.  [get_credentials] over [Sources] (the
      secrets, the environment), [validate] (the two guards before
      [st.stop()]), [quote_plus] and [postgres_url]; decoders and [userinfo] as
      reference definitions.
    - [Messages]: the conversation ([Message], [ToolCall], [MsgId],
      [MessagesState]) and the reducer [add_messages] that merges a node's
      update into the state, with the reference [merge_ref] and the invariant
      [wf_messages].
    - [Collab]: the collaborators as type classes over an abstract world
      ([Generation] for [llm], [Database] for [db], [Connector] for the
      constructors [ChatGroq(...)] and [SQLDatabase.from_uri]); every call of
      a collaborator returns or raises.  [Env], the world with the counter of
      fresh identifiers and a ghost trace of the calls made and the nodes
      started.
    - [Toolkit]: lines 90-97 and 107-108.  The tools [sql_db_list_tables],
      [sql_db_schema], [sql_db_query], found in the toolkit with [next_tool]
      as the script finds them with [next(...)], [tool.invoke], and
      [ToolNode] with the two tool nodes; what a tool raises becomes the text
      [tool_error_text] of its tool message.
    - [Nodes]: lines 99-195.  [list_tables], [call_get_schema],
      [generate_query], [check_query], [should_continue] and the two prompts.
    - [Graph]: lines 197-214 and the [agent.stream] of line 241.
      [builder_nodes], [builder_edges], [next_node], the validation
      [compile] makes, and the generator [Gen] with its step [gen_next]
      (library code, after its documentation); [reaches] is the relation
      between the generator states a stream passes through.
    - [Trace]: which calls each node may make ([allowed], [cost]) and the
      shape of the trace of a run ([run_trace]): the nodes that ran, each
      followed by its calls.
    - [Driver]: lines 233-271.  [agent_loop] (the [for] loop with
      [step_count] and [max_steps]), [is_final_answer], [render],
      [process_question], [ask].
    - [Budget]: the step limit at work: the run of a generation service
      that proposes a query every time it is asked ([always_proposes]), with
      the invariant [inv] of its generator states; and how late an answer can
      come.
    - [Answer]: the run of a service that keeps to the protocol of the
      graph ([cooperative]), node by node ([advances]) up to the answer.
    - [Failure]: the runs that end with an exception: a service that fails
      at drafting ([drafting_fails]), and a schema request whose fallback
      fails too, up to the error the page shows.
    - [Orchestrator]: the state machine of section 4.5 of the specification
      ([Phase], [transition], [spec_run]) and the graph as its implementation
      ([phase], [pending]).
    - [Page]: the script as a whole.  [build_agent] (the body of the [try]
      of lines 82-214: the client, the database, the lookups of the tools,
      [compile]), [initialise] (the test of line 80 and the handler of lines
      214-219), [query_form] (lines 225-231), [sidebar] (lines 274-289),
      [page] (one run: what is shown and the [PageState] it leaves: the
      sources of the settings and the agent of the session), and [step], what
      can happen to a session.
    - [Secrets]: lines 59-77 on settings that are not texts ([Setting]):
      [app], the run of the script on the settings as the secrets file gives
      them, which is [page] when they are texts.
    - [Chinook]: [src/chinook_db.py] as a function of the HTTP answer.
    - [Scenarios]: stub collaborators that compute, and the theorems of the
      other files applied at concrete inputs.

    ** What the theorems show

    - Control: the nodes a question runs are the first nodes of one fixed
      path of at most [max_steps] nodes, each making only the calls it is
      allowed ([Driver.process_question_path]); the loop ends within
      [max_steps + 1] items ([Driver.agent_loop_fuel]); a service that keeps
      to the protocol is answered after seven nodes, one query and four calls
      ([Answer.cooperative_service_is_answered]); a service that always
      proposes a query runs the whole path and gets the step-limit notice
      ([Budget.always_proposing_hits_max_steps]).
    - Exceptions: the handler of a question never raises and the page, on
      settings that are texts, never raises ([Driver.ask_total],
      [Page.page_total]); building the agent raises exactly when one of the
      two constructors does ([Page.build_agent_raises]) and the page then
      shows the error ([Page.page_init_failure]); [call_get_schema] raises
      exactly when the service and the schema read of its fallback both do
      ([Nodes.call_get_schema_outcome]); the script raises exactly when a
      setting it uses as a text is not one ([Secrets.app_raises]).
    - Refinement: every step of the generator is a transition of the machine
      of the specification, and a question is a bounded run of that machine
      ([Orchestrator.gen_next_refines],
      [Orchestrator.process_question_refines]).
    - Collaborators: a question calls the generation service at most nine
      times ([Driver.process_question_invocations]); a query reaches the
      database only through [run_query], after [check_query]
      ([Driver.process_question_queries]), and it is the query the review
      returned ([Graph.reviewed_query_is_run]); the schema tool asks for the
      names [list_tables] joined ([Toolkit.get_schema_node_joined_names]).
    - State: the reducer agrees with its reference and keeps the conversation
      well formed ([Messages.add_messages_refines],
      [Messages.add_messages_keeps_wf]); so does every state of a stream
      ([Graph.stream_wf]); the agent of a session is built from valid
      settings and never replaced ([Page.session_invariant]).
    - Nodes: the result of each node on each branch, [except] branches
      included, and what it asked of the collaborators ([Nodes], [Toolkit],
      [Graph.check_query_merge]).
    - Settings: what the validation lets through, which source wins, and that
      the URL gives back the user and the password it was made from
      ([Credentials]).
    - Where the code departs from what its comments or the specification
      say, a theorem states what the code does:
      [Toolkit.run_query_node_runs_any_query],
      [Driver.schema_fallback_is_the_answer],
      [Driver.item_after_max_steps_is_dropped],
      [Driver.answer_mentioning_tables_is_discarded],
      [Budget.answer_within_one_round], [Failure.drafting_failure_is_shown],
      [Failure.schema_fallback_failure_is_shown], [Page.page_with_agent],
      [Credentials.secrets_shadow_environ], [Secrets.app_raises].

    ** Bounds and fuel

    [agent_loop] takes fuel because a stream need not end.  The loop leaves
    after [max_steps + 1 = 11] items at the latest, so [process_question] runs
    it with fuel [S max_steps]; [Driver.agent_loop_fuel] shows that this is
    enough from the start and that more fuel changes nothing.  The graph
    runtime stops a run after [recursion_limit = 25] nodes; the page asks for
    at most 11 items, that is 10 nodes ([Driver.process_question_path]), so
    the generator's count of nodes stays below the limit.  Every other
    definition is structurally recursive.

    ** Modelling conventions and assumptions

    - Python [str] is [string], a sequence of bytes (a non-ASCII character is
      its UTF-8 bytes); concatenation and f-strings are [+:+].  The settings
      of [Credentials] and [Page] are texts, which is what the environment
      gives; [Secrets] has the run on settings of other types and shows that
      [page] is that run on texts.
    - The arguments of a tool call are texts ([tc_args]), as the input
      schemas of the three tools declare them and as the specification types
      the query of a draft.  A generation service can return any JSON value
      there; what the libraries do with one that is not a text (coerce it or
      reject it) depends on their version, which the repository does not
      fix.
    - A Python exception is a value of [Exn]; a computation that may raise
      returns [Exn + A] ([inl] is the raised exception).  State changes made
      before an exception is raised persist, as in Python.
    - Library code the program relies on is modelled after its documented
      behaviour, on the part the program uses: [add_messages] (without
      [RemoveMessage]), [ToolNode] (the calls of the latest [AIMessage], in
      order; what a tool raises becomes a tool message with [repr(e)]), the
      validation of [compile], the stream in mode ["values"] (the input
      state first, then the state after each node), the three tools (a
      missing argument is a validation error of the input schema),
      [quote_plus].
    - [db.get_table_info_no_throw] and [db.run_no_throw] catch the errors of
      a missing table and of SQLAlchemy only, and turn them into texts; what
      else is raised leaves them.  Both are typed [Exn + string]: the text
      returned, error texts included, or the exception that leaves.
    - [uuid.uuid4()] is a counter in the environment: fresh identifiers are
      distinct from each other and from those the generation service gives.
    - The collaborators are arbitrary: every theorem outside [Scenarios]
      holds for every instance of [Generation], [Database] and [Connector];
      the theorems of [Budget], [Answer] and [Failure] that follow one kind
      of service assume [always_proposes], [cooperative] or [drafting_fails]
      of the instance, and [Scenarios] gives an instance that satisfies each.

    ** Not modelled

    The language model and the SQL the database runs (they are the abstract
    collaborators); the toolkit's query-checker tool (no node holds it); the
    spinners; tool-call arguments that are not texts; what is on the page
    when a run ends with an uncaught exception (the run is then the
    exception alone); several sessions side by side (the process environment
    that line 77 writes to is shared between them).

    ** Not yet covered by theorems

    A whole run in which one assistant message holds several tool calls
    (the nodes handle them, [Graph.check_query_merge] and the lemmas of
    [Toolkit]; no theorem follows them through a question); the runtime's
    [GraphRecursionError], which the page cannot reach and which is
    therefore only shown unreachable; [Chinook], which has lemmas and no
    theorem among the properties. *)

From Stdlib Require Import Ascii.
From stdpp Require Import base list strings.

(** ** Exceptions *)

(** The exceptions the program can meet: a missing dictionary key, an index
    out of range, a value error raised by the graph runtime, an exhausted
    iterator, the rejection of a tool's input by its schema, an
    [Exception] with a message, and an exception of any other class (raised
    by a library or a collaborator), kept with the name of its class and its
    message. *)
Inductive Exn : Type :=
| KeyError (key : string)
| IndexError (msg : string)
| ValueError (msg : string)
| StopIteration
| ValidationError (model field : string)
| Exception (msg : string)
| Error (cls msg : string).

#[export] Instance Exn_eq_dec : EqDecision Exn.
Proof. solve_decision. Defined.

(** The two quotes and the backslash. *)
Definition squote : Ascii.ascii := Ascii.ascii_of_nat 39.
Definition dquote : Ascii.ascii := Ascii.ascii_of_nat 34.
Definition backslash : Ascii.ascii := Ascii.ascii_of_nat 92.

(** A digit of [\xhh]. *)
Definition hex_lower (n : nat) : Ascii.ascii :=
  Ascii.ascii_of_nat (if Nat.ltb n 10 then 48 + n else 87 + n).

(** One character of [repr(s)] inside the quote [q]: the quote and the
    backslash are escaped, tab, line feed and carriage return are written
    with their letters, the other control characters in hexadecimal.  The
    bytes from 128 on are kept: the characters beyond ASCII that are
    printable are written as they are. *)
Definition repr_char (q a : Ascii.ascii) : string :=
  let n := Ascii.nat_of_ascii a in
  if bool_decide (a = q) || bool_decide (a = backslash) then String backslash (String a "")
  else if Nat.eqb n 9 then String backslash "t"
  else if Nat.eqb n 10 then String backslash "n"
  else if Nat.eqb n 13 then String backslash "r"
  else if Nat.ltb n 32 || Nat.eqb n 127
       then String backslash (String "x" (String (hex_lower (n / 16))
                                            (String (hex_lower (n mod 16)) "")))
  else String a "".

Fixpoint repr_chars (q : Ascii.ascii) (s : string) : string :=
  match s with
  | EmptyString => EmptyString
  | String a s' => repr_char q a +:+ repr_chars q s'
  end.

(** [c in s] for a character. *)
Fixpoint has_char (c : Ascii.ascii) (s : string) : bool :=
  match s with
  | EmptyString => false
  | String a s' => bool_decide (a = c) || has_char c s'
  end.

(** [repr(s)] of a string: in single quotes, or in double quotes when the
    string holds a single quote and no double quote. *)
Definition repr_str (s : string) : string :=
  let q := if has_char squote s && negb (has_char dquote s) then dquote else squote in
  String q (repr_chars q s +:+ String q "").

(** [str(e)]: the message, except that a [KeyError] prints the repr of its
    key.  The text of a [ValidationError] is the library's and depends on
    its version: its first lines are kept. *)
Definition str_exn (e : Exn) : string :=
  match e with
  | KeyError k => repr_str k
  | IndexError m | ValueError m | Exception m | Error _ m => m
  | StopIteration => ""
  | ValidationError model field =>
      "1 validation error for " +:+ model +:+ "
" +:+ field +:+ "
  Field required"
  end.

(** [repr(e)]: the class with the repr of the argument. *)
Definition repr_exn (e : Exn) : string :=
  match e with
  | KeyError k => "KeyError(" +:+ repr_str k +:+ ")"
  | IndexError m => "IndexError(" +:+ repr_str m +:+ ")"
  | ValueError m => "ValueError(" +:+ repr_str m +:+ ")"
  | StopIteration => "StopIteration()"
  | ValidationError _ _ => str_exn e
  | Exception m => "Exception(" +:+ repr_str m +:+ ")"
  | Error cls m => cls +:+ "(" +:+ repr_str m +:+ ")"
  end.

(** The value of an outcome that is known not to be an exception. *)
Definition found {A} (r : Exn + A) : (if r is inr _ then True else False) → A :=
  match r with
  | inr a => λ _, a
  | inl _ => λ H, match H with end
  end.

(** The outcome [r] of a computation is a raised exception. *)
Definition raised {A} (r : Exn + A) : Prop :=
  match r with inl _ => True | inr _ => False end.

#[export] Instance raised_dec {A} (r : Exn + A) : Decision (raised r).
Proof. destruct r; apply _. Defined.

(** ** Strings *)

(** Truthiness of a string: [if s:] holds when [s] is not empty. *)
Definition truthy (s : string) : bool :=
  match s with
  | EmptyString => false
  | String _ _ => true
  end.

(** [needle in hay] on strings: [needle] occurs in [hay] as a substring. *)
Fixpoint contains (needle hay : string) : bool :=
  String.prefix needle hay ||
  match hay with
  | EmptyString => false
  | String _ hay' => contains needle hay'
  end.

(** Whitespace as [str.strip()] sees it.  Below 128: tab, line feed,
    vertical tab, form feed, carriage return, the four separators 28 to 31,
    and space. *)
Definition py_space (a : Ascii.ascii) : bool :=
  let n := Ascii.nat_of_ascii a in
  (Nat.leb 9 n && Nat.leb n 13) || (Nat.leb 28 n && Nat.leb n 32).

(** Beyond 128, by the UTF-8 bytes of the character: U+0085 and U+00A0 take
    two bytes ([C2 85], [C2 A0]). *)
Definition py_space2 (a b : Ascii.ascii) : bool :=
  let m := Ascii.nat_of_ascii a in
  let n := Ascii.nat_of_ascii b in
  Nat.eqb m 194 && (Nat.eqb n 133 || Nat.eqb n 160).

(** U+1680 ([E1 9A 80]), U+2000 to U+200A ([E2 80 80] to [E2 80 8A]),
    U+2028, U+2029, U+202F ([E2 80 A8], [E2 80 A9], [E2 80 AF]), U+205F
    ([E2 81 9F]) and U+3000 ([E3 80 80]) take three. *)
Definition py_space3 (a b c : Ascii.ascii) : bool :=
  let l := Ascii.nat_of_ascii a in
  let m := Ascii.nat_of_ascii b in
  let n := Ascii.nat_of_ascii c in
  (Nat.eqb l 225 && Nat.eqb m 154 && Nat.eqb n 128)
  || (Nat.eqb l 226 && Nat.eqb m 128
      && ((Nat.leb 128 n && Nat.leb n 138)
          || Nat.eqb n 168 || Nat.eqb n 169 || Nat.eqb n 175))
  || (Nat.eqb l 226 && Nat.eqb m 129 && Nat.eqb n 159)
  || (Nat.eqb l 227 && Nat.eqb m 128 && Nat.eqb n 128).

(** Drop the characters at the front that the three tests accept, by their
    bytes. *)
Fixpoint lstrip_by (p1 : Ascii.ascii → bool) (p2 : Ascii.ascii → Ascii.ascii → bool)
    (p3 : Ascii.ascii → Ascii.ascii → Ascii.ascii → bool) (s : string) : string :=
  match s with
  | EmptyString => EmptyString
  | String a s1 =>
      if p1 a then lstrip_by p1 p2 p3 s1
      else match s1 with
           | EmptyString => s
           | String b s2 =>
               if p2 a b then lstrip_by p1 p2 p3 s2
               else match s2 with
                    | EmptyString => s
                    | String c s3 => if p3 a b c then lstrip_by p1 p2 p3 s3 else s
                    end
           end
  end.

(** [s.lstrip()] *)
Definition lstrip (s : string) : string := lstrip_by py_space py_space2 py_space3 s.

(** [s.rstrip()]: the same from the end, where the bytes of a character
    come in the opposite order. *)
Definition rstrip (s : string) : string :=
  String.rev (lstrip_by py_space (λ b a, py_space2 a b) (λ c b a, py_space3 a b c)
                (String.rev s)).

(** [s.strip()] *)
Definition strip (s : string) : string := rstrip (lstrip s).

(** [s.split(c)] for a one-character separator: never empty. *)
Fixpoint split_on (c : Ascii.ascii) (s : string) : list string :=
  match s with
  | EmptyString => [EmptyString]
  | String a s' =>
      if decide (a = c) then EmptyString :: split_on c s'
      else match split_on c s' with
           | [] => [String a EmptyString]
           | w :: ws => String a w :: ws
           end
  end.

(** The characters of a string. *)
Definition chars : string → list Ascii.ascii := String.list_ascii_of_string.

(** A table name that [strip] leaves alone and that holds no comma. *)
Definition clean_name (t : string) : Prop :=
  strip t = t ∧ ","%char ∉ chars t.

(** ** The state-and-exception monad *)

(** A computation over a state [S] that returns an [A] or raises. *)
Definition M (S A : Type) : Type := S → (Exn + A) * S.

Definition ret {S A} (a : A) : M S A := λ s, (inr a, s).

Definition bind {S A B} (c : M S A) (k : A → M S B) : M S B :=
  λ s, match c s with
       | (inr a, s') => k a s'
       | (inl e, s') => (inl e, s')
       end.

(** [raise e] *)
Definition throw {S A} (e : Exn) : M S A := λ s, (inl e, s).

(** [try: c  except Exception as e: h e] *)
Definition try_except {S A} (c : M S A) (h : Exn → M S A) : M S A :=
  λ s, match c s with
       | (inr a, s') => (inr a, s')
       | (inl e, s') => h e s'
       end.

Definition get {S} : M S S := λ s, (inr s, s).
Definition modify {S} (f : S → S) : M S unit := λ s, (inr tt, f s).

(** Lift a pure result that may be an exception. *)
Definition lift {S A} (r : Exn + A) : M S A := λ s, (r, s).

Declare Scope py_scope.
Delimit Scope py_scope with py.
Notation "'let*' x ':=' c 'in' k" := (bind c (λ x, k))
  (at level 10, x pattern, c at level 100, k at level 200) : py_scope.
Open Scope py_scope.

(** [l[-1]]: the last element, or [IndexError]. *)
Definition last_item {A} (l : list A) : Exn + A :=
  match last l with
  | Some x => inr x
  | None => inl (IndexError "list index out of range")
  end.

(** ** Tactics and hints *)

Create HintDb agent.
Create Rewrite HintDb agent.

(** Invert a hypothesis and substitute. *)
Ltac invert H := inversion H; subst; clear H.

(** Unfold the monad's operations. *)
Ltac run_simpl :=
  unfold bind, ret, throw, try_except, get, modify, lift in *; simpl in *.

(** Split on the scrutinee of the first [match] of the goal. *)
Ltac case_scrut :=
  match goal with
  | |- context [match ?x with _ => _ end] => destruct x eqn:?
  end.

(** ** Lemmas on strings *)

Lemma string_prefix_cons a p b s :
  String.prefix (String a p) (String b s) =
  if Ascii.ascii_dec a b then String.prefix p s else false.
Proof. done. Qed.

Lemma app_String a (s t : string) : String a s +:+ t = String a (s +:+ t).
Proof. done. Qed.

Lemma string_prefix_app (p s : string) : String.prefix p (p +:+ s) = true.
Proof.
  induction p as [|a p IH]; [by destruct s|].
  rewrite app_String, string_prefix_cons. by destruct (Ascii.ascii_dec a a).
Qed.

Lemma string_prefix_inv (p s : string) :
  String.prefix p s = true → ∃ t, s = p +:+ t.
Proof.
  revert s. induction p as [|a p IH]; intros s H.
  - by exists s.
  - destruct s as [|b s]; [done|]. rewrite string_prefix_cons in H.
    destruct (Ascii.ascii_dec a b) as [->|]; [|done].
    destruct (IH s H) as [t ->]. by exists t.
Qed.

Lemma contains_nil (n : string) : contains n "" = String.prefix n "".
Proof. unfold contains. apply orb_false_r. Qed.

Lemma contains_String (n : string) a (h : string) :
  contains n (String a h) = String.prefix n (String a h) || contains n h.
Proof. done. Qed.

Lemma contains_prefix (n h : string) :
  String.prefix n h = true → contains n h = true.
Proof. intros H. destruct h; [by rewrite contains_nil|by rewrite contains_String, H]. Qed.

Lemma contains_app_r (n pre h : string) :
  contains n h = true → contains n (pre +:+ h) = true.
Proof.
  intros H. induction pre as [|a pre IH]; [done|].
  rewrite app_String, contains_String, IH. apply orb_true_r.
Qed.

(** [contains] is Python's [in]: it holds exactly when the haystack splits
    around an occurrence of the needle. *)
Lemma contains_spec (n h : string) :
  contains n h = true ↔ ∃ pre post, h = pre +:+ n +:+ post.
Proof.
  split.
  - induction h as [|a h IH]; intros H.
    + rewrite contains_nil in H. apply string_prefix_inv in H as [t ->]. by exists "", t.
    + rewrite contains_String in H. apply orb_true_iff in H as [H|H].
      * apply (string_prefix_inv n (String a h)) in H as [t ->]. by exists "", t.
      * destruct (IH H) as (pre & post & ->). by exists (String a pre), post.

  - intros (pre & post & ->). apply contains_app_r, contains_prefix, string_prefix_app.
Qed.

Lemma string_app_assoc (a b c : string) : (a +:+ b) +:+ c = a +:+ b +:+ c.
Proof. induction a as [|x a IH]; [done|]. by rewrite !app_String, IH. Qed.

Lemma contains_app_l (n h post : string) :
  contains n h = true → contains n (h +:+ post) = true.
Proof.
  rewrite !contains_spec. intros (pre & post' & ->).
  exists pre, (post' +:+ post). by rewrite !string_app_assoc.
Qed.

Lemma string_app_empty_r (s : string) : s +:+ "" = s.
Proof. induction s as [|x s IH]; [done|]. by rewrite app_String, IH. Qed.

Lemma contains_refl (s : string) : contains s s = true.
Proof. apply contains_spec. exists "", "". by rewrite string_app_empty_r. Qed.

(** Every element of a list occurs in the list joined by a separator
    ([sep.join(l)] is [String.concat sep l]). *)
Lemma contains_concat (sep x : string) (l : list string) :
  x ∈ l → contains x (String.concat sep l) = true.
Proof.
  induction l as [|y l IH]; [by intros ?%elem_of_nil|].
  intros [->|Hin]%elem_of_cons; simpl.
  - destruct l; [apply contains_refl|apply contains_prefix, string_prefix_app].
  - destruct l as [|z l]; [by apply elem_of_nil in Hin|].
    by apply contains_app_r, contains_app_r, IH.
Qed.
(** ** Laws of the monad (pointwise, so that no extensionality is assumed) *)

Section monad_laws.
Context {S A B C : Type}.
Implicit Types (s : S) (a : A) (e : Exn).

Lemma bind_ret_l a (k : A → M S B) s : bind (ret a) k s = k a s.
Proof. done. Qed.

Lemma bind_ret_r (c : M S A) s : bind c ret s = c s.
Proof. unfold bind, ret. by destruct (c s) as [[?|?] ?]. Qed.

Lemma bind_assoc (c : M S A) (k : A → M S B) (k' : B → M S C) s :
  bind (bind c k) k' s = bind c (λ a, bind (k a) k') s.
Proof. unfold bind. by destruct (c s) as [[?|?] ?]. Qed.

Lemma bind_throw e (k : A → M S B) s : bind (throw e) k s = (inl e, s).
Proof. done. Qed.

Lemma lift_spec (r : Exn + A) s : lift r s = (r, s).
Proof. done. Qed.

Lemma try_except_ret a (h : Exn → M S A) s : try_except (ret a) h s = (inr a, s).
Proof. done. Qed.

Lemma try_except_throw e (h : Exn → M S A) s : try_except (throw e) h s = h e s.
Proof. done. Qed.

(** A handler that never raises makes the whole [try] never raise. *)
Lemma try_except_total (c : M S A) (h : Exn → M S A) s :
  (∀ e s', ∃ a s'', h e s' = (inr a, s'')) →
  ∃ a s', try_except c h s = (inr a, s').
Proof.
  intros Hh. unfold try_except. destruct (c s) as [[e|a] s']; [apply Hh|eauto].
Qed.

End monad_laws.

#[export] Hint Rewrite @bind_ret_l @bind_throw @try_except_ret @try_except_throw @lift_spec : agent.
#[export] Hint Resolve contains_refl contains_prefix string_prefix_app : agent.

(** ** Splitting and stripping *)

Lemma split_on_ne_nil c s : split_on c s ≠ [].
Proof.
  induction s as [|a s IH]; simpl; [done|]. case_decide; [done|].
  by destruct (split_on c s).
Qed.

Lemma split_on_no_sep c s : c ∉ chars s → split_on c s = [s].
Proof.
  induction s as [|a s IH]; [done|]. cbn [chars String.list_ascii_of_string].
  intros [Ha Hs]%not_elem_of_cons. simpl. rewrite decide_False by done.
  by rewrite IH.
Qed.

Lemma split_on_app c s t :
  c ∉ chars s → split_on c (s +:+ String c t) = s :: split_on c t.
Proof.
  induction s as [|a s IH].
  - intros _. change (split_on c (String c t) = "" :: split_on c t). simpl.
    by rewrite decide_True.
  - cbn [chars String.list_ascii_of_string]. intros [Ha Hs]%not_elem_of_cons.
    rewrite app_String. simpl. rewrite decide_False by done. by rewrite IH.
Qed.

Lemma strip_space s : strip (String " " s) = strip s.
Proof. done. Qed.

(** White space beyond ASCII is stripped at both ends, by its bytes: here
    a no-break space (U+00A0) in front and an ideographic space (U+3000)
    behind.  A byte of such a character on its own is kept. *)
Lemma strip_unicode_space :
  let byte := Ascii.ascii_of_nat in
  strip (String (byte 194) (String (byte 160) "customers")
         +:+ String (byte 227) (String (byte 128) (String (byte 128) "")))
  = "customers"
  ∧ strip (String (byte 160) "customers") = String (byte 160) "customers".
Proof. by vm_compute. Qed.

(** A space after the separator is stripped. *)
Lemma strip_split_space c s :
  c ≠ " "%char → strip <$> split_on c (String " " s) = strip <$> split_on c s.
Proof.
  intros Hc. simpl. rewrite decide_False by done.
  pose proof (split_on_ne_nil c s). by destruct (split_on c s).
Qed.

Lemma concat_cons_cons sep (t t' : string) ts :
  String.concat sep (t :: t' :: ts) = t +:+ sep +:+ String.concat sep (t' :: ts).
Proof. done. Qed.

(** What [", ".join] writes, [split(",")] and [strip] read back. *)
Lemma strip_split_concat names :
  names ≠ [] → Forall clean_name names →
  strip <$> split_on "," (String.concat ", " names) = names.
Proof.
  induction names as [|t names IH]; [done|]. intros _ [[Hs Hc] Hn]%Forall_cons.
  destruct names as [|t' names].
  - simpl. by rewrite split_on_no_sep, fmap_cons, Hs.
  - rewrite concat_cons_cons.
    change (", " +:+ ?x) with (String "," (String " " x)).
    rewrite split_on_app, fmap_cons, Hs by done.
    rewrite strip_split_space by done. by rewrite IH.
Qed.

(** ** Lemmas on lists *)

Section lists.
Context {A B : Type}.
Implicit Types (l k : list A).

Lemma prefix_take_length l k : l `prefix_of` k → l = take (length l) k.
Proof. intros [k' ->]. by rewrite take_app_length. Qed.

Lemma prefix_fmap (f : A → B) l k : l `prefix_of` k → f <$> l `prefix_of` f <$> k.
Proof. intros [k' ->]. rewrite fmap_app. by apply prefix_app_r. Qed.

Lemma prefix_omap (f : A → option B) l k :
  l `prefix_of` k → omap f l `prefix_of` omap f k.
Proof. intros [k' ->]. rewrite omap_app. by apply prefix_app_r. Qed.

End lists.

Lemma sum_list_app (l k : list nat) : sum_list (l ++ k) = sum_list l + sum_list k.
Proof. induction l as [|x l IH]; simpl; lia. Qed.

Lemma sum_list_prefix (l k : list nat) : l `prefix_of` k → sum_list l ≤ sum_list k.
Proof. intros [k' ->]. rewrite sum_list_app. lia. Qed.
