(* ===== verification/Streamlit.v ===== *)
(** * What the page shows

    [src/app.py] is a Streamlit script: every run of it calls [st.title],
    [st.error], [st.success], [st.write] and the like, in order, and what the
    user sees is the sequence of those calls.  [Ui] has one constructor per
    call the script makes; a run of the page, or of a part of it, gives a
    list of them.  A call made inside [with st.sidebar:] is wrapped in
    [st_sidebar], one made inside [with st.form(key):] in [st_form key].  The
    two widgets of the form of lines 225-231 are shown on every run that gets
    there; the values they return, [submitted] and [question], are what the
    user did, and are arguments of the run.  The spinners are left out: they
    are gone when the run ends. *)

From stdpp Require Import base list strings.
From S2P Require Import Prelude.

Inductive Ui : Type :=
| st_set_page_config (page_title page_icon layout : string)
| st_title (body : string)
| st_markdown (body : string)
| st_header (body : string)
| st_success (body : string)
| st_write (body : string)
| st_info (body : string)
| st_warning (body : string)
| st_error (body : string)
| st_text (body : string)
| st_code_traceback (e : Exn)
| st_text_area (label placeholder : string) (height : nat)
| st_form_submit_button (label type : string)
| st_form (key : string) (item : Ui)
| st_sidebar (item : Ui).

#[export] Instance Ui_eq_dec : EqDecision Ui.
Proof. solve_decision. Defined.

(** The items shown in the sidebar. *)
Definition in_sidebar (u : Ui) : bool :=
  match u with
  | st_sidebar _ => true
  | _ => false
  end.
