(* ===== verification/Credentials.v ===== *)
(** * Settings, their validation, and the connection URL

    Lines 21-77 of [src/app.py]: [get_credentials] reads six settings from
    the Streamlit secrets, or from the environment when the secrets cannot be
    read; the script stops when the key of the generation service or the
    database password is empty; user and password are encoded with
    [urllib.parse.quote_plus] and put into the URL the database is opened
    with.

    A setting is a text here, as the environment gives it ([Secrets] has the
    values of other types a secrets file can hold), and a text is the
    sequence of its bytes (UTF-8): [quote_plus] works on the bytes.  [quote_plus], [quote] and the decoders
    [unquote_plus], [unquote] are library code, modelled after their
    documentation; [userinfo] is the reading of a URL's user and password
    that the encoding is for: the user ends at the first [":"], the password at
    the first ["@"], and both are decoded.

    The theorems: what [validate] lets through; that readable secrets shadow
    the environment entirely; that [quote_plus] works character by character,
    produces unreserved characters, ["+"] and ["%"] only, and is undone by
    [unquote_plus] (and by [unquote] up to spaces); that the URL gives back the
    user and the password it was made from. *)

From Stdlib Require Import Ascii.
From stdpp Require Import base list strings gmap.
From S2P Require Import Prelude Streamlit.

(** ** Reading the settings *)

(** Where settings come from.  [secrets] is [None] when [st] has no
    attribute [secrets], [Some (inl e)] when reading the secrets raises [e]
    (there is no secrets file), and the secrets otherwise; [environ] is
    [os.environ]. *)
Record Sources : Type := mkSources {
  secrets : option (Exn + gmap string string);
  environ : gmap string string;
}.

(** The dictionary [get_credentials] returns: its six keys. *)
Record Credentials : Type := mkCredentials {
  POSTGRES_HOST : string;
  POSTGRES_PORT : string;
  POSTGRES_DB : string;
  POSTGRES_USER : string;
  POSTGRES_PASSWORD : string;
  GROQ_API_KEY : string;
}.

(** [m.get(key, fallback)], and [os.getenv(key, fallback)] on [os.environ]. *)
Definition mapping_get (m : gmap string string) (key fallback : string) : string :=
  default fallback (m !! key).

(** The dictionary literal of lines 27-34 and 39-46, over the [get] in use. *)
Definition settings (get : string → string → string) : Credentials :=
  {| POSTGRES_HOST := get "POSTGRES_HOST" "localhost";
     POSTGRES_PORT := get "POSTGRES_PORT" "5432";
     POSTGRES_DB := get "POSTGRES_DB" "chinook";
     POSTGRES_USER := get "POSTGRES_USER" "postgres";
     POSTGRES_PASSWORD := get "POSTGRES_PASSWORD" "";
     GROQ_API_KEY := get "GROQ_API_KEY" "" |}.

(** [get_credentials()]: the secrets when they can be read; when reading
    them raises, [except: pass] falls through to the environment. *)
Definition get_credentials (src : Sources) : Credentials :=
  match secrets src with
  | Some (inr sec) => settings (mapping_get sec)
  | Some (inl _) | None => settings (mapping_get (environ src))
  end.

(** What is shown when the key of the generation service is not set
    (lines 61-62), and when the password is not (line 66). *)
Definition key_missing : list Ui :=
  [st_error "❌ GROQ_API_KEY is not set. Please configure your credentials.";
   st_info "For local development, set environment variables. For deployment, use Streamlit secrets."].

Definition password_missing : list Ui :=
  [st_error "❌ Database credentials are not properly configured."].

(** "Validate required credentials": what is shown before [st.stop()], or
    [None] when the script goes on. *)
Definition validate (credentials : Credentials) : option (list Ui) :=
  if negb (truthy (GROQ_API_KEY credentials)) then Some key_missing
  else if negb (truthy (POSTGRES_PASSWORD credentials)) then Some password_missing
  else None.

(** ** [quote_plus] *)

(** The characters [quote] never encodes. *)
Definition always_safe (a : ascii) : bool :=
  bool_decide (a ∈ chars "ABCDEFGHIJKLMNOPQRSTUVWXYZabcdefghijklmnopqrstuvwxyz0123456789_.-~").

Definition hex_digit (n : nat) : ascii :=
  default "0"%char (String.get n "0123456789ABCDEF").

(** ["%%%02X" % byte], before [rest]. *)
Definition percent (a : ascii) (rest : string) : string :=
  let n := nat_of_ascii a in
  String "%" (String (hex_digit (n / 16)) (String (hex_digit (n mod 16)) rest)).

(** [quote(s, safe)] *)
Fixpoint quote (safe : list ascii) (s : string) : string :=
  match s with
  | EmptyString => EmptyString
  | String a s' =>
      if always_safe a || bool_decide (a ∈ safe) then String a (quote safe s')
      else percent a (quote safe s')
  end.

(** [s.replace(old, new)] for single characters. *)
Fixpoint replace_char (old new : ascii) (s : string) : string :=
  match s with
  | EmptyString => EmptyString
  | String a s' =>
      String (if decide (a = old) then new else a) (replace_char old new s')
  end.

(** [quote_plus(s)]: with a space in [s], quote with the space safe and then
    replace the spaces by ["+"]; without, quote. *)
Definition quote_plus (s : string) : string :=
  if bool_decide (" "%char ∈ chars s)
  then replace_char " " "+" (quote [" "%char] s)
  else quote [] s.

(** The connection string of line 74. *)
Definition postgres_url (credentials : Credentials) : string :=
  let encoded_password := quote_plus (POSTGRES_PASSWORD credentials) in
  let encoded_user := quote_plus (POSTGRES_USER credentials) in
  "postgresql://" +:+ encoded_user +:+ ":" +:+ encoded_password +:+ "@" +:+
  POSTGRES_HOST credentials +:+ ":" +:+ POSTGRES_PORT credentials +:+ "/" +:+
  POSTGRES_DB credentials.

(** ** Reference definitions *)

(** [quote_plus], one character at a time. *)
Definition quote_plus_char (a : ascii) (rest : string) : string :=
  if decide (a = " "%char) then String "+" rest
  else if always_safe a then String a rest
  else percent a rest.

Fixpoint quote_plus_ref (s : string) : string :=
  match s with
  | EmptyString => EmptyString
  | String a s' => quote_plus_char a (quote_plus_ref s')
  end.

(** The characters an encoded text is made of. *)
Definition url_char (a : ascii) : bool :=
  always_safe a || bool_decide (a = "+"%char) || bool_decide (a = "%"%char).

Definition hex_value (a : ascii) : option nat :=
  let n := nat_of_ascii a in
  if bool_decide (48 ≤ n ≤ 57) then Some (n - 48)
  else if bool_decide (65 ≤ n ≤ 70) then Some (n - 55)
  else if bool_decide (97 ≤ n ≤ 102) then Some (n - 87)
  else None.

(** [unquote(s)]: a ["%"] followed by two hexadecimal digits is the byte
    they denote; anything else stands for itself. *)
Fixpoint unquote (s : string) : string :=
  match s with
  | EmptyString => EmptyString
  | String a t =>
      match t with
      | String h (String l t') =>
          match (if decide (a = "%"%char) then Some () else None),
                hex_value h, hex_value l with
          | Some _, Some x, Some y => String (ascii_of_nat (16 * x + y)) (unquote t')
          | _, _, _ => String a (unquote t)
          end
      | _ => String a (unquote t)
      end
  end.

(** [unquote_plus(s)]: [unquote(s.replace("+", " "))] *)
Definition unquote_plus (s : string) : string := unquote (replace_char "+" " " s).

(** [s.partition(sep)] when [sep] occurs in [s]: what stands before its
    first occurrence, and what stands after. *)
Fixpoint partition (sep : ascii) (s : string) : option (string * string) :=
  match s with
  | EmptyString => None
  | String a s' =>
      if decide (a = sep) then Some (EmptyString, s')
      else prod_map (String a) id <$> partition sep s'
  end.

(** [s] without its prefix [p]. *)
Fixpoint strip_prefix (p s : string) : option string :=
  match p, s with
  | EmptyString, _ => Some s
  | String a p', String b s' => if decide (a = b) then strip_prefix p' s' else None
  | String _ _, EmptyString => None
  end.

(** The user and the password a connection URL names, for a reader that
    decodes them with [decode]. *)
Definition userinfo_with (decode : string → string) (url : string)
    : option (string * string) :=
  rest ← strip_prefix "postgresql://" url;
  '(user, rest) ← partition ":" rest;
  '(password, _) ← partition "@" rest;
  Some (decode user, decode password).

Definition userinfo : string → option (string * string) := userinfo_with unquote_plus.

(** ** Lemmas *)

Section credentials_lemmas.
Implicit Types (a b : ascii) (s t : string) (src : Sources) (c : Credentials).

Lemma mapping_get_Some (m : gmap string string) key fallback v :
  m !! key = Some v → mapping_get m key fallback = v.
Proof. unfold mapping_get. by intros ->. Qed.

Lemma mapping_get_None (m : gmap string string) key fallback :
  m !! key = None → mapping_get m key fallback = fallback.
Proof. unfold mapping_get. by intros ->. Qed.

(** The validation lets through the settings whose key and password are
    not empty. *)
Lemma validate_None c :
  validate c = None ↔ GROQ_API_KEY c ≠ "" ∧ POSTGRES_PASSWORD c ≠ "".
Proof.
  unfold validate. destruct (GROQ_API_KEY c), (POSTGRES_PASSWORD c); simpl; naive_solver.
Qed.

(** C30: the script goes on past the validation exactly when the key of the
    generation service and the database password are both non-empty; when it
    stops, the first thing shown is an error, and a missing key is reported
    before a missing password.  Host, port, database name and user are not
    looked at. *)
Theorem validate_spec c :
  (validate c = None ↔ GROQ_API_KEY c ≠ "" ∧ POSTGRES_PASSWORD c ≠ "")
  ∧ (GROQ_API_KEY c = "" →
     ∃ ui, validate c = Some (st_error "❌ GROQ_API_KEY is not set. Please configure your credentials." :: ui))
  ∧ (GROQ_API_KEY c ≠ "" → POSTGRES_PASSWORD c = "" →
     validate c = Some [st_error "❌ Database credentials are not properly configured."]).
Proof.
  split; [apply validate_None|]. unfold validate.
  split; [intros ->; by eexists|]. intros Hk ->. by destruct (GROQ_API_KEY c).
Qed.

(** C29: secrets that can be read shadow the environment entirely: no
    setting is taken from the environment, so a key of the generation service
    that is set in the environment only is not found, and the script stops. *)
Theorem secrets_shadow_environ (sec env : gmap string string) :
  get_credentials (mkSources (Some (inr sec)) env) = settings (mapping_get sec)
  ∧ (sec !! "GROQ_API_KEY" = None →
     is_Some (validate (get_credentials (mkSources (Some (inr sec)) env)))).
Proof.
  split; [done|]. intros Hk. unfold get_credentials, validate. simpl.
  by rewrite (mapping_get_None _ _ _ Hk).
Qed.

(** When the secrets cannot be read, every setting is the environment's, or
    its default. *)
Lemma get_credentials_environ src :
  (∀ sec, secrets src ≠ Some (inr sec)) →
  get_credentials src = settings (mapping_get (environ src)).
Proof. unfold get_credentials. by destruct (secrets src) as [[]|]; intros H; [|edestruct H|]. Qed.

Lemma chars_app s t : chars (s +:+ t) = chars s ++ chars t.
Proof. induction s as [|a s IH]; [done|]. rewrite app_String. simpl. by rewrite <- IH. Qed.

Lemma hex_digit_value n : n < 16 → hex_value (hex_digit n) = Some n.
Proof. intros H. do 16 (destruct n as [|n]; [done|]). lia. Qed.

Lemma hex_digit_safe n : always_safe (hex_digit n) = true.
Proof. do 16 (destruct n as [|n]; [done|]). done. Qed.

Lemma always_safe_ne a b : always_safe a = true → always_safe b = false → a ≠ b.
Proof. intros Ha Hb ->. congruence. Qed.

Lemma unquote_keep a t : a ≠ "%"%char → unquote (String a t) = String a (unquote t).
Proof.
  intros Ha. destruct t as [|h [|l t']]; try done.
  cbn [unquote]. by rewrite decide_False.
Qed.

Lemma unquote_percent a t : unquote (percent a t) = String a (unquote t).
Proof.
  unfold percent. cbn [unquote]. pose proof (nat_ascii_bounded a) as Hb.
  rewrite decide_True by done.
  rewrite !hex_digit_value
    by (try apply Nat.mod_upper_bound; try apply Nat.Div0.div_lt_upper_bound; lia).
  by rewrite <- Nat.div_mod_eq, ascii_nat_embedding.
Qed.

Lemma replace_char_percent old new a t :
  always_safe old = false → old ≠ "%"%char →
  replace_char old new (percent a t) = percent a (replace_char old new t).
Proof.
  intros Hs Hp. unfold percent. cbn [replace_char].
  rewrite !decide_False; [done|..];
    try (by apply always_safe_ne, Hs; apply hex_digit_safe).
  by intros <-.
Qed.

Lemma replace_char_id old new s :
  old ≠ new → replace_char old new s = s ↔ old ∉ chars s.
Proof.
  intros Hne. induction s as [|a s IH]; [by split; [intros _; apply not_elem_of_nil|]|].
  cbn [replace_char chars String.list_ascii_of_string]. rewrite not_elem_of_cons.
  fold (chars s). rewrite <- IH. case_decide as Ha; split.
  - intros [= Heq _]. by subst.
  - by intros [? _].
  - intros [= ->]. by split; [intros ->|].
  - by intros [_ ->].
Qed.

(** *** [quote_plus], character by character *)

Lemma quote_space s :
  replace_char " " "+" (quote [" "%char] s) = quote_plus_ref s.
Proof.
  induction s as [|a s IH]; [done|]. cbn [quote quote_plus_ref]. unfold quote_plus_char.
  destruct (decide (a = " "%char)) as [->|Ha].
  - replace (always_safe " " || bool_decide (" "%char ∈ [" "%char])) with true by done.
    cbn [replace_char]. by rewrite decide_True, IH.
  - rewrite (bool_decide_eq_false_2 (a ∈ [" "%char]))
      by by intros ?%list_elem_of_singleton.
    rewrite orb_false_r. destruct (always_safe a) eqn:Hs.
    + cbn [replace_char]. by rewrite decide_False, IH.
    + by rewrite replace_char_percent, IH.
Qed.

Lemma quote_no_space s : " "%char ∉ chars s → quote [] s = quote_plus_ref s.
Proof.
  induction s as [|a s IH]; [done|]. cbn [chars String.list_ascii_of_string].
  intros [Ha Hs]%not_elem_of_cons. cbn [quote quote_plus_ref]. unfold quote_plus_char.
  rewrite decide_False by done.
  rewrite (bool_decide_eq_false_2 (a ∈ [])) by apply not_elem_of_nil.
  by rewrite orb_false_r, IH.
Qed.

Lemma quote_plus_eq s : quote_plus s = quote_plus_ref s.
Proof.
  unfold quote_plus. case_bool_decide; [apply quote_space|by apply quote_no_space].
Qed.

Lemma url_char_quote_plus_char a t :
  Forall (λ x, url_char x = true) (chars t) →
  Forall (λ x, url_char x = true) (chars (quote_plus_char a t)).
Proof.
  intros Ht. unfold quote_plus_char, percent.
  destruct (decide _); [by constructor|]. destruct (always_safe a) eqn:Hs.
  - constructor; [|done]. unfold url_char. by rewrite Hs.
  - repeat (constructor; [unfold url_char; by rewrite ?hex_digit_safe|]). done.
Qed.

Lemma quote_plus_url_chars s : Forall (λ x, url_char x = true) (chars (quote_plus s)).
Proof.
  rewrite quote_plus_eq. induction s as [|a s IH]; [constructor|].
  by apply url_char_quote_plus_char.
Qed.

(** A character that is neither unreserved nor ["+"] nor ["%"] does not
    occur in an encoded text. *)
Lemma quote_plus_free sep s : url_char sep = false → sep ∉ chars (quote_plus s).
Proof.
  intros Hn Hin. pose proof (quote_plus_url_chars s) as H.
  rewrite Forall_forall in H. specialize (H _ Hin). congruence.
Qed.

(** *** Decoding *)

Lemma unquote_plus_char a t :
  unquote_plus (quote_plus_char a t) = String a (unquote_plus t).
Proof.
  unfold unquote_plus, quote_plus_char. destruct (decide (a = " "%char)) as [->|Ha].
  - cbn [replace_char]. rewrite decide_True by done. by rewrite unquote_keep.
  - destruct (always_safe a) eqn:Hs.
    + cbn [replace_char]. rewrite decide_False by by apply always_safe_ne.
      rewrite unquote_keep; [done|by apply always_safe_ne].
    + by rewrite replace_char_percent, unquote_percent.
Qed.

Lemma unquote_char a t :
  unquote (quote_plus_char a t) =
  String (if decide (a = " "%char) then "+"%char else a) (unquote t).
Proof.
  unfold quote_plus_char. destruct (decide (a = " "%char)) as [->|Ha].
  - by rewrite unquote_keep.
  - destruct (always_safe a) eqn:Hs; [|apply unquote_percent].
    rewrite unquote_keep; [done|by apply always_safe_ne].
Qed.

Lemma unquote_plus_ref s : unquote_plus (quote_plus_ref s) = s.
Proof.
  induction s as [|a s IH]; [done|]. cbn [quote_plus_ref].
  by rewrite unquote_plus_char, IH.
Qed.

(** [unquote_plus] undoes [quote_plus] on every text; [unquote], which
    does not read ["+"] as a space, undoes it up to the spaces, which come back
    as ["+"]. *)
Lemma quote_plus_roundtrip s :
  unquote_plus (quote_plus s) = s
  ∧ unquote (quote_plus s) = replace_char " " "+" s.
Proof.
  rewrite quote_plus_eq. split; [apply unquote_plus_ref|].
  induction s as [|a s IH]; [done|].
  cbn [quote_plus_ref replace_char]. by rewrite unquote_char, IH.
Qed.

(** *** The URL *)

Lemma partition_app sep s t :
  sep ∉ chars s → partition sep (s +:+ String sep t) = Some (s, t).
Proof.
  induction s as [|a s IH]; intros Hs.
  - change (partition sep (String sep t) = Some (EmptyString, t)).
    cbn [partition]. by rewrite decide_True.
  - cbn in Hs. apply not_elem_of_cons in Hs as [Ha Hs]. rewrite app_String.
    cbn [partition]. rewrite decide_False by done. by rewrite IH.
Qed.

Lemma partition_sep sep s t :
  sep ∉ chars s → partition sep (s +:+ String sep EmptyString +:+ t) = Some (s, t).
Proof. apply partition_app. Qed.

Lemma strip_prefix_app p s : strip_prefix p (p +:+ s) = Some s.
Proof.
  induction p as [|a p IH]; [done|]. rewrite app_String. cbn [strip_prefix].
  by rewrite decide_True.
Qed.

(** The URL, read by any decoder. *)
Lemma userinfo_with_postgres_url decode c :
  userinfo_with decode (postgres_url c) =
  Some (decode (quote_plus (POSTGRES_USER c)), decode (quote_plus (POSTGRES_PASSWORD c))).
Proof.
  unfold userinfo_with, postgres_url. rewrite strip_prefix_app. cbn [mbind option_bind].
  rewrite partition_sep by by apply quote_plus_free. cbn [mbind option_bind].
  by rewrite partition_sep by by apply quote_plus_free.
Qed.

(** C8: the URL gives back the user and the password it was made from,
    whatever characters they hold and whatever the host, the port and the
    database name are. *)
Theorem postgres_url_userinfo c :
  userinfo (postgres_url c) = Some (POSTGRES_USER c, POSTGRES_PASSWORD c).
Proof.
  unfold userinfo. rewrite userinfo_with_postgres_url.
  by rewrite !(proj1 (quote_plus_roundtrip _)).
Qed.

(** C25: a reader of the URL that decodes percent signs but does not read
    ["+"] as a space gets the user and the password with every space replaced
    by ["+"]: they arrive intact exactly when they hold no space. *)
Theorem postgres_url_plain_decoding c :
  userinfo_with unquote (postgres_url c) =
  Some (replace_char " " "+" (POSTGRES_USER c),
        replace_char " " "+" (POSTGRES_PASSWORD c))
  ∧ (userinfo_with unquote (postgres_url c)
       = Some (POSTGRES_USER c, POSTGRES_PASSWORD c)
     ↔ (" "%char ∉ chars (POSTGRES_USER c)) ∧ (" "%char ∉ chars (POSTGRES_PASSWORD c))).
Proof.
  rewrite userinfo_with_postgres_url, !(proj2 (quote_plus_roundtrip _)).
  split; [done|]. rewrite <- !(replace_char_id " " "+") by done.
  split; [by intros [= -> ->]|]. by intros [-> ->].
Qed.

End credentials_lemmas.
