(* ===== verification/Messages.v ===== *)
(** * Messages: the conversation and the [add_messages] reducer

    The data the graph state holds ([MessagesState]: one key, ["messages"],
    a list of messages) and the reducer that merges a node's update into it.
    [src/app.py] builds messages with [AIMessage], [HumanMessage] and
    [SystemMessage], builds one tool call as a dictionary, reads
    [last_message.tool_calls], [last_message.id], [last_msg.content], and
    overwrites [response.id]; those are the operations of this file.  The
    arguments of a tool call are a dictionary from names to texts: the
    program builds the empty one and reads the text under ["query"].

    The reducer itself is library code ([langgraph.graph.message.add_messages],
    which [MessagesState] annotates its key with); it is modelled here because
    [check_query] relies on it: a message of the update whose identifier is
    already in the state replaces the stored one in place, any other message
    is appended.  [RemoveMessage] is left out: the program never builds one.
    A fresh identifier ([uuid.uuid4()]) is [IdUuid n] for a counter [n] that
    the state carries, so two fresh identifiers never collide, and none
    collides with an identifier chosen by the generation service ([IdStr]). *)

From stdpp Require Import base list strings gmap.
From S2P Require Import Prelude.

(** ** Data *)

(** A message identifier: given by the generation service, or a fresh uuid. *)
Inductive MsgId : Type :=
| IdStr (s : string)
| IdUuid (n : nat).

#[export] Instance MsgId_eq_dec : EqDecision MsgId.
Proof. solve_decision. Defined.

Definition MsgId_to_sum (i : MsgId) : string + nat :=
  match i with IdStr s => inl s | IdUuid n => inr n end.
Definition MsgId_of_sum (x : string + nat) : MsgId :=
  match x with inl s => IdStr s | inr n => IdUuid n end.

Lemma MsgId_of_to_sum i : MsgId_of_sum (MsgId_to_sum i) = i.
Proof. by destruct i. Qed.

#[export] Instance MsgId_countable : Countable MsgId :=
  inj_countable' MsgId_to_sum MsgId_of_sum MsgId_of_to_sum.

(** A tool call: [{"name": ..., "args": {...}, "id": ..., "type": "tool_call"}].
    The arguments are a dictionary from argument names to strings. *)
Record ToolCall : Type := mkToolCall {
  tc_name : string;
  tc_args : gmap string string;
  tc_id : string;
}.

#[export] Instance ToolCall_eq_dec : EqDecision ToolCall.
Proof. solve_decision. Defined.

(** The four message classes the program meets.  Only an [AIMessage] has the
    attribute [tool_calls]; a [ToolMessage] answers the tool call whose
    identifier it carries. *)
Inductive Message : Type :=
| SystemMessage (content : string) (id : option MsgId)
| HumanMessage (content : string) (id : option MsgId)
| AIMessage (content : string) (tool_calls : list ToolCall) (id : option MsgId)
| ToolMessage (content : string) (name : string) (tool_call_id : string)
    (id : option MsgId).

#[export] Instance Message_eq_dec : EqDecision Message.
Proof. solve_decision. Defined.

(** [m.content] *)
Definition content (m : Message) : string :=
  match m with
  | SystemMessage c _ | HumanMessage c _ | AIMessage c _ _
  | ToolMessage c _ _ _ => c
  end.

(** [m.id] *)
Definition msg_id (m : Message) : option MsgId :=
  match m with
  | SystemMessage _ i | HumanMessage _ i | AIMessage _ _ i
  | ToolMessage _ _ _ i => i
  end.

(** [m.id = i] *)
Definition set_id (i : option MsgId) (m : Message) : Message :=
  match m with
  | SystemMessage c _ => SystemMessage c i
  | HumanMessage c _ => HumanMessage c i
  | AIMessage c tcs _ => AIMessage c tcs i
  | ToolMessage c n t _ => ToolMessage c n t i
  end.

(** [isinstance(m, AIMessage)] *)
Definition is_AIMessage (m : Message) : bool :=
  match m with AIMessage _ _ _ => true | _ => false end.

(** [getattr(m, "tool_calls", None)]: the attribute, where the class has it. *)
Definition get_tool_calls (m : Message) : option (list ToolCall) :=
  match m with AIMessage _ tcs _ => Some tcs | _ => None end.

(** [hasattr(m, 'tool_calls') and m.tool_calls], as a condition: the message
    has the attribute and the list is not empty. *)
Definition has_tool_calls (m : Message) : bool :=
  match get_tool_calls m with
  | Some (_ :: _) => true
  | _ => false
  end.

(** [MessagesState]: the state of the graph, a dictionary with the one key
    ["messages"].  A node returns an update, the messages to merge into it. *)
Record MessagesState : Type := mkState {
  messages : list Message;
}.

Definition Update : Type := list Message.

(** ** The reducer *)

(** [if m.id is None: m.id = str(uuid.uuid4())] *)
Definition assign_id (m : Message) (next : nat) : Message * nat :=
  match msg_id m with
  | Some _ => (m, next)
  | None => (set_id (Some (IdUuid next)) m, S next)
  end.

Fixpoint assign_ids (ms : list Message) (next : nat) : list Message * nat :=
  match ms with
  | [] => ([], next)
  | m :: ms' =>
      let '(m1, n1) := assign_id m next in
      let '(ms1, n2) := assign_ids ms' n1 in
      (m1 :: ms1, n2)
  end.

(** [{k: i for i, k in enumerate(ks, start)}] added to [d]: a later
    occurrence of a key overrides an earlier one. *)
Fixpoint index_keys (start : nat) (ks : list (option MsgId))
    (d : gmap (option MsgId) nat) : gmap (option MsgId) nat :=
  match ks with
  | [] => d
  | k :: ks' => index_keys (S start) ks' (<[k := start]> d)
  end.

(** [merged_by_id = {m.id: i for i, m in enumerate(merged)}] *)
Definition index_by_id (ms : list Message) : gmap (option MsgId) nat :=
  index_keys 0 (msg_id <$> ms) ∅.

(** One turn of the loop [for m in right]: replace the stored message with
    the same identifier, or append and record the new index. *)
Definition merge_one (st : list Message * gmap (option MsgId) nat)
    (m : Message) : list Message * gmap (option MsgId) nat :=
  match st.2 !! msg_id m with
  | Some i => (<[i := m]> st.1, st.2)
  | None => (st.1 ++ [m], <[msg_id m := length st.1]> st.2)
  end.

(** [add_messages(left, right)], with the uuid counter threaded through. *)
Definition add_messages (left right : list Message) (next : nat)
    : list Message * nat :=
  let '(left1, n1) := assign_ids left next in
  let '(right1, n2) := assign_ids right n1 in
  ((foldl merge_one (left1, index_by_id left1) right1).1, n2).

(** *** Reference definition: scan the list instead of keeping a dictionary *)

(** The last index at which key [k] occurs. *)
Fixpoint last_index_of (k : option MsgId) (ks : list (option MsgId))
    : option nat :=
  match ks with
  | [] => None
  | k' :: ks' =>
      match last_index_of k ks' with
      | Some i => Some (S i)
      | None => if decide (k' = k) then Some 0 else None
      end
  end.

Definition merge_ref (merged : list Message) (m : Message) : list Message :=
  match last_index_of (msg_id m) (msg_id <$> merged) with
  | Some i => <[i := m]> merged
  | None => merged ++ [m]
  end.

(** ** Well-formed conversations *)

(** Every stored message has an identifier, the identifiers are pairwise
    distinct, and every uuid in use is below the counter. *)
Record wf_messages (ms : list Message) (next : nat) : Prop := {
  wf_ids : Forall (λ m, is_Some (msg_id m)) ms;
  wf_nodup : NoDup (msg_id <$> ms);
  wf_fresh : ∀ n, Some (IdUuid n) ∈ msg_id <$> ms → n < next;
}.

(** The loop invariant of the merge: the dictionary maps an identifier to
    the last index at which the list holds it. *)
Definition dict_ok (st : list Message * gmap (option MsgId) nat) : Prop :=
  ∀ k, st.2 !! k = last_index_of k (msg_id <$> st.1).

(** A uuid carried by a message was handed out before [next]. *)
Definition uuid_below (next : nat) (m : Message) : Prop :=
  ∀ k, msg_id m = Some (IdUuid k) → k < next.

(** ** Accessors *)

Lemma msg_id_set_id i m : msg_id (set_id i m) = i.
Proof. by destruct m. Qed.

Lemma content_set_id i m : content (set_id i m) = content m.
Proof. by destruct m. Qed.

Lemma set_id_msg_id m : set_id (msg_id m) m = m.
Proof. by destruct m. Qed.

Lemma get_tool_calls_set_id i m : get_tool_calls (set_id i m) = get_tool_calls m.
Proof. by destruct m. Qed.

Lemma assign_id_Some m next i :
  msg_id m = Some i → assign_id m next = (m, next).
Proof. unfold assign_id. by intros ->. Qed.

Lemma assign_id_None m next :
  msg_id m = None → assign_id m next = (set_id (Some (IdUuid next)) m, S next).
Proof. unfold assign_id. by intros ->. Qed.

Lemma assign_ids_cons m ms next :
  assign_ids (m :: ms) next =
  ((assign_id m next).1 :: (assign_ids ms (assign_id m next).2).1,
   (assign_ids ms (assign_id m next).2).2).
Proof. simpl. destruct (assign_id m next), (assign_ids ms _). done. Qed.

Lemma assign_ids_fixed ms next :
  Forall (λ m, is_Some (msg_id m)) ms → assign_ids ms next = (ms, next).
Proof.
  induction 1 as [|m ms [i Hi] _ IH]; [done|].
  rewrite assign_ids_cons, (assign_id_Some _ _ i Hi). simpl. by rewrite IH.
Qed.

Lemma assign_ids_length ms next : length (assign_ids ms next).1 = length ms.
Proof.
  revert next. induction ms as [|m ms IH]; intros next; [done|].
  rewrite assign_ids_cons. simpl. by rewrite IH.
Qed.

Lemma assign_id_is_Some m next : is_Some (msg_id (assign_id m next).1).
Proof.
  unfold assign_id. destruct (msg_id m) eqn:E; simpl; [by rewrite E|].
  by rewrite msg_id_set_id.
Qed.

Lemma assign_ids_is_Some ms next :
  Forall (λ m, is_Some (msg_id m)) (assign_ids ms next).1.
Proof.
  revert next. induction ms as [|m ms IH]; intros next; [by constructor|].
  rewrite assign_ids_cons. constructor; [apply assign_id_is_Some|apply IH].
Qed.

Lemma assign_id_mono m next : next ≤ (assign_id m next).2.
Proof. unfold assign_id. destruct (msg_id m); simpl; lia. Qed.

Lemma assign_ids_mono ms next : next ≤ (assign_ids ms next).2.
Proof.
  revert next. induction ms as [|m ms IH]; intros next; [done|].
  rewrite assign_ids_cons. simpl. specialize (IH (assign_id m next).2).
  pose proof (assign_id_mono m next). lia.
Qed.

(** ** The dictionary agrees with a scan of the list *)
Lemma last_index_of_lt k ks i : last_index_of k ks = Some i → ks !! i = Some k.
Proof.
  revert i. induction ks as [|k' ks IH]; intros i; [done|]. simpl.
  destruct (last_index_of k ks) as [j|].
  - intros [= <-]. by apply IH.
  - case_decide as E; [|done]. intros [= <-]. by rewrite E.
Qed.

Lemma last_index_of_None k ks : last_index_of k ks = None ↔ k ∉ ks.
Proof.
  induction ks as [|k' ks IH]; simpl.
  - split; [intros _; apply not_elem_of_nil|done].
  - rewrite not_elem_of_cons. destruct (last_index_of k ks) as [j|].
    + split; [done|]. intros [_ H]. by apply IH in H.
    + case_decide; split;
        [done|intros [? _]; congruence|intros _; split; [congruence|by apply IH]|done].
Qed.

Lemma last_index_of_app k ks k' :
  last_index_of k (ks ++ [k']) =
  if decide (k' = k) then Some (length ks) else last_index_of k ks.
Proof.
  induction ks as [|k0 ks IH]; simpl.
  - by case_decide.
  - rewrite IH. case_decide; [done|]. done.
Qed.

Lemma index_keys_lookup start ks d k :
  index_keys start ks d !! k =
  match last_index_of k ks with
  | Some i => Some (start + i)
  | None => d !! k
  end.
Proof.
  revert start d. induction ks as [|k' ks IH]; intros start d; [done|].
  simpl. rewrite IH. destruct (last_index_of k ks) as [i|].
  - f_equal. lia.
  - case_decide as E.
    + subst. rewrite lookup_insert_eq. f_equal. lia.
    + by rewrite lookup_insert_ne.
Qed.

Lemma index_by_id_lookup ms k :
  index_by_id ms !! k = last_index_of k (msg_id <$> ms).
Proof.
  unfold index_by_id. rewrite index_keys_lookup.
  by destruct (last_index_of _ _).
Qed.

Lemma fmap_insert_same_id (ms : list Message) i m :
  (msg_id <$> ms) !! i = Some (msg_id m) →
  msg_id <$> <[i := m]> ms = msg_id <$> ms.
Proof. intros H. by rewrite list_fmap_insert, list_insert_id. Qed.


Lemma dict_ok_init ms : dict_ok (ms, index_by_id ms).
Proof. intros k. apply index_by_id_lookup. Qed.

Lemma merge_one_ref st m :
  dict_ok st → (merge_one st m).1 = merge_ref st.1 m ∧ dict_ok (merge_one st m).
Proof.
  intros Hd. unfold merge_one, merge_ref. rewrite Hd.
  destruct (last_index_of _ _) as [i|] eqn:E; simpl; (split; [done|]); intros k; simpl.
  - rewrite fmap_insert_same_id; [apply Hd|by apply last_index_of_lt].
  - rewrite fmap_app. simpl. rewrite last_index_of_app, length_fmap.
    case_decide as E'.
    + subst. by rewrite lookup_insert_eq.
    + rewrite lookup_insert_ne; [apply Hd|done].
Qed.

Lemma foldl_merge_one_ref st ms :
  dict_ok st → (foldl merge_one st ms).1 = foldl merge_ref st.1 ms.
Proof.
  revert st. induction ms as [|m ms IH]; intros st Hd; [done|].
  simpl. destruct (merge_one_ref st m Hd) as [E Hd']. by rewrite IH, E.
Qed.

(** The dictionary-based loop computes what the list scan computes. *)
Lemma add_messages_unfold left right next :
  add_messages left right next =
  (foldl merge_ref (assign_ids left next).1
     (assign_ids right (assign_ids left next).2).1,
   (assign_ids right (assign_ids left next).2).2).
Proof.
  unfold add_messages. destruct (assign_ids left next) as [l1 n1]. simpl.
  destruct (assign_ids right n1) as [r1 n2]. simpl.
  f_equal. apply (foldl_merge_one_ref (l1, _)), dict_ok_init.
Qed.

(** ** The reducer keeps the conversation well formed *)

Lemma uuid_below_mono n n' m : n ≤ n' → uuid_below n m → uuid_below n' m.
Proof. intros ? H k Hk. specialize (H k Hk). lia. Qed.

Lemma assign_id_below m next :
  uuid_below next m → uuid_below (assign_id m next).2 (assign_id m next).1.
Proof.
  unfold assign_id. destruct (msg_id m) eqn:E; simpl; [done|].
  intros _ k. rewrite msg_id_set_id. intros [= <-]. lia.
Qed.

Lemma assign_ids_below ms next :
  Forall (uuid_below next) ms →
  Forall (uuid_below (assign_ids ms next).2) (assign_ids ms next).1.
Proof.
  revert next. induction ms as [|m ms IH]; intros next H; [by constructor|].
  apply Forall_cons in H as [Hm Hms]. rewrite assign_ids_cons. simpl.
  pose proof (assign_id_mono m next). constructor.
  - eapply uuid_below_mono; [apply assign_ids_mono|by apply assign_id_below].
  - apply IH. eapply Forall_impl; [done|]. intros ?. by apply uuid_below_mono.
Qed.

Lemma wf_messages_mono ms n n' : n ≤ n' → wf_messages ms n → wf_messages ms n'.
Proof.
  intros ? [H1 H2 H3]. split; [done..|]. intros k Hk. specialize (H3 k Hk). lia.
Qed.

Lemma wf_messages_nil n : wf_messages [] n.
Proof. split; [constructor|constructor|]. by intros ? ?%elem_of_nil. Qed.

Lemma wf_messages_below ms next :
  wf_messages ms next → Forall (uuid_below next) ms.
Proof.
  intros [_ _ H]. apply Forall_forall. intros m Hm k Hk. apply H.
  rewrite <- Hk. by apply list_elem_of_fmap_2.
Qed.

Lemma merge_ref_in ms m i :
  last_index_of (msg_id m) (msg_id <$> ms) = Some i →
  merge_ref ms m = <[i := m]> ms ∧ msg_id <$> merge_ref ms m = msg_id <$> ms.
Proof.
  intros H. unfold merge_ref. rewrite H. split; [done|].
  by apply fmap_insert_same_id, last_index_of_lt.
Qed.

Lemma merge_ref_notin ms m :
  msg_id m ∉ msg_id <$> ms → merge_ref ms m = ms ++ [m].
Proof. intros H%last_index_of_None. unfold merge_ref. by rewrite H. Qed.

Lemma merge_ref_wf ms m next :
  wf_messages ms next → is_Some (msg_id m) → uuid_below next m →
  wf_messages (merge_ref ms m) next.
Proof.
  intros [H1 H2 H3] Hm Hb.
  destruct (last_index_of (msg_id m) (msg_id <$> ms)) as [i|] eqn:E.
  - destruct (merge_ref_in _ _ _ E) as [E1 E2]. split; rewrite ?E2; [|done..].
    rewrite E1. by apply Forall_insert.
  - apply last_index_of_None in E. rewrite merge_ref_notin by done.
    split; rewrite ?fmap_app; simpl.
    + apply Forall_app. by repeat constructor.
    + apply NoDup_app. split_and!; [done| |apply NoDup_singleton].
      intros k Hk ->%list_elem_of_singleton. done.
    + intros k [Hk|Hk%list_elem_of_singleton]%elem_of_app; [by apply H3|].
      by apply Hb.
Qed.

Lemma foldl_merge_ref_wf ms right next :
  wf_messages ms next →
  Forall (λ m, is_Some (msg_id m)) right → Forall (uuid_below next) right →
  wf_messages (foldl merge_ref ms right) next.
Proof.
  revert ms. induction right as [|m right IH]; intros ms Hwf Hs Hb; [done|].
  apply Forall_cons in Hs as [? ?]. apply Forall_cons in Hb as [? ?].
  simpl. apply IH; [by apply merge_ref_wf|done..].
Qed.

(** [add_messages] keeps a conversation well formed. *)
Lemma add_messages_wf left right next :
  wf_messages left next → Forall (uuid_below next) right →
  wf_messages (add_messages left right next).1 (add_messages left right next).2.
Proof.
  intros Hwf Hb. rewrite add_messages_unfold. simpl.
  rewrite (assign_ids_fixed left) by apply Hwf. simpl.
  apply foldl_merge_ref_wf.
  - eapply wf_messages_mono; [apply assign_ids_mono|done].
  - apply assign_ids_is_Some.
  - by apply assign_ids_below.
Qed.

(** ** The reducer by shape of the update *)
Lemma add_messages_nil left next :
  Forall (λ m, is_Some (msg_id m)) left → add_messages left [] next = (left, next).
Proof. intros H. rewrite add_messages_unfold, (assign_ids_fixed left) by done. done. Qed.

Lemma add_messages_one left m next :
  Forall (λ m, is_Some (msg_id m)) left →
  add_messages left [m] next =
  (merge_ref left (assign_id m next).1, (assign_id m next).2).
Proof.
  intros H. rewrite add_messages_unfold, (assign_ids_fixed left) by done.
  simpl. by destruct (assign_id m next).
Qed.

Lemma fresh_uuid_notin ms next n :
  wf_messages ms next → next ≤ n → Some (IdUuid n) ∉ msg_id <$> ms.
Proof. intros [_ _ H] ? Hin. specialize (H n Hin). lia. Qed.

(** A message without identifier is appended under a fresh uuid. *)
Lemma add_messages_one_None left m next :
  wf_messages left next → msg_id m = None →
  add_messages left [m] next = (left ++ [set_id (Some (IdUuid next)) m], S next).
Proof.
  intros Hwf Hm. rewrite add_messages_one by apply Hwf.
  rewrite (assign_id_None _ _ Hm). simpl. rewrite merge_ref_notin; [done|].
  rewrite msg_id_set_id. by eapply fresh_uuid_notin.
Qed.

(** A message whose identifier is not in the state is appended as it is. *)
Lemma add_messages_one_new left m next i :
  wf_messages left next → msg_id m = Some i → Some i ∉ msg_id <$> left →
  add_messages left [m] next = (left ++ [m], next).
Proof.
  intros Hwf Hm Hi. rewrite add_messages_one by apply Hwf.
  rewrite (assign_id_Some _ _ _ Hm). simpl. rewrite merge_ref_notin; [done|].
  by rewrite Hm.
Qed.

(** A message that carries the identifier of the last stored message takes
    its place: the conversation keeps its length. *)
Lemma add_messages_one_last l x m next :
  Forall (λ m, is_Some (msg_id m)) (l ++ [x]) → msg_id m = msg_id x →
  add_messages (l ++ [x]) [m] next = (l ++ [m], next).
Proof.
  intros Hs Hm. rewrite add_messages_one by done.
  assert (is_Some (msg_id m)) as [i Hi].
  { rewrite Hm. apply Forall_app in Hs as [_ Hx]. by inversion Hx. }
  rewrite (assign_id_Some _ _ _ Hi). simpl. unfold merge_ref.
  rewrite fmap_app. simpl. rewrite last_index_of_app, decide_True by done.
  rewrite length_fmap. f_equal.
  rewrite insert_app_r_alt, Nat.sub_diag by done. done.
Qed.

(** An update of messages without identifiers is appended, each under the
    next fresh uuid. *)
Lemma foldl_merge_ref_app ms right :
  NoDup (msg_id <$> ms ++ right) → foldl merge_ref ms right = ms ++ right.
Proof.
  revert ms. induction right as [|m right IH]; intros ms Hnd; [by rewrite app_nil_r|].
  simpl. rewrite merge_ref_notin.
  - rewrite IH; rewrite <- app_assoc; done.
  - rewrite fmap_app in Hnd. apply NoDup_app in Hnd as (_ & Hd & _).
    intros Hin. apply (Hd _ Hin). simpl. apply elem_of_cons. by left.
Qed.

Lemma assign_ids_all_None ms next :
  Forall (λ m, msg_id m = None) ms →
  msg_id <$> (assign_ids ms next).1 = (λ k, Some (IdUuid k)) <$> seq next (length ms)
  ∧ (assign_ids ms next).2 = next + length ms.
Proof.
  revert next. induction ms as [|m ms IH]; intros next H; [simpl; split; [done|lia]|].
  apply Forall_cons in H as [Hm Hms]. rewrite assign_ids_cons, (assign_id_None _ _ Hm).
  cbn [fst snd]. rewrite fmap_cons, msg_id_set_id.
  destruct (IH (S next) Hms) as [-> ->]. split; [done|simpl; lia].
Qed.

Lemma add_messages_all_None left right next :
  wf_messages left next → Forall (λ m, msg_id m = None) right →
  add_messages left right next =
  (left ++ (assign_ids right next).1, next + length right).
Proof.
  intros Hwf Hn. rewrite add_messages_unfold, (assign_ids_fixed left) by apply Hwf.
  simpl. destruct (assign_ids_all_None right next Hn) as [Eids ->]. f_equal.
  apply foldl_merge_ref_app. rewrite fmap_app, Eids. apply NoDup_app. split_and!.
  - apply Hwf.
  - intros k Hk (n & -> & Hn')%list_elem_of_fmap. apply elem_of_seq in Hn'.
    eapply fresh_uuid_notin; [done| |done]. lia.
  - apply NoDup_fmap_2; [intros ?? [=]; done|apply NoDup_seq].
Qed.

(** ** What the reducer promises *)

(** A merge neither drops nor reorders what the list holds. *)
Lemma merge_ref_ids ms m : msg_id <$> ms `prefix_of` msg_id <$> merge_ref ms m.
Proof.
  destruct (last_index_of (msg_id m) (msg_id <$> ms)) as [i|] eqn:E.
  - by destruct (merge_ref_in _ _ _ E) as [_ ->].
  - apply last_index_of_None in E. rewrite merge_ref_notin, fmap_app by done.
    by apply prefix_app_r.
Qed.

Lemma foldl_merge_ref_ids ms right :
  msg_id <$> ms `prefix_of` msg_id <$> foldl merge_ref ms right.
Proof.
  revert ms. induction right as [|m right IH]; intros ms; [done|].
  simpl. etrans; [apply merge_ref_ids|apply IH].
Qed.

Lemma merge_ref_length ms m : length (merge_ref ms m) ≤ S (length ms).
Proof.
  unfold merge_ref. destruct (last_index_of _ _).
  - rewrite length_insert. lia.
  - rewrite length_app. simpl. lia.
Qed.

Lemma foldl_merge_ref_length ms right :
  length (foldl merge_ref ms right) ≤ length ms + length right.
Proof.
  revert ms. induction right as [|m right IH]; intros ms; simpl; [lia|].
  etrans; [apply IH|]. pose proof (merge_ref_length ms m). lia.
Qed.

(** C5: the reducer, which keeps a dictionary from identifiers to indices,
    computes what the reference computes by scanning the list: it gives the
    messages without identifier a fresh one, left before right, then merges the
    right messages one by one.  The merged conversation starts with the
    identifiers of the left one, in their order, and is at most longer by the
    length of the update. *)
Theorem add_messages_refines left right next :
  let l := assign_ids left next in
  let r := assign_ids right l.2 in
  add_messages left right next = (foldl merge_ref l.1 r.1, r.2)
  ∧ msg_id <$> l.1 `prefix_of` msg_id <$> (add_messages left right next).1
  ∧ length (add_messages left right next).1 ≤ length left + length right.
Proof.
  intros l r. rewrite add_messages_unfold. fold l r. simpl.
  split_and!; [done|apply foldl_merge_ref_ids|].
  etrans; [apply foldl_merge_ref_length|].
  unfold r, l. by rewrite !assign_ids_length.
Qed.

(** C2: the reducer keeps a conversation well formed when the update
    carries no uuid that was not handed out: afterwards every message has an
    identifier, the identifiers are pairwise distinct, the uuids in use are
    below the counter, the counter has not gone back, and the identifiers the
    conversation had are still there, in their order. *)
Theorem add_messages_keeps_wf left right next :
  wf_messages left next → Forall (uuid_below next) right →
  let r := add_messages left right next in
  wf_messages r.1 r.2 ∧ next ≤ r.2 ∧ msg_id <$> left `prefix_of` msg_id <$> r.1.
Proof.
  intros Hwf Hb r. split; [by apply add_messages_wf|]. unfold r.
  rewrite add_messages_unfold, (assign_ids_fixed left) by apply Hwf. simpl.
  split; [apply assign_ids_mono|apply foldl_merge_ref_ids].
Qed.

#[export] Hint Rewrite msg_id_set_id content_set_id get_tool_calls_set_id : agent.
#[export] Hint Resolve wf_messages_nil add_messages_wf wf_messages_below : agent.
