(* ===== verification/Collab.v ===== *)
(** * Collaborators: the generation service, the database, the environment

    [src/app.py] talks to two external parties: the chat model [llm]
    (lines 84-88; [llm.invoke] and [llm.bind_tools(...).invoke]) and the
    database [db] (line 89; [db.dialect], [db.get_usable_table_names],
    [db.get_table_info_no_throw], and, through the toolkit's query tool,
    [db.run_no_throw]); the client of the first is made with [ChatGroq(...)]
    and the second is opened with [SQLDatabase.from_uri].  Each is an
    interface here, a type class over an abstract world [W] that a call may
    read and change; a call returns a value or raises.  The two [no_throw]
    calls of the database return the text of the errors they catch (a
    missing table, an error of SQLAlchemy) and raise what they do not catch.
    The theorems of the later files hold for every instance, and [Scenarios]
    gives instances that compute.

    The environment [Env] a computation runs in holds the world, the counter
    of fresh message identifiers, and a ghost trace of the collaborator calls
    made and the nodes started so far, which the theorems use to say what
    reached a collaborator and in which order. *)

From stdpp Require Import base list strings gmap.
From S2P Require Import Prelude Messages.

(** ** The generation service *)

(** What a chat model returns: always an [AIMessage], with the identifier
    the service gave the run, if any. *)
Record Response : Type := mkResponse {
  resp_content : string;
  resp_tool_calls : list ToolCall;
  resp_id : option string;
}.

Definition response_message (r : Response) : Message :=
  AIMessage (resp_content r) (resp_tool_calls r) (IdStr <$> resp_id r).

(** [llm.bind_tools(tools).invoke(messages)]: [tools] are the names of the
    bound tools, [[]] for a plain [llm.invoke(messages)].  The call may raise. *)
Class Generation (W : Type) : Type := {
  llm_invoke : list string → list Message → W → (Exn + Response) * W;
}.

(** ** The database *)

Class Database (W : Type) : Type := {
  (** [db.dialect] *)
  dialect : string;
  (** [db.get_usable_table_names()]: read when the connection is made *)
  get_usable_table_names : list string;
  (** [db.get_table_info_no_throw(tables)]: the schema text, or the text of
      the [ValueError] it catches; any other exception leaves it *)
  get_table_info_no_throw : list string → W → (Exn + string) * W;
  (** [db.run_no_throw(query)]: the rows as text, or the text of the
      [SQLAlchemyError] it catches; any other exception leaves it *)
  run_no_throw : string → W → (Exn + string) * W;
}.

(** The two objects the script makes from the settings.  Making either may
    raise. *)
Class Connector (W : Type) : Type := {
  (** [ChatGroq(groq_api_key=..., model=..., temperature=...)] (lines
      84-88): the client of the generation service; nothing is sent *)
  ChatGroq : string → string → nat → W → (Exn + ()) * W;
  (** [SQLDatabase.from_uri(url)] (line 89): the database is opened and its
      tables are read *)
  from_uri : string → W → (Exn + ()) * W;
}.

(** ** The environment *)

(** The names the builder gives the nodes, and the two ends of the graph. *)
Inductive NodeName : Type :=
| START
| n_list_tables
| n_call_get_schema
| n_get_schema
| n_generate_query
| n_check_query
| n_run_query
| END.

#[export] Instance NodeName_eq_dec : EqDecision NodeName.
Proof. solve_decision. Defined.

(** A call that reached a collaborator, or the start of a node of the graph. *)
Inductive Event : Type :=
| EvInvoke (tools : list string) (messages : list Message)
| EvTableInfo (tables : list string)
| EvRun (query : string)
| EvConnect (url : string)
| EvNode (n : NodeName).

#[export] Instance Event_eq_dec : EqDecision Event.
Proof. solve_decision. Defined.

Definition is_EvInvoke (e : Event) : bool :=
  match e with EvInvoke _ _ => true | _ => false end.

Definition is_EvRun (e : Event) : bool :=
  match e with EvRun _ => true | _ => false end.

Record Env (W : Type) : Type := mkEnv {
  world : W;
  trace : list Event;
  next_uuid : nat;
}.
Arguments mkEnv {W} _ _ _.
Arguments world {W} _.
Arguments trace {W} _.
Arguments next_uuid {W} _.

Section calls.
Context {W : Type} `{!Generation W, !Database W}.

(** Run a collaborator call on the world and record it. *)
Definition call {A} (ev : Event) (f : W → A * W) : M (Env W) A :=
  λ s, let '(a, w) := f (world s) in
       (inr a, mkEnv w (trace s ++ [ev]) (next_uuid s)).

(** [llm.bind_tools(tools).invoke(messages)] as a computation that raises
    what the service raises. *)
Definition invoke (tools : list string) (messages : list Message)
    : M (Env W) Message :=
  let* r := call (EvInvoke tools messages) (llm_invoke tools messages) in
  lift (sum_map id response_message r).

Definition table_info (tables : list string) : M (Env W) string :=
  let* r := call (EvTableInfo tables) (get_table_info_no_throw tables) in
  lift r.

Definition run_sql (query : string) : M (Env W) string :=
  let* r := call (EvRun query) (run_no_throw query) in
  lift r.

(** The nodes that ran, in order. *)
Definition nodes_run (t : list Event) : list NodeName :=
  omap (λ e, match e with EvNode n => Some n | _ => None end) t.

(** From [s] to [s'] the uuid counter is unchanged and the trace has grown
    by collaborator calls only (no node was started). *)
Definition extends (s s' : Env W) : Prop :=
  next_uuid s' = next_uuid s ∧ ∃ t, trace s' = trace s ++ t ∧ nodes_run t = [].

(** The events recorded between [s] and [s']. *)
Definition new_events (s s' : Env W) : list Event :=
  drop (length (trace s)) (trace s').

(** The queries that reached the database, in order. *)
Definition queries_run (t : list Event) : list string :=
  omap (λ e, match e with EvRun q => Some q | _ => None end) t.

(** The number of calls of the generation service. *)
Definition invocations (t : list Event) : nat :=
  length (filter (λ e, is_EvInvoke e = true) t).

End calls.

(** ** Lemmas *)

Section calls_lemmas.
Context {W : Type} `{!Generation W, !Database W}.
Implicit Types (s : Env W) (t : list Event).

Lemma response_message_is_AI r : is_AIMessage (response_message r) = true.
Proof. done. Qed.

Lemma response_message_uuid_below r n : uuid_below n (response_message r).
Proof. intros k. simpl. by destruct (resp_id r). Qed.

Lemma call_spec {A} ev (f : W → A * W) s :
  call ev f s = (inr (f (world s)).1,
                 mkEnv (f (world s)).2 (trace s ++ [ev]) (next_uuid s)).
Proof. unfold call. by destruct (f (world s)). Qed.

(** A call of the generation service adds one event to the trace, keeps the
    uuid counter, and returns an [AIMessage] or raises. *)
Lemma invoke_spec tools messages s :
  invoke tools messages s =
  (sum_map id response_message (llm_invoke tools messages (world s)).1,
   mkEnv (llm_invoke tools messages (world s)).2
     (trace s ++ [EvInvoke tools messages]) (next_uuid s)).
Proof.
  unfold invoke, bind. rewrite call_spec. simpl.
  by destruct (llm_invoke tools messages (world s)) as [[?|?] ?].
Qed.

(** A call that may raise, after [call]. *)
Lemma call_lift_spec {A} ev (f : W → (Exn + A) * W) s :
  (let* r := call ev f in lift r) s =
  ((f (world s)).1, mkEnv (f (world s)).2 (trace s ++ [ev]) (next_uuid s)).
Proof. unfold bind. by rewrite call_spec. Qed.

Lemma table_info_spec tables s :
  table_info tables s =
  ((get_table_info_no_throw tables (world s)).1,
   mkEnv (get_table_info_no_throw tables (world s)).2
     (trace s ++ [EvTableInfo tables]) (next_uuid s)).
Proof. apply call_lift_spec. Qed.

Lemma run_sql_spec query s :
  run_sql query s =
  ((run_no_throw query (world s)).1,
   mkEnv (run_no_throw query (world s)).2
     (trace s ++ [EvRun query]) (next_uuid s)).
Proof. apply call_lift_spec. Qed.

Lemma extends_refl s : extends s s.
Proof. split; [done|]. exists []. by rewrite app_nil_r. Qed.

Lemma extends_trans s1 s2 s3 : extends s1 s2 → extends s2 s3 → extends s1 s3.
Proof.
  intros [E1 (t1 & H1 & N1)] [E2 (t2 & H2 & N2)]. split; [congruence|].
  exists (t1 ++ t2). split; [by rewrite H2, H1, app_assoc|].
  unfold nodes_run in *. by rewrite omap_app, N1, N2.
Qed.

(** Extending by given events, none of which starts a node. *)
Lemma extends_events s w t :
  nodes_run t = [] → extends s (mkEnv w (trace s ++ t) (next_uuid s)).
Proof. intros Ht. split; [done|]. by exists t. Qed.

Lemma call_extends {A} ev (f : W → A * W) s :
  nodes_run [ev] = [] → extends s (call ev f s).2.
Proof. intros Hev. rewrite call_spec. by apply extends_events. Qed.

Lemma invoke_extends tools messages s : extends s (invoke tools messages s).2.
Proof. rewrite invoke_spec. by apply extends_events. Qed.

Lemma table_info_extends tables s : extends s (table_info tables s).2.
Proof. rewrite table_info_spec. by apply extends_events. Qed.

Lemma run_sql_extends query s : extends s (run_sql query s).2.
Proof. rewrite run_sql_spec. by apply extends_events. Qed.

Lemma extends_nodes_run s s' : extends s s' → nodes_run (new_events s s') = [].
Proof. intros [_ (t & Ht & Hn)]. unfold new_events. by rewrite Ht, drop_app_length. Qed.

Lemma new_events_app s w t n : new_events s (mkEnv w (trace s ++ t) n) = t.
Proof. unfold new_events. simpl. by rewrite drop_app_length. Qed.

Lemma new_events_refl s : new_events s s = [].
Proof. unfold new_events. by rewrite drop_all. Qed.

Lemma queries_run_app t1 t2 : queries_run (t1 ++ t2) = queries_run t1 ++ queries_run t2.
Proof. apply omap_app. Qed.

Lemma nodes_run_app t1 t2 : nodes_run (t1 ++ t2) = nodes_run t1 ++ nodes_run t2.
Proof. apply omap_app. Qed.

Lemma invocations_app t1 t2 : invocations (t1 ++ t2) = invocations t1 + invocations t2.
Proof. unfold invocations. by rewrite filter_app, length_app. Qed.

End calls_lemmas.

#[export] Hint Rewrite @invoke_spec @table_info_spec @run_sql_spec : agent.
#[export] Hint Rewrite @new_events_app @new_events_refl : agent.
#[export] Hint Rewrite @queries_run_app @nodes_run_app @invocations_app : agent.
#[export] Hint Resolve response_message_uuid_below extends_refl extends_events invoke_extends : agent.
