(* ===== verification/Toolkit.v ===== *)
(** * The toolkit's tools and the tool node

    [SQLDatabaseToolkit(db=db, llm=llm).get_tools()] (lines 90-91 of
    [src/app.py]) gives the tools the graph uses by name:
    [sql_db_list_tables], [sql_db_schema] and [sql_db_query]; the program
    picks them with [next(tool for tool in tools if tool.name == ...)] and
    wraps two of them in a [ToolNode] (lines 94-97).  The tools and
    [ToolNode] are library code: they are modelled from what they do for
    this program.  [next_tool] is the [next(...)] of the script: it raises
    [StopIteration] when no tool has the name; the three tools the script
    picks are in the toolkit, so each is the value [found] takes out of its
    lookup.  A tool runs on the arguments of a tool call and gives a text or
    raises: a missing argument is a validation error of the tool's input
    schema ([tool_input]), and the two tools that reach the database raise
    what [db.get_table_info_no_throw] and [db.run_no_throw] do not catch.
    [tool.invoke(tool_call)] wraps the text in a [ToolMessage] that carries
    the call's identifier.  A [ToolNode] runs every tool call of the latest
    [AIMessage] of the state; a call that names an unknown tool, or whose
    tool raises [e], becomes a [ToolMessage] with an error text, which holds
    [repr(e)] ([tool_error_text]).  The arguments of a tool call are texts.

    The toolkit's fourth tool, [sql_db_query_checker], is left out: no node
    of the graph holds it. *)

From Stdlib Require Import Ascii.
From stdpp Require Import base list strings gmap.
From S2P Require Import Prelude Messages Collab.

Section toolkit.
Context {W : Type} `{!Generation W, !Database W}.

(** A tool: its name and what it runs on the arguments of a call. *)
Record Tool : Type := mkTool {
  tool_name : string;
  tool_run : gmap string string → M (Env W) string;
}.

(** [args[key]], a [KeyError] when the argument is missing. *)
Definition arg (args : gmap string string) (key : string) : Exn + string :=
  match args !! key with
  | Some v => inr v
  | None => inl (KeyError key)
  end.

(** The argument [key] of a tool whose input schema is [model]: the schema
    rejects an input without it. *)
Definition tool_input (model : string) (args : gmap string string) (key : string)
    : Exn + string :=
  match args !! key with
  | Some v => inr v
  | None => inl (ValidationError model key)
  end.

(** [", ".join(db.get_usable_table_names())] *)
Definition sql_db_list_tables : Tool :=
  mkTool "sql_db_list_tables"
    (λ _, ret (String.concat ", " get_usable_table_names)).

(** [db.get_table_info_no_throw([t.strip() for t in table_names.split(",")])] *)
Definition sql_db_schema : Tool :=
  mkTool "sql_db_schema"
    (λ args,
       let* table_names :=
         lift (tool_input "_InfoSQLDatabaseToolInput" args "table_names") in
       table_info (strip <$> split_on ","%char table_names)).

(** [db.run_no_throw(query)] *)
Definition sql_db_query : Tool :=
  mkTool "sql_db_query"
    (λ args,
       let* query := lift (tool_input "_QuerySQLDatabaseToolInput" args "query") in
       run_sql query).

(** [tools = toolkit.get_tools()] *)
Definition tools : list Tool :=
  [sql_db_query; sql_db_schema; sql_db_list_tables].

(** [next(tool for tool in tools if tool.name == name)] *)
Definition next_tool (name : string) (ts : list Tool) : Exn + Tool :=
  match list_find (λ t, tool_name t = name) ts with
  | Some (_, t) => inr t
  | None => inl StopIteration
  end.

(** [get_schema_tool = next(tool for tool in tools if tool.name == "sql_db_schema")] *)
Definition get_schema_tool : Tool := found (next_tool "sql_db_schema" tools) I.

(** [run_query_tool = next(tool for tool in tools if tool.name == "sql_db_query")] *)
Definition run_query_tool : Tool := found (next_tool "sql_db_query" tools) I.

(** [list_tables_tool = next(tool for tool in tools if tool.name == "sql_db_list_tables")] *)
Definition list_tables_tool : Tool := found (next_tool "sql_db_list_tables" tools) I.

(** [tool.invoke(tool_call)]: the tool's text as the answer to the call. *)
Definition tool_invoke (t : Tool) (tc : ToolCall) : M (Env W) Message :=
  let* text := tool_run t (tc_args tc) in
  ret (ToolMessage text (tool_name t) (tc_id tc) None).

(** The text a [ToolNode] answers with when the tool raised:
    ["Error: {repr(e)}\n Please fix your mistakes."] *)
Definition tool_error_text (e : Exn) : string :=
  "Error: " +:+ repr_exn e +:+ "
 Please fix your mistakes.".

(** The text of the answer to a call whose tool returned or raised [r]. *)
Definition tool_text (r : Exn + string) : string :=
  match r with
  | inr text => text
  | inl e => tool_error_text e
  end.

(** The text a [ToolNode] answers with when the call names no tool of the node. *)
Definition invalid_tool_text (name : string) (ts : list Tool) : string :=
  "Error: " +:+ name +:+ " is not a valid tool, try one of [" +:+
  String.concat ", " (tool_name <$> ts) +:+ "].".

(** One tool call, as a [ToolNode] runs it: errors become messages. *)
Definition run_tool_call (ts : list Tool) (tc : ToolCall) : M (Env W) Message :=
  match next_tool (tc_name tc) ts with
  | inr t =>
      try_except (tool_invoke t tc)
        (λ e, ret (ToolMessage (tool_error_text e) (tc_name tc) (tc_id tc) None))
  | inl _ =>
      ret (ToolMessage (invalid_tool_text (tc_name tc) ts) (tc_name tc)
             (tc_id tc) None)
  end.

(** Run the calls in order. *)
Fixpoint run_tool_calls (ts : list Tool) (tcs : list ToolCall)
    : M (Env W) (list Message) :=
  match tcs with
  | [] => ret []
  | tc :: tcs' =>
      let* m := run_tool_call ts tc in
      let* ms := run_tool_calls ts tcs' in
      ret (m :: ms)
  end.

(** [m] is the answer to the call [tc]: a tool message, without identifier
    yet, that carries the identifier of the call. *)
Definition is_tool_answer (tc : ToolCall) (m : Message) : Prop :=
  ∃ text name, m = ToolMessage text name (tc_id tc) None.

(** The latest [AIMessage] of a conversation. *)
Definition latest_ai_message (ms : list Message) : option Message :=
  snd <$> list_find (λ m, is_AIMessage m = true) (reverse ms).

(** [ToolNode(ts)] as a node: the update it returns for the state. *)
Definition ToolNode (ts : list Tool) (state : MessagesState)
    : M (Env W) Update :=
  match latest_ai_message (messages state) with
  | Some (AIMessage _ tcs _) => run_tool_calls ts tcs
  | _ => throw (ValueError "No AIMessage found in input")
  end.

(** [get_schema_node = ToolNode([get_schema_tool], name="get_schema")] *)
Definition get_schema_node : MessagesState → M (Env W) Update :=
  ToolNode [get_schema_tool].

(** [run_query_node = ToolNode([run_query_tool], name="run_query")] *)
Definition run_query_node : MessagesState → M (Env W) Update :=
  ToolNode [run_query_tool].

End toolkit.

(** ** Lemmas *)

(** Run a tool node on a state whose latest assistant message is known
    ([Hl]) and whose call names a known tool ([Hn]). *)
Ltac tool_node_run Hl Hn :=
  unfold run_query_node, get_schema_node, ToolNode; rewrite Hl; simpl;
  unfold run_tool_call, bind; rewrite Hn; simpl;
  unfold try_except, tool_invoke, bind; simpl; unfold bind.

Section toolkit_lemmas.
Context {W : Type} `{!Generation W, !Database W}.
Implicit Types (state : MessagesState) (s : Env W) (m : Message) (tc : ToolCall).

(** The tools are found under their names. *)
Lemma next_tool_tools :
  next_tool "sql_db_schema" tools = inr get_schema_tool
  ∧ next_tool "sql_db_query" tools = inr run_query_tool
  ∧ next_tool "sql_db_list_tables" tools = inr list_tables_tool.
Proof. done. Qed.

(** The tools of the two tool nodes are tools of the toolkit. *)
Lemma node_tools_subseteq :
  [get_schema_tool] ⊆ tools ∧ [run_query_tool] ⊆ tools.
Proof. split; intros t ->%list_elem_of_singleton; unfold tools; set_solver. Qed.

Lemma tool_run_total (t : Tool) args s :
  t ∈ tools → extends s (tool_run t args s).2.
Proof.
  unfold tools. rewrite !elem_of_cons, elem_of_nil.
  intros [->|[->|[->|[]]]]; simpl; unfold bind; rewrite ?lift_spec.
  - destruct (tool_input _ args "query"); [apply extends_refl|apply run_sql_extends].
  - destruct (tool_input _ args "table_names"); [apply extends_refl|apply table_info_extends].
  - apply extends_refl.
Qed.

Lemma tool_invoke_spec (t : Tool) tc s :
  t ∈ tools →
  extends s (tool_invoke t tc s).2 ∧
  match (tool_invoke t tc s).1 with
  | inr m => is_tool_answer tc m
  | inl _ => True
  end.
Proof.
  intros Ht. unfold tool_invoke, bind. pose proof (tool_run_total t (tc_args tc) s Ht).
  destruct (tool_run t (tc_args tc) s) as [[e|text] s']; simpl; [done|].
  split; [done|]. by eexists _, _.
Qed.

(** One tool call never raises and answers the call it was given. *)
Lemma run_tool_call_spec (ts : list Tool) tc s :
  ts ⊆ tools →
  ∃ m, (run_tool_call ts tc s).1 = inr m ∧ is_tool_answer tc m
       ∧ extends s (run_tool_call ts tc s).2.
Proof.
  intros Hts. unfold run_tool_call, next_tool.
  destruct (list_find _ ts) as [[i t]|] eqn:E; simpl.
  - apply list_find_Some in E as (Hi%list_elem_of_lookup_2 & _).
    destruct (tool_invoke_spec t tc s) as [Hx Hm]; [by apply Hts|].
    unfold try_except. destruct (tool_invoke t tc s) as [[e|m] s']; simpl in *.
    + eexists. split_and!; [done|by eexists _, _|done].
    + by exists m.
  - eexists. split_and!; [done|by eexists _, _|apply extends_refl].
Qed.

Lemma run_tool_calls_spec (ts : list Tool) tcs s :
  ts ⊆ tools →
  ∃ ms, (run_tool_calls ts tcs s).1 = inr ms ∧ Forall2 is_tool_answer tcs ms
        ∧ extends s (run_tool_calls ts tcs s).2.
Proof.
  intros Hts. revert s. induction tcs as [|tc tcs IH]; intros s.
  - exists []. split_and!; [done|constructor|apply extends_refl].
  - simpl. unfold bind.
    destruct (run_tool_call_spec ts tc s Hts) as (m & Em & Hm & Hx).
    destruct (run_tool_call ts tc s) as [r s1]. simpl in *. subst r.
    destruct (IH s1) as (ms & Ems & Hms & Hx').
    destruct (run_tool_calls ts tcs s1) as [r s2]. simpl in *. subst r.
    exists (m :: ms). split_and!; [done|by constructor|by eapply extends_trans].
Qed.

Lemma latest_ai_message_last ms m :
  is_AIMessage m = true → latest_ai_message (ms ++ [m]) = Some m.
Proof.
  intros Hm. unfold latest_ai_message. rewrite reverse_snoc. simpl.
  by rewrite decide_True.
Qed.

(** A tool node raises only when the conversation holds no [AIMessage];
    otherwise it answers every call of the latest one, in order. *)
Lemma ToolNode_spec (ts : list Tool) state s :
  ts ⊆ tools →
  match latest_ai_message (messages state) with
  | Some (AIMessage _ tcs _) =>
      ∃ ms, (ToolNode ts state s).1 = inr ms ∧ Forall2 is_tool_answer tcs ms
            ∧ extends s (ToolNode ts state s).2
  | _ => ToolNode ts state s = (inl (ValueError "No AIMessage found in input"), s)
  end.
Proof.
  intros Hts. unfold ToolNode.
  destruct (latest_ai_message _) as [[]|]; try done. by apply run_tool_calls_spec.
Qed.

Lemma arg_Some args key v : args !! key = Some v → arg args key = inr v.
Proof. unfold arg. by intros ->. Qed.

Lemma arg_None args key : args !! key = None → arg args key = inl (KeyError key).
Proof. unfold arg. by intros ->. Qed.

Lemma tool_input_Some model args key v :
  args !! key = Some v → tool_input model args key = inr v.
Proof. unfold tool_input. by intros ->. Qed.

Lemma tool_input_None model args key :
  args !! key = None → tool_input model args key = inl (ValidationError model key).
Proof. unfold tool_input. by intros ->. Qed.

(** C3: whatever query the latest assistant message asks [sql_db_query] to
    run, the query node hands it to the database unchanged: the text is not
    inspected, so a mutating statement is run like any other. *)
Theorem run_query_node_runs_any_query state s c tc i q :
  latest_ai_message (messages state) = Some (AIMessage c [tc] i) →
  tc_name tc = "sql_db_query" →
  tc_args tc !! "query" = Some q →
  run_query_node state s =
  (inr [ToolMessage (tool_text (run_no_throw q (world s)).1) "sql_db_query" (tc_id tc) None],
   mkEnv (run_no_throw q (world s)).2 (trace s ++ [EvRun q]) (next_uuid s)).
Proof.
  intros Hl Hn Hq. tool_node_run Hl Hn.
  rewrite (tool_input_Some _ _ _ _ Hq), lift_spec, run_sql_spec.
  by destruct (run_no_throw q (world s)) as [[e|text] w].
Qed.

(** The schema node asks the database for the tables named in the call,
    split at commas and stripped. *)
Lemma get_schema_node_single state s c tc i names :
  latest_ai_message (messages state) = Some (AIMessage c [tc] i) →
  tc_name tc = "sql_db_schema" →
  tc_args tc !! "table_names" = Some names →
  get_schema_node state s =
  let tables := strip <$> split_on ","%char names in
  (inr [ToolMessage (tool_text (get_table_info_no_throw tables (world s)).1)
          "sql_db_schema" (tc_id tc) None],
   mkEnv (get_table_info_no_throw tables (world s)).2
     (trace s ++ [EvTableInfo tables]) (next_uuid s)).
Proof.
  intros Hl Hn Hq. tool_node_run Hl Hn.
  rewrite (tool_input_Some _ _ _ _ Hq), lift_spec, table_info_spec.
  by destruct (get_table_info_no_throw _ (world s)) as [[e|text] w].
Qed.

(** C31: the schema node reads back what [list_tables] writes: for a call
    whose [table_names] argument is a list of names joined with a comma and a
    space, the database is asked for exactly these names, in that order,
    provided no name holds a comma or begins or ends with white space. *)
Theorem get_schema_node_joined_names state s c tc i names :
  latest_ai_message (messages state) = Some (AIMessage c [tc] i) →
  tc_name tc = "sql_db_schema" →
  tc_args tc !! "table_names" = Some (String.concat ", " names) →
  names ≠ [] → Forall clean_name names →
  get_schema_node state s =
  (inr [ToolMessage (tool_text (get_table_info_no_throw names (world s)).1)
          "sql_db_schema" (tc_id tc) None],
   mkEnv (get_table_info_no_throw names (world s)).2
     (trace s ++ [EvTableInfo names]) (next_uuid s)).
Proof.
  intros Hl Hn Hq Hne Hc. rewrite (get_schema_node_single state s c tc i _ Hl Hn Hq).
  cbn zeta. by rewrite strip_split_concat.
Qed.

(** A call without the argument the tool needs is answered with an error
    text, and nothing reaches the database. *)
Lemma run_query_node_missing_arg state s c tc i :
  latest_ai_message (messages state) = Some (AIMessage c [tc] i) →
  tc_name tc = "sql_db_query" →
  tc_args tc !! "query" = None →
  run_query_node state s =
  (inr [ToolMessage (tool_error_text (ValidationError "_QuerySQLDatabaseToolInput" "query"))
          "sql_db_query" (tc_id tc) None], s).
Proof.
  intros Hl Hn Hq. tool_node_run Hl Hn.
  by rewrite (tool_input_None _ _ _ Hq), lift_spec.
Qed.

(** A call that names another tool is answered with an error text too. *)
Lemma run_query_node_other_tool state s c tc i :
  latest_ai_message (messages state) = Some (AIMessage c [tc] i) →
  tc_name tc ≠ "sql_db_query" →
  run_query_node state s =
  (inr [ToolMessage (invalid_tool_text (tc_name tc) [run_query_tool]) (tc_name tc)
          (tc_id tc) None], s).
Proof.
  intros Hl Hn. unfold run_query_node, ToolNode. rewrite Hl. simpl.
  unfold run_tool_call, bind, next_tool. simpl. rewrite decide_False by done. done.
Qed.
End toolkit_lemmas.
