(* ===== verification/Nodes.v ===== *)
(** * The nodes of the graph

    One definition per node function of [src/app.py] (lines 99-195):
    [list_tables], [call_get_schema], [generate_query], [check_query], the
    router [should_continue], and the two system prompts.  A node takes the
    state and returns the update to merge into it; a [try: ... except
    Exception as e: ...] of the source is a [try_except] here, with the
    handler the source has.  What a handler raises leaves the node: the
    handler of [call_get_schema] reads the schema from the database, and the
    handler of [generate_query] calls the generation service again.

    The theorems give each node's result on each of its branches and what it
    asked of the collaborators. *)

From stdpp Require Import base list strings gmap.
From S2P Require Import Prelude Messages Collab Toolkit.

Section nodes.
Context {W : Type} `{!Generation W, !Database W}.

(** ** [list_tables] *)

Definition list_tables (state : MessagesState) : M (Env W) Update :=
  let tool_call := mkToolCall "sql_db_list_tables" ∅ "abc123" in
  let tool_call_message := AIMessage "" [tool_call] None in
  let* list_tables_tool := lift (next_tool "sql_db_list_tables" tools) in
  let* tool_message := tool_invoke list_tables_tool tool_call in
  let response :=
    AIMessage ("Available tables: " +:+ content tool_message) [] None in
  ret [tool_call_message; tool_message; response].

(** ** [call_get_schema] *)

Definition call_get_schema (state : MessagesState) : M (Env W) Update :=
  try_except
    (let* response := invoke [tool_name get_schema_tool] (messages state) in
     ret [response])
    (λ e,
       let tables := take 3 get_usable_table_names in
       let* schema_info := table_info tables in
       ret [AIMessage ("Schema information: " +:+ schema_info) [] None]).

(** ** [generate_query] *)

Definition generate_query_system_prompt : string :=
  "
            You are an agent designed to interact with a SQL database.
            Given an input question, create a syntactically correct " +:+ dialect +:+ " query to run,
            then look at the results of the query and return the answer. Unless the user
            specifies a specific number of examples they wish to obtain, always limit your
            query to at most 5 results.

            You can order the results by a relevant column to return the most interesting
            examples in the database. Never query for all the columns from a specific table,
            only ask for the relevant columns given the question.

            where ever possible return the available data in tabular format.

            DO NOT make any DML statements (INSERT, UPDATE, DELETE, DROP etc.) to the database.
            ".

Definition generate_query (state : MessagesState) : M (Env W) Update :=
  try_except
    (let system_message := SystemMessage generate_query_system_prompt None in
     let* response :=
       invoke [tool_name run_query_tool] (system_message :: messages state) in
     ret [response])
    (λ e,
       let system_message :=
         SystemMessage (generate_query_system_prompt +:+ "

Please provide the SQL query directly in your response.") None in
       let* response := invoke [] (system_message :: messages state) in
       ret [response]).

(** ** [check_query] *)

Definition check_query_system_prompt : string :=
  "
            You are a SQL expert with a strong attention to detail.
            Double check the " +:+ dialect +:+ " query for common mistakes, including:
            - Using NOT IN with NULL values
            - Using UNION when UNION ALL should have been used
            - Using BETWEEN for exclusive ranges
            - Data type mismatch in predicates
            - Properly quoting identifiers
            - Using the correct number of arguments for functions
            - Casting to the correct data type
            - Using the proper columns for joins

            If there are any of the above mistakes, rewrite the query. If there are no mistakes,
            just reproduce the original query.

            You will call the appropriate tool to execute the query after running this check.
            ".

(** [last_message.tool_calls[0]], reached only when the list is not empty. *)
Definition first_tool_call (m : Message) : Exn + ToolCall :=
  match get_tool_calls m with
  | Some (tc :: _) => inr tc
  | _ => inl (IndexError "list index out of range")
  end.

Definition check_query (state : MessagesState) : M (Env W) Update :=
  try_except
    (let system_message := SystemMessage check_query_system_prompt None in
     let* last_message := lift (last_item (messages state)) in
     if has_tool_calls last_message then
       let* tool_call := lift (first_tool_call last_message) in
       let* query := lift (arg (tc_args tool_call) "query") in
       let user_message := HumanMessage query None in
       let* response :=
         invoke [tool_name run_query_tool] [system_message; user_message] in
       ret [set_id (msg_id last_message) response]
     else
       ret [last_message])
    (λ e, ret [AIMessage ("Error in query checking: " +:+ str_exn e) [] None]).

(** ** [should_continue] *)

Definition should_continue (state : MessagesState) : Exn + NodeName :=
  match last_item (messages state) with
  | inr last_message =>
      if has_tool_calls last_message then inr n_check_query else inr END
  | inl e => inl e
  end.

(** The text [list_tables] reports: the usable tables, joined. *)
Definition tables_text : string := String.concat ", " get_usable_table_names.

(** The message [check_query] returns from its [except] branch. *)
Definition check_error (e : Exn) : Message :=
  AIMessage ("Error in query checking: " +:+ str_exn e) [] None.

(** The schema requests of a trace ask for at most [k] tables each, the
    first ones of the usable tables. *)
Definition schema_requests_within (k : nat) (t : list Event) : Prop :=
  Forall (λ e, match e with
               | EvTableInfo ts => length ts ≤ k ∧ ts `prefix_of` get_usable_table_names
               | _ => True
               end) t.

End nodes.

(** ** What each node does, branch by branch *)

(** The update of [check_query] is its error notice. *)
Ltac error_case := eexists; split; [|left; eexists].

Section nodes_lemmas.
Context {W : Type} `{!Generation W, !Database W}.
Implicit Types (state : MessagesState) (s : Env W) (m : Message).

Lemma list_tables_spec state s :
  list_tables state s =
  (inr [AIMessage "" [mkToolCall "sql_db_list_tables" ∅ "abc123"] None;
        ToolMessage tables_text "sql_db_list_tables" "abc123" None;
        AIMessage ("Available tables: " +:+ tables_text) [] None], s).
Proof. done. Qed.

Lemma call_get_schema_spec state s :
  call_get_schema state s =
  let r := llm_invoke ["sql_db_schema"] (messages state) (world s) in
  let ev := EvInvoke ["sql_db_schema"] (messages state) in
  match r.1 with
  | inr resp =>
      (inr [response_message resp], mkEnv r.2 (trace s ++ [ev]) (next_uuid s))
  | inl _ =>
      let tables := take 3 get_usable_table_names in
      let i := get_table_info_no_throw tables r.2 in
      (sum_map id (λ info, [AIMessage ("Schema information: " +:+ info) [] None]) i.1,
       mkEnv i.2 (trace s ++ [ev; EvTableInfo tables]) (next_uuid s))
  end.
Proof.
  unfold call_get_schema, try_except, bind. rewrite invoke_spec. simpl.
  destruct (llm_invoke _ _ _) as [[e|resp] w1]; simpl; [|done].
  rewrite table_info_spec. simpl. rewrite <- app_assoc.
  by destruct (get_table_info_no_throw _ _) as [[?|?] ?].
Qed.

Lemma generate_query_spec state s :
  generate_query state s =
  let ms1 := SystemMessage generate_query_system_prompt None :: messages state in
  let r1 := llm_invoke ["sql_db_query"] ms1 (world s) in
  let ev1 := EvInvoke ["sql_db_query"] ms1 in
  match r1.1 with
  | inr resp =>
      (inr [response_message resp], mkEnv r1.2 (trace s ++ [ev1]) (next_uuid s))
  | inl _ =>
      let ms2 := SystemMessage (generate_query_system_prompt +:+ "

Please provide the SQL query directly in your response.") None :: messages state in
      let r2 := llm_invoke [] ms2 r1.2 in
      (sum_map id (λ resp, [response_message resp]) r2.1,
       mkEnv r2.2 (trace s ++ [ev1; EvInvoke [] ms2]) (next_uuid s))
  end.
Proof.
  unfold generate_query, try_except, bind. rewrite invoke_spec. simpl.
  destruct (llm_invoke _ _ _) as [[e|resp] w1]; simpl; [|done].
  rewrite invoke_spec. simpl. rewrite <- app_assoc.
  by destruct (llm_invoke _ _ _) as [[?|?] ?].
Qed.


Lemma check_query_spec state s :
  check_query state s =
  match last_item (messages state) with
  | inl e => (inr [check_error e], s)
  | inr last =>
      if has_tool_calls last then
        match first_tool_call last with
        | inl e => (inr [check_error e], s)
        | inr tc =>
            match arg (tc_args tc) "query" with
            | inl e => (inr [check_error e], s)
            | inr q =>
                let ms := [SystemMessage check_query_system_prompt None;
                           HumanMessage q None] in
                let r := llm_invoke ["sql_db_query"] ms (world s) in
                let s' := mkEnv r.2 (trace s ++ [EvInvoke ["sql_db_query"] ms])
                            (next_uuid s) in
                match r.1 with
                | inl e => (inr [check_error e], s')
                | inr resp => (inr [set_id (msg_id last) (response_message resp)], s')
                end
            end
        end
      else (inr [last], s)
  end.
Proof.
  unfold check_query, try_except, bind. rewrite lift_spec.
  destruct (last_item _) as [e|last]; [done|].
  destruct (has_tool_calls last); [|done]. rewrite lift_spec.
  destruct (first_tool_call last) as [e|tc]; [done|]. rewrite lift_spec.
  destruct (arg _ _) as [e|q]; [done|]. rewrite invoke_spec. simpl.
  by destruct (llm_invoke _ _ _) as [[?|?] ?].
Qed.




(** C37: [list_tables] reaches no collaborator (the environment is unchanged, so
    the generation service is not called), and the tool message of its update
    holds the name of every usable table. *)
Theorem list_tables_lists_every_table state s :
  ∃ tool_call_message tool_message response,
    list_tables state s = (inr [tool_call_message; tool_message; response], s)
    ∧ Forall (λ t, contains t (content tool_message) = true) get_usable_table_names
    ∧ contains "Available tables:" (content response) = true.
Proof.
  rewrite list_tables_spec. eexists _, _, _. split_and!; [done| |done].
  apply Forall_forall. intros t Ht. by apply contains_concat.
Qed.

(** C32: [call_get_schema] calls the generation service exactly once and
    returns one assistant message, the response or the fallback text; it
    raises only when the service raised and the schema read of the fallback
    raises too, and then with the exception of the schema read: the
    [except] branch is not guarded. *)
Theorem call_get_schema_outcome state s :
  let r := llm_invoke ["sql_db_schema"] (messages state) (world s) in
  let i := get_table_info_no_throw (take 3 get_usable_table_names) r.2 in
  invocations (new_events s (call_get_schema state s).2) = 1
  ∧ match (call_get_schema state s).1 with
    | inr upd => ∃ m, upd = [m] ∧ is_AIMessage m = true
                      ∧ (raised r.1 → ∃ info, i.1 = inr info
                                      ∧ m = AIMessage ("Schema information: " +:+ info) [] None)
    | inl e => raised r.1 ∧ i.1 = inl e
    end.
Proof.
  rewrite call_get_schema_spec. simpl.
  destruct (llm_invoke _ _ _) as [[e|resp] w1]; simpl.
  - destruct (get_table_info_no_throw _ _) as [[e'|info] w2]; simpl;
      rewrite new_events_app; (split; [done|]); [done|].
    eexists. split_and!; [done..|]. by eexists.
  - rewrite new_events_app. split; [done|]. eexists. by split_and!.
Qed.


(** C7: whatever the generation service does, [call_get_schema] itself
    asks the database for the schema of at most three tables, the first ones
    of the usable tables. *)
Theorem call_get_schema_fallback_bound state s :
  schema_requests_within 3 (new_events s (call_get_schema state s).2).
Proof.
  rewrite call_get_schema_spec. simpl. unfold schema_requests_within.
  destruct (llm_invoke _ _ _) as [[e|resp] w1]; simpl; rewrite new_events_app.
  - apply Forall_cons. split; [done|]. apply Forall_singleton.
    split; [rewrite length_take; lia|apply prefix_take].
  - by apply Forall_singleton.
Qed.

(** C33: [generate_query] calls the generation service once, and a second
    time exactly when the first call raised; it raises only what the second call
    raises. *)
Theorem generate_query_invocations state s :
  let r1 := llm_invoke ["sql_db_query"]
              (SystemMessage generate_query_system_prompt None :: messages state)
              (world s) in
  invocations (new_events s (generate_query state s).2) =
    (if decide (raised r1.1) then 2 else 1)
  ∧ (raised (generate_query state s).1 → raised r1.1).
Proof.
  rewrite generate_query_spec. simpl.
  by destruct (llm_invoke _ _ _) as [[e|resp] w1]; simpl; rewrite new_events_app.
Qed.

(** [check_query] never raises and returns one message: the error notice,
    or a message that carries the identifier of the last message of the
    conversation. *)
Lemma check_query_cases state s :
  ∃ m, (check_query state s).1 = inr [m]
       ∧ ((∃ e, m = check_error e)
          ∨ ∃ last, last_item (messages state) = inr last ∧ msg_id m = msg_id last).
Proof.
  rewrite check_query_spec.
  destruct (last_item _) as [e|last]; [by error_case|].
  destruct (has_tool_calls last); [|by eexists; split; [|right; eexists]].
  destruct (first_tool_call last) as [e|tc]; [by error_case|].
  destruct (arg _ _) as [e|q]; [by error_case|]. simpl.
  destruct (llm_invoke _ _ _) as [[e|resp] w1]; simpl; [by error_case|].
  eexists; split; [done|right; eexists; split; done].
Qed.

(** C35: a message without tool calls passes [check_query] unchanged, and
    the generation service is not called. *)
Theorem check_query_passthrough state s last :
  last_item (messages state) = inr last → has_tool_calls last = false →
  check_query state s = (inr [last], s).
Proof. intros Hl Hn. by rewrite check_query_spec, Hl, Hn. Qed.

(** C34: the reviewer sees the query of the first tool call and nothing
    else of the conversation. *)
Theorem check_query_reviews_query state s last tc q :
  last_item (messages state) = inr last → first_tool_call last = inr tc →
  tc_args tc !! "query" = Some q →
  new_events s (check_query state s).2 =
  [EvInvoke ["sql_db_query"]
     [SystemMessage check_query_system_prompt None; HumanMessage q None]].
Proof.
  intros Hl Htc Hq. rewrite check_query_spec, Hl.
  assert (has_tool_calls last = true) as ->.
  { unfold first_tool_call, has_tool_calls in *. by destruct (get_tool_calls last) as [[]|]. }
  rewrite Htc, (arg_Some _ _ _ Hq). simpl.
  by destruct (llm_invoke _ _ _) as [[e|resp] w1]; simpl; rewrite new_events_app.
Qed.

(** C36: [should_continue] routes to [check_query] exactly when the last
    message has tool calls, and to [END] exactly when it has none; it raises only
    on an empty conversation. *)
Theorem should_continue_routes state :
  (should_continue state = inr n_check_query ↔
     ∃ last, last_item (messages state) = inr last ∧ has_tool_calls last = true)
  ∧ (should_continue state = inr END ↔
     ∃ last, last_item (messages state) = inr last ∧ has_tool_calls last = false)
  ∧ (raised (should_continue state) ↔ messages state = []).
Proof.
  unfold should_continue, last_item.
  destruct (last (messages state)) as [m|] eqn:E.
  - destruct (has_tool_calls m) eqn:Eh; split_and!; split;
      try (by intros [=]); try (by intros (? & [= <-] & ?); congruence);
      try (by intros _; eexists); try done.
    all: intros H; rewrite H in E; done.
  - apply last_None in E. split_and!; split; try done.
    all: by intros (? & [=] & _).
Qed.

End nodes_lemmas.
