(* ===== verification/Graph.v ===== *)
(** * The graph and its stream of states

    Lines 197-214 of [src/app.py] build the workflow: six [add_node], six
    [add_edge], one [add_conditional_edges], then [compile].  The edges are
    the list [builder_edges], in the order the builder receives them, and
    [next_node] reads the successor of a node off that list.

    [agent.stream(state, stream_mode="values")] is a generator: it first
    yields the state made of the input, then, each time the consumer asks for
    the next item, runs the pending node, merges its update into the state
    with the reducer, evaluates the edge that leaves the node, and yields the
    new state; it is exhausted when the pending node is [END].  A node runs
    only when the consumer asks for the item after it.  [gen_next] is one such
    request.  The runtime stops a run that is not finished after
    [recursion_limit] nodes with an error; the generator counts the nodes it
    has run for that, and records in the trace each node it starts. *)

From stdpp Require Import base list strings gmap.
From S2P Require Import Prelude Messages Collab Toolkit Nodes.

Section graph.
Context {W : Type} `{!Generation W, !Database W}.
Implicit Types (s : Env W).

(** An edge of the builder: [add_edge(src, dst)], or
    [add_conditional_edges(src, path)]. *)
Inductive Edge : Type :=
| Direct (src dst : NodeName)
| Conditional (src : NodeName) (path : MessagesState → Exn + NodeName).

Definition edge_src (e : Edge) : NodeName :=
  match e with Direct s _ | Conditional s _ => s end.

(** [builder.add_node(name, fn)] *)
Definition node_fn (n : NodeName)
    : option (MessagesState → M (Env W) Update) :=
  match n with
  | n_list_tables => Some list_tables
  | n_call_get_schema => Some call_get_schema
  | n_get_schema => Some get_schema_node
  | n_generate_query => Some generate_query
  | n_check_query => Some check_query
  | n_run_query => Some run_query_node
  | START | END => None
  end.

(** The edges, as the builder adds them. *)
Definition builder_edges : list Edge :=
  [ Direct START n_list_tables;
    Direct n_list_tables n_call_get_schema;
    Direct n_call_get_schema n_get_schema;
    Direct n_get_schema n_generate_query;
    Conditional n_generate_query should_continue;
    Direct n_check_query n_run_query;
    Direct n_run_query n_generate_query ].

(** The node that runs after [n] in [state]: the target of the edge that
    leaves [n]; a node that no edge leaves ends the run. *)
Definition next_node (n : NodeName) (state : MessagesState) : Exn + NodeName :=
  match list_find (λ e, edge_src e = n) builder_edges with
  | Some (_, Direct _ dst) => inr dst
  | Some (_, Conditional _ path) => path state
  | None => inr END
  end.

(** [builder.nodes]: the names a function was added for, in the order of the
    [add_node]. *)
Definition builder_nodes : list NodeName :=
  [n_list_tables; n_call_get_schema; n_get_schema; n_generate_query;
   n_check_query; n_run_query].

Definition is_node (n : NodeName) : bool := bool_decide (n ∈ builder_nodes).

(** The nodes an edge may lead to.  [should_continue] has no return
    annotation and is added without a path map, so its edge may lead to
    [END] and to any node but its source. *)
Definition edge_dsts (e : Edge) : list NodeName :=
  match e with
  | Direct _ dst => [dst]
  | Conditional src _ => END :: filter (λ n, n ≠ src) builder_nodes
  end.

(** [builder.compile()] validates the graph before it builds the runtime:
    every edge starts at [START] or at a node, some edge starts at [START],
    and every edge ends at a node or at [END]. *)
Definition compile : Exn + () :=
  let sources := edge_src <$> builder_edges in
  let targets := builder_edges ≫= edge_dsts in
  if negb (forallb (λ n, is_node n || bool_decide (n = START)) sources) then
    inl (ValueError "Found edge starting at unknown node")
  else if negb (bool_decide (START ∈ sources)) then
    inl (ValueError
      "Graph must have an entrypoint: add at least one edge from START to another node")
  else if negb (forallb (λ n, is_node n || bool_decide (n = END)) targets) then
    inl (ValueError "Found edge ending at unknown node")
  else inr ().

(** Merge an update into the state with the reducer of the ["messages"] key. *)
Definition apply_update (state : MessagesState) (update : Update)
    : M (Env W) MessagesState :=
  λ s, let '(ms, n) := add_messages (messages state) update (next_uuid s) in
       (inr (mkState ms), mkEnv (world s) (trace s) n).

(** The default [recursion_limit] of a run. *)
Definition recursion_limit : nat := 25.

(** The generator: not started (it holds the input), or between two items
    (it holds the state last yielded, the node to run next, and the number
    of nodes run). *)
Inductive Gen : Type :=
| NotStarted (input : Update)
| Running (pending : NodeName) (state : MessagesState) (steps : nat).

(** [next(gen)]: the next item and the generator after it, or [None] when
    the generator is exhausted. *)
Definition gen_next (g : Gen) : M (Env W) (option (MessagesState * Gen)) :=
  match g with
  | NotStarted input =>
      let* state := apply_update (mkState []) input in
      let* pending := lift (next_node START state) in
      ret (Some (state, Running pending state 0))
  | Running pending state steps =>
      match node_fn pending with
      | None => ret None
      | Some fn =>
          if decide (recursion_limit ≤ steps) then
            throw (Error "GraphRecursionError"
                     "Recursion limit of 25 reached without hitting a stop condition.")
          else
            let* _ := modify (λ s, mkEnv (world s) (trace s ++ [EvNode pending]) (next_uuid s)) in
            let* update := fn state in
            let* state' := apply_update state update in
            let* pending' := lift (next_node pending state') in
            ret (Some (state', Running pending' state' (S steps)))
      end
  end.

(** [agent.stream(state, stream_mode="values")] *)
Definition stream (state : Update) : Gen := NotStarted state.

(** The conversation of a state is well formed for the uuid counter of [s]. *)
Definition wf_state (state : MessagesState) s : Prop := wf_messages (messages state) (next_uuid s).

(** What a node may do to the environment and put in its update: it only
    calls collaborators, and, on a well-formed conversation, any uuid in the
    update was handed out before. *)
Definition update_ok (state : MessagesState) s
    (r : (Exn + Update) * Env W) : Prop :=
  extends s r.2 ∧
  (wf_state state s →
   match r.1 with
   | inr upd => Forall (uuid_below (next_uuid s)) upd
   | inl _ => True
   end).

(** The environment once node [n] is recorded as started. *)
Definition started (n : NodeName) s : Env W := mkEnv (world s) (trace s ++ [EvNode n]) (next_uuid s).

(** What the generator holds is well formed. *)
Definition wf_gen (g : Gen) s : Prop :=
  match g with
  | NotStarted input => Forall (uuid_below (next_uuid s)) input
  | Running _ st _ => wf_state st s
  end.

(** The generators and environments the stream passes through. *)
Inductive reaches : Gen → Env W → Gen → Env W → Prop :=
| reaches_refl g s : reaches g s g s
| reaches_step g s st g1 s1 g2 s2 :
    gen_next g s = (inr (Some (st, g1)), s1) →
    reaches g1 s1 g2 s2 →
    reaches g s g2 s2.

(** The messages [list_tables] adds, numbered from [u]. *)
Definition tables_messages (u : nat) : list Message :=
  [AIMessage "" [mkToolCall "sql_db_list_tables" ∅ "abc123"] (Some (IdUuid u));
   ToolMessage tables_text "sql_db_list_tables" "abc123" (Some (IdUuid (S u)));
   AIMessage ("Available tables: " +:+ tables_text) [] (Some (IdUuid (S (S u))))].

End graph.

(** ** Lemmas *)

Section graph_lemmas.
Context {W : Type} `{!Generation W, !Database W}.
Implicit Types (state : MessagesState) (s : Env W) (m : Message) (n : NodeName).

(** The nodes of the builder are the names that have a function. *)
Lemma builder_nodes_node_fn n : n ∈ builder_nodes ↔ is_Some (node_fn n).
Proof.
  rewrite <- (bool_decide_spec (n ∈ _)), <- (bool_decide_spec (is_Some _)).
  by destruct n.
Qed.

(** The graph of the script passes the validation of [compile]. *)
Lemma compile_ok : compile = inr ().
Proof. done. Qed.

Lemma next_node_spec n state :
  next_node n state =
  match n with
  | START => inr n_list_tables
  | n_list_tables => inr n_call_get_schema
  | n_call_get_schema => inr n_get_schema
  | n_get_schema => inr n_generate_query
  | n_generate_query => should_continue state
  | n_check_query => inr n_run_query
  | n_run_query => inr n_generate_query
  | END => inr END
  end.
Proof. by destruct n. Qed.

Lemma apply_update_spec state upd s :
  apply_update state upd s =
  (inr (mkState (add_messages (messages state) upd (next_uuid s)).1),
   mkEnv (world s) (trace s) (add_messages (messages state) upd (next_uuid s)).2).
Proof. unfold apply_update. by destruct (add_messages _ _ _). Qed.

Lemma uuid_below_None k m : msg_id m = None → uuid_below k m.
Proof. intros H j. by rewrite H. Qed.

Lemma uuid_below_wf ms k m : wf_messages ms k → m ∈ ms → uuid_below k m.
Proof. intros Hwf Hm. eapply Forall_forall; [by apply wf_messages_below|done]. Qed.

Lemma tool_answers_below k tcs ms :
  Forall2 is_tool_answer tcs ms → Forall (uuid_below k) ms.
Proof.
  induction 1 as [|tc m tcs ms (text & name & ->) _ IH]; constructor; [|done].
  by apply uuid_below_None.
Qed.

Lemma update_ok_fresh state s s' (upd : Update) :
  extends s s' → Forall (λ m, msg_id m = None) upd →
  update_ok state s (inr upd, s').
Proof.
  intros Hx Hn. split; [done|]. intros _. simpl. eapply Forall_impl; [done|].
  intros m. apply uuid_below_None.
Qed.

Lemma update_ok_response state s s' resp :
  extends s s' → update_ok state s (inr [response_message resp], s').
Proof.
  intros Hx. split; [done|]. intros _.
  apply Forall_singleton, response_message_uuid_below.
Qed.

Lemma update_ok_raise state s s' e : extends s s' → update_ok state s (inl e, s').
Proof. by split. Qed.

Lemma ToolNode_update_ok (ts : list Tool) state s :
  ts ⊆ tools → update_ok state s (ToolNode ts state s).
Proof.
  intros Hts. pose proof (ToolNode_spec ts state s Hts) as H.
  destruct (latest_ai_message _) as [[]|];
    try (rewrite H; apply update_ok_raise, extends_refl).
  destruct H as (ms & Hr & Hms & Hx). split; [done|]. intros _. rewrite Hr.
  by eapply tool_answers_below.
Qed.

Lemma last_item_elem_of {A} (l : list A) x : last_item l = inr x → x ∈ l.
Proof.
  unfold last_item. destruct (last l) eqn:E; [|done]. intros [= <-].
  apply last_Some in E as [l' ->]. apply elem_of_app. right.
  by apply list_elem_of_singleton.
Qed.

Lemma list_tables_update_ok state s : update_ok state s (list_tables state s).
Proof.
  rewrite list_tables_spec. apply update_ok_fresh; [apply extends_refl|].
  by repeat constructor.
Qed.

Lemma call_get_schema_update_ok state s :
  update_ok state s (call_get_schema state s).
Proof.
  rewrite call_get_schema_spec. simpl.
  destruct (llm_invoke _ _ _) as [[e|resp] w1]; simpl.
  - destruct (get_table_info_no_throw _ _) as [[e'|info] w2]; simpl;
      [by apply update_ok_raise, extends_events|].
    apply update_ok_fresh; [by apply extends_events|by repeat constructor].
  - by apply update_ok_response, extends_events.
Qed.

Lemma generate_query_update_ok state s :
  update_ok state s (generate_query state s).
Proof.
  rewrite generate_query_spec. simpl.
  destruct (llm_invoke _ _ _) as [[e|resp] w1]; simpl;
    [|by apply update_ok_response, extends_events].
  destruct (llm_invoke _ _ _) as [[e'|resp] w2]; simpl;
    [by apply update_ok_raise, extends_events
    |by apply update_ok_response, extends_events].
Qed.

Lemma check_query_update_ok state s : update_ok state s (check_query state s).
Proof.
  rewrite check_query_spec.
  assert (∀ e s', extends s s' → update_ok state s (inr [check_error e], s'))
    as Herr by (intros; apply update_ok_fresh; [done|by repeat constructor]).
  destruct (last_item _) as [e|last] eqn:El; [apply Herr, extends_refl|].
  assert (wf_state state s → uuid_below (next_uuid s) last) as Hl.
  { intros Hwf. apply last_item_elem_of in El. by eapply uuid_below_wf. }
  destruct (has_tool_calls last);
    [|by split; [apply extends_refl|intros ?; apply Forall_singleton, Hl]].
  destruct (first_tool_call last) as [e|tc]; [apply Herr, extends_refl|].
  destruct (arg _ _) as [e|q]; [apply Herr, extends_refl|]. simpl.
  destruct (llm_invoke _ _ _) as [[e|resp] w1]; simpl;
    [by apply Herr, extends_events|].
  split; [by apply extends_events|]. intros Hwf. apply Forall_singleton.
  intros k. by apply Hl.
Qed.

(** Every node of the graph keeps to that. *)
Lemma node_update_ok n fn state s :
  node_fn n = Some fn → update_ok state s (fn state s).
Proof.
  intros Hn. destruct n; simpl in Hn; simplify_eq.
  - apply list_tables_update_ok.
  - apply call_get_schema_update_ok.
  - apply ToolNode_update_ok; apply node_tools_subseteq.
  - apply generate_query_update_ok.
  - apply check_query_update_ok.
  - apply ToolNode_update_ok; apply node_tools_subseteq.
Qed.

Lemma apply_update_wf state upd s0 s :
  wf_state state s0 → next_uuid s = next_uuid s0 →
  Forall (uuid_below (next_uuid s0)) upd →
  wf_state (mkState (add_messages (messages state) upd (next_uuid s)).1)
    (mkEnv (world s) (trace s) (add_messages (messages state) upd (next_uuid s)).2).
Proof. intros Hwf -> Hb. by apply add_messages_wf. Qed.

Lemma gen_next_start input s :
  gen_next (NotStarted input) s =
  (inr (Some (mkState (add_messages [] input (next_uuid s)).1,
              Running n_list_tables (mkState (add_messages [] input (next_uuid s)).1) 0)),
   mkEnv (world s) (trace s) (add_messages [] input (next_uuid s)).2).
Proof. unfold gen_next, bind. by rewrite apply_update_spec. Qed.

Lemma gen_next_end st k s : gen_next (Running END st k) s = (inr None, s).
Proof. done. Qed.

(** One request on a running generator, by what the node and the edge do. *)
Lemma gen_next_running n fn st k s :
  node_fn n = Some fn → k < recursion_limit →
  gen_next (Running n st k) s =
  match fn st (started n s) with
  | (inl e, s1) => (inl e, s1)
  | (inr upd, s1) =>
      let r := add_messages (messages st) upd (next_uuid s1) in
      let s2 := mkEnv (world s1) (trace s1) r.2 in
      match next_node n (mkState r.1) with
      | inl e => (inl e, s2)
      | inr n' => (inr (Some (mkState r.1, Running n' (mkState r.1) (S k))), s2)
      end
  end.
Proof.
  intros Hn Hk. unfold gen_next. rewrite Hn, decide_False by lia.
  unfold bind, modify. fold (started n s).
  destruct (fn st (started n s)) as [[e|upd] s1]; [done|].
  rewrite apply_update_spec, lift_spec. simpl. by destruct (next_node _ _).
Qed.

Lemma started_extends n s s1 :
  extends (started n s) s1 →
  next_uuid s1 = next_uuid s ∧ nodes_run (new_events s s1) = [n].
Proof.
  intros [E (t & Ht & Hn)]. split; [done|]. unfold new_events. simpl in Ht.
  by rewrite Ht, <- app_assoc, drop_app_length, (nodes_run_app [_]), Hn.
Qed.

(** The generator keeps the conversation well formed: every state it
    yields holds messages that all have an identifier, pairwise distinct, and
    the generator goes on from that state. *)
Lemma gen_next_wf g s st' g' s' :
  wf_gen g s → gen_next g s = (inr (Some (st', g')), s') →
  wf_state st' s' ∧ wf_gen g' s' ∧ ∃ n k, g' = Running n st' k.
Proof.
  intros Hwf Hg. destruct g as [input|n st k].
  - rewrite gen_next_start in Hg. simplify_eq. split_and!; [| |by eexists _, _];
      by apply (apply_update_wf (mkState []) _ s); [apply wf_messages_nil|..].
  - destruct (node_fn n) as [fn|] eqn:Hn; [|by (destruct n; simplify_eq/=)].
    destruct (decide (k < recursion_limit)) as [Hk|Hk];
      [|by unfold gen_next in Hg; rewrite Hn, decide_True in Hg by lia].
    rewrite (gen_next_running n fn) in Hg by done.
    destruct (node_update_ok n fn st (started n s) Hn) as [Hx Hupd].
    specialize (Hupd Hwf).
    destruct (fn st (started n s)) as [[e|upd] s1]; [done|]. simpl in *.
    destruct (next_node _ _) as [e|n']; simplify_eq.
    split_and!; [| |by eexists _, _];
      by apply (apply_update_wf st _ (started n s)); [|apply Hx|].
Qed.

Lemma last_item_snoc {A} (l : list A) x : last_item (l ++ [x]) = inr x.
Proof. unfold last_item. by rewrite last_snoc. Qed.

(** C19: merged into the conversation, the update of [check_query] either
    takes the place of the last message, under the same identifier, so that the
    conversation keeps its length, or is the error notice, appended under a fresh
    identifier. *)
Theorem check_query_merge st s ms last :
  messages st = ms ++ [last] → wf_state st s →
  ∃ m, (check_query st s).1 = inr [m]
    ∧ let r := add_messages (messages st) [m] (next_uuid s) in
      (msg_id m = msg_id last ∧ r = (ms ++ [m], next_uuid s))
      ∨ ((∃ e, m = check_error e)
         ∧ r = (ms ++ [last; set_id (Some (IdUuid (next_uuid s))) m],
                S (next_uuid s))).
Proof.
  intros Hms Hwf. unfold wf_state in Hwf.
  destruct (check_query_cases st s) as (m & Hm & Hor).
  exists m. split; [done|]. simpl. rewrite Hms in *.
  destruct Hor as [[e ->]|(last' & Hl & Hid)].
  - right. split; [by eexists|].
    rewrite add_messages_one_None by done. by rewrite <- app_assoc.
  - rewrite last_item_snoc in Hl. simplify_eq. left. split; [done|].
    apply add_messages_one_last; [apply Hwf|done].
Qed.

(** A step whose node returns messages without identifiers appends them,
    each under the next fresh uuid. *)
Lemma gen_next_fresh n fn st k s upd s1 :
  node_fn n = Some fn → k < recursion_limit → wf_state st s →
  fn st (started n s) = (inr upd, s1) → Forall (λ m, msg_id m = None) upd →
  gen_next (Running n st k) s =
  let st' := mkState (messages st ++ (assign_ids upd (next_uuid s)).1) in
  let s2 := mkEnv (world s1) (trace s1) (next_uuid s + length upd) in
  match next_node n st' with
  | inl e => (inl e, s2)
  | inr n' => (inr (Some (st', Running n' st' (S k))), s2)
  end.
Proof.
  intros Hn Hk Hwf Hfn Hupd. rewrite (gen_next_running n fn) by done.
  destruct (node_update_ok n fn st (started n s) Hn) as [[Hu _] _].
  rewrite Hfn in *. simpl in Hu. rewrite Hu.
  by rewrite add_messages_all_None.
Qed.

(** C6: every state the stream yields is well formed: each message has an
    identifier, the identifiers are pairwise distinct, and every uuid in use
    was handed out by the counter. *)
Theorem stream_wf g s g' s' :
  wf_gen g s → reaches g s g' s' → wf_gen g' s'.
Proof.
  intros Hwf Hr. induction Hr as [|g s st g1 s1 g2 s2 Hg _ IH]; [done|].
  apply IH. by destruct (gen_next_wf g s st g1 s1 Hwf Hg) as (_ & ? & _).
Qed.

(** The first item of the stream for a question. *)
Lemma gen_next_question question s :
  gen_next (stream [HumanMessage question None]) s =
  let st0 := mkState [HumanMessage question (Some (IdUuid (next_uuid s)))] in
  (inr (Some (st0, Running n_list_tables st0 0)),
   mkEnv (world s) (trace s) (S (next_uuid s))).
Proof.
  unfold stream. rewrite gen_next_start.
  by rewrite add_messages_one_None by (done || apply wf_messages_nil).
Qed.

Lemma gen_next_list_tables st k s :
  wf_state st s → k < recursion_limit →
  gen_next (Running n_list_tables st k) s =
  let st1 := mkState (messages st ++ tables_messages (next_uuid s)) in
  (inr (Some (st1, Running n_call_get_schema st1 (S k))),
   mkEnv (world s) (trace s ++ [EvNode n_list_tables]) (next_uuid s + 3)).
Proof.
  intros Hwf Hk.
  by rewrite (gen_next_fresh n_list_tables list_tables st k s _ (started n_list_tables s))
    by (done || by repeat constructor).
Qed.

(** The schema step when the generation service raises: the fallback text
    is appended, and the schema node is next. *)
Lemma gen_next_schema_fallback st k s e w1 info w2 :
  wf_state st s → k < recursion_limit →
  llm_invoke ["sql_db_schema"] (messages st) (world s) = (inl e, w1) →
  get_table_info_no_throw (take 3 get_usable_table_names) w1 = (inr info, w2) →
  gen_next (Running n_call_get_schema st k) s =
  let st' := mkState (messages st ++
    [AIMessage ("Schema information: " +:+ info) [] (Some (IdUuid (next_uuid s)))]) in
  (inr (Some (st', Running n_get_schema st' (S k))),
   mkEnv w2
     (trace s ++ [EvNode n_call_get_schema; EvInvoke ["sql_db_schema"] (messages st);
                  EvTableInfo (take 3 get_usable_table_names)])
     (next_uuid s + 1)).
Proof.
  intros Hwf Hk Hllm Hinfo.
  rewrite (gen_next_fresh n_call_get_schema call_get_schema st k s
             [AIMessage ("Schema information: " +:+ info) [] None]
             (mkEnv w2
                (trace s ++ [EvNode n_call_get_schema;
                             EvInvoke ["sql_db_schema"] (messages st);
                             EvTableInfo (take 3 get_usable_table_names)])
                (next_uuid s)));
    [done..| |by repeat constructor].
  rewrite call_get_schema_spec. simpl. rewrite Hllm. simpl. rewrite Hinfo. simpl.
  by rewrite <- app_assoc.
Qed.

(** The schema step when the generation service and the schema read of the
    fallback both raise: the exception of the schema read leaves the
    generator. *)
Lemma gen_next_schema_fallback_raises st k s e w1 e' w2 :
  k < recursion_limit →
  llm_invoke ["sql_db_schema"] (messages st) (world s) = (inl e, w1) →
  get_table_info_no_throw (take 3 get_usable_table_names) w1 = (inl e', w2) →
  gen_next (Running n_call_get_schema st k) s =
  (inl e',
   mkEnv w2
     (trace s ++ [EvNode n_call_get_schema; EvInvoke ["sql_db_schema"] (messages st);
                  EvTableInfo (take 3 get_usable_table_names)])
     (next_uuid s)).
Proof.
  intros Hk Hllm Hinfo. rewrite (gen_next_running n_call_get_schema call_get_schema) by done.
  rewrite call_get_schema_spec. simpl. rewrite Hllm. simpl. rewrite Hinfo. simpl.
  by rewrite <- app_assoc.
Qed.

(** The step of [check_query] when the reviewer answers: its answer takes
    the place of the draft. *)
Lemma gen_next_review st k s ms c tc tcs i q r w1 :
  wf_state st s → k < recursion_limit →
  messages st = ms ++ [AIMessage c (tc :: tcs) i] →
  tc_args tc !! "query" = Some q →
  llm_invoke ["sql_db_query"]
    [SystemMessage check_query_system_prompt None; HumanMessage q None] (world s)
    = (inr r, w1) →
  gen_next (Running n_check_query st k) s =
  let st1 := mkState (ms ++ [AIMessage (resp_content r) (resp_tool_calls r) i]) in
  (inr (Some (st1, Running n_run_query st1 (S k))),
   mkEnv w1
     (trace s ++ [EvNode n_check_query;
                  EvInvoke ["sql_db_query"]
                    [SystemMessage check_query_system_prompt None; HumanMessage q None]])
     (next_uuid s)).
Proof.
  intros Hwf Hk Hms Hq Hr.
  rewrite (gen_next_running n_check_query check_query) by done.
  rewrite check_query_spec, Hms, last_item_snoc. simpl.
  rewrite (arg_Some _ _ _ Hq). cbn zeta. simpl. rewrite Hr. simpl.
  rewrite add_messages_one_last; [|rewrite <- Hms; apply Hwf|done].
  simpl. by rewrite <- app_assoc.
Qed.

(** The step of [run_query] on a single call of the query tool. *)
Lemma gen_next_run_query st k s ms c tc i q :
  wf_state st s → k < recursion_limit →
  messages st = ms ++ [AIMessage c [tc] i] →
  tc_name tc = "sql_db_query" → tc_args tc !! "query" = Some q →
  gen_next (Running n_run_query st k) s =
  let st' := mkState (messages st ++
    [ToolMessage (tool_text (run_no_throw q (world s)).1) "sql_db_query" (tc_id tc)
       (Some (IdUuid (next_uuid s)))]) in
  (inr (Some (st', Running n_generate_query st' (S k))),
   mkEnv (run_no_throw q (world s)).2 (trace s ++ [EvNode n_run_query; EvRun q])
     (next_uuid s + 1)).
Proof.
  intros Hwf Hk Hms Hn Hq.
  rewrite (gen_next_fresh n_run_query run_query_node st k s
             [ToolMessage (tool_text (run_no_throw q (world s)).1) "sql_db_query"
                (tc_id tc) None]
             (mkEnv (run_no_throw q (world s)).2
                (trace s ++ [EvNode n_run_query; EvRun q]) (next_uuid s)));
    [done..| |by repeat constructor].
  assert (latest_ai_message (messages st) = Some (AIMessage c [tc] i)) as Hl
    by (rewrite Hms; by apply latest_ai_message_last).
  tool_node_run Hl Hn.
  rewrite (tool_input_Some _ _ _ _ Hq), lift_spec, run_sql_spec. simpl.
  rewrite <- app_assoc. by destruct (run_no_throw q (world s)) as [[e|text] w].
Qed.

(** C10: what runs is what the reviewer writes: when the reviewer answers
    the query of a draft with one call of the query tool, its message takes the
    place of the draft in the conversation, and the next step hands the
    reviewer's query to the database, whatever the draft proposed and whatever
    the reviewer changed; this is the only query the two steps run. *)
Theorem reviewed_query_is_run st k s ms c tc tcs i q r w1 tc' q' :
  wf_state st s → S k < recursion_limit →
  messages st = ms ++ [AIMessage c (tc :: tcs) i] →
  tc_args tc !! "query" = Some q →
  llm_invoke ["sql_db_query"]
    [SystemMessage check_query_system_prompt None; HumanMessage q None] (world s)
    = (inr r, w1) →
  resp_tool_calls r = [tc'] → tc_name tc' = "sql_db_query" →
  tc_args tc' !! "query" = Some q' →
  ∃ st1 s1 st2 s2,
    gen_next (Running n_check_query st k) s
      = (inr (Some (st1, Running n_run_query st1 (S k))), s1)
    ∧ gen_next (Running n_run_query st1 (S k)) s1
      = (inr (Some (st2, Running n_generate_query st2 (S (S k)))), s2)
    ∧ queries_run (new_events s s2) = [q']
    ∧ messages st2 =
      ms ++ [AIMessage (resp_content r) [tc'] i;
             ToolMessage (tool_text (run_no_throw q' w1).1) "sql_db_query" (tc_id tc')
               (Some (IdUuid (next_uuid s)))].
Proof.
  intros Hwf Hk Hms Hq Hr Htc Hn Hq'.
  pose proof (gen_next_review st k s ms c tc tcs i q r w1 Hwf) as H1.
  cbn zeta in H1. rewrite Htc in H1. specialize (H1 ltac:(lia) Hms Hq Hr).
  destruct (gen_next_wf (Running n_check_query st k) s _ _ _ Hwf H1) as (Hwf1 & _ & _).
  pose proof (gen_next_run_query _ (S k) _ ms (resp_content r) tc' i q' Hwf1 Hk eq_refl Hn Hq')
    as H2. cbn zeta in H2. simpl in H2.
  eexists _, _, _, _. split; [exact H1|]. split; [exact H2|]. split.
  - unfold new_events. simpl. rewrite <- !app_assoc, drop_app_length. done.
  - simpl. by rewrite <- app_assoc.
Qed.
End graph_lemmas.
