(* ===== verification/Trace.v ===== *)
(** * What a question asks of the collaborators, node by node

    The trace of a run is a sequence of segments, one per node that ran: the
    start of the node, then the calls the node made.  [allowed] says which
    calls a node can make ([run_query] is the only node that reaches
    [db.run_no_throw], [call_get_schema] and [get_schema] the only ones that
    ask for table information, and no node opens a database), [cost] how many
    calls of the generation service it can make, and [run_trace] is the shape
    of a trace: the list of the nodes that ran, each followed by calls it is
    allowed to make.  Every node of the graph keeps to [allowed] and [cost]
    ([node_calls_ok]), so every step of the generator adds a segment
    ([gen_next_segment]). *)

From stdpp Require Import base list strings gmap.
From S2P Require Import Prelude Messages Collab Toolkit Nodes Graph.

(** The calls a tool can make, by its name. *)
Definition tool_allowed (name : string) (e : Event) : bool :=
  match e with
  | EvRun _ => bool_decide (name = "sql_db_query")
  | EvTableInfo _ => bool_decide (name = "sql_db_schema")
  | _ => false
  end.

(** The calls a node can make. *)
Definition allowed (n : NodeName) (e : Event) : bool :=
  match n, e with
  | n_call_get_schema, (EvInvoke _ _ | EvTableInfo _) => true
  | n_get_schema, EvTableInfo _ => true
  | n_generate_query, EvInvoke _ _ => true
  | n_check_query, EvInvoke _ _ => true
  | n_run_query, EvRun _ => true
  | _, _ => false
  end.

(** The calls of the generation service a node can make. *)
Definition cost (n : NodeName) : nat :=
  match n with
  | n_call_get_schema | n_check_query => 1
  | n_generate_query => 2
  | _ => 0
  end.

Definition node_calls (n : NodeName) (calls : list Event) : Prop :=
  Forall (λ e, allowed n e = true) calls ∧ invocations calls ≤ cost n.

(** The shape of a trace: the nodes that ran, each with its calls. *)
Inductive run_trace : list NodeName → list Event → Prop :=
| run_trace_nil : run_trace [] []
| run_trace_node n ns calls t :
    node_calls n calls → run_trace ns t →
    run_trace (n :: ns) (EvNode n :: calls ++ t).

Section trace.
Context {W : Type} `{!Generation W, !Database W}.
Implicit Types (s : Env W) (t : list Event) (P : Event → bool).

(** From [s] to [s'] the trace has grown by events that satisfy [P]. *)
Definition emits P s s' : Prop :=
  ∃ t, trace s' = trace s ++ t ∧ Forall (λ e, P e = true) t.

End trace.

(** ** Lemmas *)

Section trace_lemmas.
Context {W : Type} `{!Generation W, !Database W}.
Implicit Types (state : MessagesState) (s : Env W) (t : list Event)
  (P : Event → bool) (n : NodeName).

Lemma emits_refl P s : emits P s s.
Proof. exists []. by rewrite app_nil_r. Qed.

Lemma emits_trans P s1 s2 s3 : emits P s1 s2 → emits P s2 s3 → emits P s1 s3.
Proof.
  intros (t1 & H1 & F1) (t2 & H2 & F2). exists (t1 ++ t2).
  split; [by rewrite H2, H1, app_assoc|by apply Forall_app].
Qed.

Lemma emits_events P s w t k :
  Forall (λ e, P e = true) t → emits P s (mkEnv w (trace s ++ t) k).
Proof. intros Ht. by exists t. Qed.

Lemma emits_new_events P s s' :
  emits P s s' ↔
  trace s' = trace s ++ new_events s s' ∧ Forall (λ e, P e = true) (new_events s s').
Proof.
  unfold new_events. split; [|by eexists].
  intros (t & Ht & Hf). by rewrite Ht, drop_app_length.
Qed.

(** *** Tools *)

Lemma tool_run_emits (tl : Tool) args s :
  tl ∈ tools → emits (tool_allowed (tool_name tl)) s (tool_run tl args s).2.
Proof.
  unfold tools. rewrite !elem_of_cons, elem_of_nil.
  intros [->|[->|[->|[]]]]; simpl; unfold bind; rewrite ?lift_spec.
  - destruct (tool_input _ args "query"); [apply emits_refl|].
    rewrite run_sql_spec. by apply emits_events, Forall_singleton.
  - destruct (tool_input _ args "table_names"); [apply emits_refl|].
    rewrite table_info_spec. by apply emits_events, Forall_singleton.
  - apply emits_refl.
Qed.

Lemma run_tool_call_emits (tl : Tool) tc s :
  tl ∈ tools → emits (tool_allowed (tool_name tl)) s (run_tool_call [tl] tc s).2.
Proof.
  intros Ht. unfold run_tool_call, next_tool. simpl. case_decide; [|apply emits_refl].
  simpl. unfold try_except, tool_invoke, bind.
  pose proof (tool_run_emits tl (tc_args tc) s Ht) as He.
  by destruct (tool_run tl (tc_args tc) s) as [[e|text] s'].
Qed.

Lemma run_tool_calls_emits (tl : Tool) tcs s :
  tl ∈ tools → emits (tool_allowed (tool_name tl)) s (run_tool_calls [tl] tcs s).2.
Proof.
  intros Ht. revert s. induction tcs as [|tc tcs IH]; intros s; [apply emits_refl|].
  simpl. unfold bind. pose proof (run_tool_call_emits tl tc s Ht) as H1.
  destruct (run_tool_call [tl] tc s) as [[e|m] s1]; [done|].
  specialize (IH s1). destruct (run_tool_calls [tl] tcs s1) as [[e|ms] s2];
    by eapply emits_trans.
Qed.

Lemma ToolNode_emits (tl : Tool) state s :
  tl ∈ tools → emits (tool_allowed (tool_name tl)) s (ToolNode [tl] state s).2.
Proof.
  intros Ht. unfold ToolNode.
  destruct (latest_ai_message _) as [[]|]; try apply emits_refl.
  by apply run_tool_calls_emits.
Qed.

(** *** Nodes *)

Lemma no_invocations P t :
  (∀ e, P e = true → is_EvInvoke e = false) →
  Forall (λ e, P e = true) t → invocations t = 0.
Proof.
  intros HP Ht. unfold invocations. induction Ht as [|e t He _ IH]; [done|].
  rewrite filter_cons_False; [done|]. by rewrite (HP e He).
Qed.

(** A tool node makes the calls of its tool, and none of the generation
    service. *)
Lemma ToolNode_calls n (tl : Tool) state s :
  tl ∈ tools → (∀ e, tool_allowed (tool_name tl) e = true → allowed n e = true) →
  cost n = 0 →
  ∃ calls, trace (ToolNode [tl] state s).2 = trace s ++ calls ∧ node_calls n calls.
Proof.
  intros Ht Ha Hc. destruct (ToolNode_emits tl state s Ht) as (t & Htr & Hf).
  exists t. split; [done|]. split; [by eapply Forall_impl|].
  rewrite (no_invocations (tool_allowed (tool_name tl))); [lia| |done].
  by intros [].
Qed.

Lemma node_calls_check n calls :
  forallb (allowed n) calls = true → invocations calls ≤ cost n → node_calls n calls.
Proof.
  intros Hf Hc. split; [|done]. apply Forall_forall. intros e He.
  rewrite forallb_forall in Hf. by apply Hf, list_elem_of_In.
Qed.

(** The environment has grown by the calls [calls], which node [n] may make. *)
Ltac calls_are n calls :=
  exists calls; split; [by rewrite ?app_nil_r|];
  apply (node_calls_check n calls); [done|cbv; lia].

Lemma list_tables_calls state s :
  ∃ calls, trace (list_tables state s).2 = trace s ++ calls
           ∧ node_calls n_list_tables calls.
Proof. rewrite list_tables_spec. calls_are n_list_tables (@nil Event). Qed.

Lemma call_get_schema_calls state s :
  ∃ calls, trace (call_get_schema state s).2 = trace s ++ calls
           ∧ node_calls n_call_get_schema calls.
Proof.
  rewrite call_get_schema_spec. cbn zeta. destruct (llm_invoke _ _ _).1.
  - calls_are n_call_get_schema
      [EvInvoke ["sql_db_schema"] (messages state);
       EvTableInfo (take 3 get_usable_table_names)].
  - calls_are n_call_get_schema [EvInvoke ["sql_db_schema"] (messages state)].
Qed.

Lemma generate_query_calls state s :
  ∃ calls, trace (generate_query state s).2 = trace s ++ calls
           ∧ node_calls n_generate_query calls.
Proof.
  rewrite generate_query_spec. cbn zeta.
  destruct (llm_invoke _ _ _).1; eexists; (split; [done|]);
    (apply node_calls_check; [done|cbv; lia]).
Qed.

Lemma check_query_calls state s :
  ∃ calls, trace (check_query state s).2 = trace s ++ calls
           ∧ node_calls n_check_query calls.
Proof.
  rewrite check_query_spec.
  destruct (last_item _) as [e|last]; [calls_are n_check_query (@nil Event)|].
  destruct (has_tool_calls last); [|calls_are n_check_query (@nil Event)].
  destruct (first_tool_call last) as [e|tc]; [calls_are n_check_query (@nil Event)|].
  destruct (arg _ _) as [e|q]; [calls_are n_check_query (@nil Event)|]. cbn zeta.
  destruct (llm_invoke _ _ _).1;
    calls_are n_check_query
      [EvInvoke ["sql_db_query"]
         [SystemMessage check_query_system_prompt None; HumanMessage q None]].
Qed.

(** Every node of the graph makes only the calls it is allowed, and calls
    the generation service at most [cost] times. *)
Lemma node_calls_ok n fn state s :
  node_fn n = Some fn →
  ∃ calls, trace (fn state s).2 = trace s ++ calls ∧ node_calls n calls.
Proof.
  intros Hn. destruct n; simpl in Hn; simplify_eq.
  - apply list_tables_calls.
  - apply call_get_schema_calls.
  - apply (ToolNode_calls n_get_schema get_schema_tool);
      [by apply (proj1 node_tools_subseteq), list_elem_of_singleton
      |by intros []|done].
  - apply generate_query_calls.
  - apply check_query_calls.
  - apply (ToolNode_calls n_run_query run_query_tool);
      [by apply (proj2 node_tools_subseteq), list_elem_of_singleton
      |by intros []|done].
Qed.

(** A step of the generator that runs a node adds the segment of that node
    to the trace. *)
Lemma gen_next_segment n fn state k s :
  node_fn n = Some fn → k < recursion_limit →
  ∃ calls, trace (gen_next (Running n state k) s).2 = trace s ++ EvNode n :: calls
           ∧ node_calls n calls.
Proof.
  intros Hn Hk. rewrite (gen_next_running n fn) by done.
  destruct (node_calls_ok n fn state (started n s) Hn) as (calls & Ht & Hc).
  exists calls. split; [|done]. simpl in Ht. rewrite <- app_assoc in Ht.
  destruct (fn state (started n s)) as [[e|upd] s1]; [done|]. cbn zeta.
  by destruct (next_node _ _).
Qed.

(** *** Traces *)

Lemma run_trace_nodes_run ns t : run_trace ns t → nodes_run t = ns.
Proof.
  induction 1 as [|n ns calls t [Hc _] _ IH]; [done|].
  simpl. rewrite nodes_run_app, IH. f_equal.
  unfold nodes_run. induction Hc as [|e calls He _ IHc]; [done|].
  simpl. destruct e; try done. by destruct n.
Qed.

Lemma run_trace_app ns1 t1 ns2 t2 :
  run_trace ns1 t1 → run_trace ns2 t2 → run_trace (ns1 ++ ns2) (t1 ++ t2).
Proof.
  induction 1 as [|n ns calls t Hc _ IH]; intros H2; [done|].
  simpl. rewrite <- app_assoc. constructor; [done|by apply IH].
Qed.

(** The calls of the generation service in a trace are bounded by the cost
    of the nodes that ran. *)
Lemma run_trace_invocations ns t :
  run_trace ns t → invocations t ≤ sum_list (cost <$> ns).
Proof.
  induction 1 as [|n ns calls t [_ Hc] _ IH]; [done|].
  change (EvNode n :: calls ++ t) with ([EvNode n] ++ calls ++ t).
  rewrite !invocations_app, fmap_cons. change (invocations [EvNode n]) with 0.
  simpl. lia.
Qed.

(** A query reaches the database only in a segment of [run_query], table
    information is asked for only in a segment of [call_get_schema] or
    [get_schema], and no database is opened. *)
Lemma run_trace_events ns t e :
  run_trace ns t → e ∈ t →
  match e with
  | EvRun _ => n_run_query ∈ ns
  | EvTableInfo _ => n_call_get_schema ∈ ns ∨ n_get_schema ∈ ns
  | EvInvoke _ _ =>
      n_call_get_schema ∈ ns ∨ n_generate_query ∈ ns ∨ n_check_query ∈ ns
  | EvConnect _ => False
  | EvNode n => n ∈ ns
  end.
Proof.
  induction 1 as [|n ns calls t [Hc _] _ IH]; [by intros ?%elem_of_nil|].
  rewrite elem_of_cons, elem_of_app. intros [->|[Hin|Hin]].
  - set_solver.
  - rewrite Forall_forall in Hc. specialize (Hc e Hin).
    destruct n, e; simplify_eq/=; set_solver.
  - specialize (IH Hin). destruct e; set_solver.
Qed.

End trace_lemmas.
