(* ===== verification/Driver.v ===== *)
(** * The page's loop over the stream

    Lines 233-271 of [src/app.py]: when the form is submitted with a
    question, the page streams the graph on the one-message conversation,
    counts the items in [step_count], stops after [max_steps] items with a
    warning, stops at the first item whose last message is a final answer,
    and then shows the answer or a notice.  Any exception that escapes the
    graph is shown as an error with its traceback.  When the schema request
    of the generation service raises, the text of the fallback of
    [call_get_schema] passes the final-answer test and is shown as the
    answer ([schema_fallback_is_the_answer]).

    [agent_loop] is the [for] loop; it takes fuel because the stream may be
    endless, and [agent_loop_fuel] shows that [max_steps + 1] is always
    enough.  [ask] is the whole handler; what the page shows is a list of
    [Ui] items ([Streamlit]), in order. *)

From stdpp Require Import base list strings gmap.
From S2P Require Import Prelude Streamlit Messages Collab Toolkit Nodes Graph Trace.

(** [max_steps = 10  # Prevent infinite loops] *)
Definition max_steps : nat := 10.

(** The test "Look for final answer": an [AIMessage] with content, without
    tool calls, whose content does not contain ["Available tables:"]. *)
Definition is_final_answer (last_msg : Message) : bool :=
  is_AIMessage last_msg
  && truthy (content last_msg)
  && negb (has_tool_calls last_msg)
  && negb (contains "Available tables:" (content last_msg)).

(** How the loop ended: with an answer, by exhausting the stream, or by
    reaching [max_steps]. *)
Inductive LoopEnd : Type :=
| Answered (answer : string)
| Exhausted
| MaxSteps.

#[export] Instance LoopEnd_eq_dec : EqDecision LoopEnd.
Proof. solve_decision. Defined.

(** The node after [n] when the run goes on. *)
Definition follow (n : NodeName) : NodeName :=
  match n with
  | START => n_list_tables
  | n_list_tables => n_call_get_schema
  | n_call_get_schema => n_get_schema
  | n_get_schema => n_generate_query
  | n_generate_query => n_check_query
  | n_check_query => n_run_query
  | n_run_query => n_generate_query
  | END => END
  end.

(** The nodes that run from [n] on in at most [k] steps when the run goes on. *)
Fixpoint path_from (n : NodeName) (k : nat) : list NodeName :=
  match k with
  | 0 => []
  | S k' => if decide (n = END) then [] else n :: path_from (follow n) k'
  end.

(** The path of the graph from its first node, [max_steps] nodes long. *)
Definition agent_path : list NodeName :=
  [n_list_tables; n_call_get_schema; n_get_schema;
   n_generate_query; n_check_query; n_run_query;
   n_generate_query; n_check_query; n_run_query;
   n_generate_query].

Section driver.
Context {W : Type} `{!Generation W, !Database W}.
Implicit Types (s : Env W) (g : Gen).

(** The [for step in agent.stream(...)] loop from [step_count] on;
    [None] when the fuel runs out. *)
Fixpoint agent_loop (fuel : nat) (step_count : nat) (g : Gen)
    : M (Env W) (option LoopEnd) :=
  match fuel with
  | 0 => ret None
  | S fuel' =>
      let* item := gen_next g in
      match item with
      | None => ret (Some Exhausted)
      | Some (step, g') =>
          let step_count := step_count + 1 in
          if decide (max_steps < step_count) then ret (Some MaxSteps)
          else
            let* last_msg := lift (last_item (messages step)) in
            if is_final_answer last_msg
            then ret (Some (Answered (content last_msg)))
            else agent_loop fuel' step_count g'
      end
  end.

(** What the page shows after the loop. *)
Definition render (r : LoopEnd) : list Ui :=
  match r with
  | Answered answer => [st_success "Answer:"; st_write answer]
  | Exhausted =>
      [st_warning "I couldn't generate an answer for your question. Please try rephrasing your question."]
  | MaxSteps =>
      [st_warning "Maximum steps reached. Stopping execution.";
       st_warning "I couldn't generate an answer for your question. Please try rephrasing your question."]
  end.

(** What the page shows for an exception. *)
Definition render_error (e : Exn) : list Ui :=
  [st_error ("An error occurred: " +:+ str_exn e);
   st_text "Detailed error:";
   st_code_traceback e].

(** The body of [if submitted and question:]. *)
Definition process_question (question : string) : M (Env W) (list Ui) :=
  try_except
    (let state := [HumanMessage question None] in
     let* r := agent_loop (S max_steps) 0 (stream state) in
     ret (from_option render [] r))
    (λ e, ret (render_error e)).

(** The handler of the form. *)
Definition ask (submitted : bool) (question : string) : M (Env W) (list Ui) :=
  if submitted && truthy question then process_question question
  else if submitted && negb (truthy question)
       then ret [st_warning "Please enter a question."]
       else ret [].

(** What the generator may still run in [k] steps. *)
Definition gen_path g (k : nat) : list NodeName :=
  match g with
  | NotStarted _ => path_from n_list_tables (k - 1)
  | Running n _ _ => path_from n k
  end.

(** From [s] to [s'] the trace has grown by the segments of nodes that are
    the first nodes of [p]. *)
Definition runs_within s s' (p : list NodeName) : Prop :=
  ∃ ns t, trace s' = trace s ++ t ∧ run_trace ns t ∧ ns `prefix_of` p.

(** The conversation after the question and [list_tables], numbered from [u]. *)
Definition opening (question : string) (u : nat) : list Message :=
  HumanMessage question (Some (IdUuid u)) :: tables_messages (S u).

End driver.

(** ** Lemmas *)

Section driver_lemmas.
Context {W : Type} `{!Generation W, !Database W}.
Implicit Types (state : MessagesState) (s : Env W) (m : Message) (n : NodeName) (g : Gen).

Lemma agent_loop_S fuel step_count g s :
  agent_loop (S fuel) step_count g s =
  match gen_next g s with
  | (inl e, s1) => (inl e, s1)
  | (inr None, s1) => (inr (Some Exhausted), s1)
  | (inr (Some (step, g')), s1) =>
      if decide (max_steps < step_count + 1) then (inr (Some MaxSteps), s1)
      else match last_item (messages step) with
           | inl e => (inl e, s1)
           | inr last_msg =>
               if is_final_answer last_msg
               then (inr (Some (Answered (content last_msg))), s1)
               else agent_loop fuel (step_count + 1) g' s1
           end
  end.
Proof.
  simpl. unfold bind. destruct (gen_next g s) as [[e|[[step g']|]] s1]; try done.
  case_decide; [done|]. rewrite lift_spec.
  destruct (last_item _) as [e|last_msg]; [done|]. by destruct (is_final_answer _).
Qed.

(** With fuel beyond the steps left, the loop does not run out of fuel. *)
Lemma agent_loop_enough_fuel fuel step_count g s :
  step_count ≤ max_steps → max_steps < step_count + fuel →
  (agent_loop fuel step_count g s).1 ≠ inr None.
Proof.
  revert step_count g s. induction fuel as [|fuel IH]; intros sc g s Hsc Hf; [lia|].
  rewrite agent_loop_S.
  destruct (gen_next g s) as [[e|[[step g']|]] s1]; [done| |done].
  case_decide; [done|]. destruct (last_item _) as [e|last_msg]; [done|].
  destruct (is_final_answer _); [done|]. apply IH; lia.
Qed.

(** C4: the loop ends: from any [step_count] within [max_steps], fuel
    [max_steps + 1 - step_count] is enough: the loop does not run out of it,
    and more fuel changes nothing. *)
Theorem agent_loop_fuel fuel step_count g s :
  step_count ≤ max_steps → max_steps < step_count + fuel →
  (agent_loop fuel step_count g s).1 ≠ inr None
  ∧ agent_loop fuel step_count g s =
    agent_loop (S max_steps - step_count) step_count g s.
Proof.
  intros Hsc Hf. split; [by apply agent_loop_enough_fuel|].
  revert step_count g s Hsc Hf. induction fuel as [|fuel IH]; intros sc g s Hsc Hf; [lia|].
  replace (S max_steps - sc) with (S (max_steps - sc)) by lia.
  rewrite !agent_loop_S.
  destruct (gen_next g s) as [[e|[[step g']|]] s1]; [done| |done].
  case_decide; [done|]. destruct (last_item _) as [e|last_msg]; [done|].
  destruct (is_final_answer _); [done|].
  replace (max_steps - sc) with (S max_steps - (sc + 1)) by lia.
  apply IH; lia.
Qed.

Lemma process_question_spec question s :
  process_question question s =
  match agent_loop (S max_steps) 0 (stream [HumanMessage question None]) s with
  | (inr r, s1) => (inr (from_option render [] r), s1)
  | (inl e, s1) => (inr (render_error e), s1)
  end.
Proof.
  unfold process_question, try_except, bind.
  by destruct (agent_loop _ _ _ _) as [[e|r] s1].
Qed.

(** The handler of a question never raises, and what it shows is the
    rendering of an answer, of an exhausted stream, of the step limit, or of
    an exception. *)
Lemma process_question_cases question s :
  ∃ ui, (process_question question s).1 = inr ui
        ∧ ((∃ r, ui = render r) ∨ (∃ e, ui = render_error e)).
Proof.
  rewrite process_question_spec.
  pose proof (agent_loop_enough_fuel (S max_steps) 0
                (stream [HumanMessage question None]) s) as Hn.
  destruct (agent_loop _ _ _ _) as [[e|[r|]] s1]; [by eauto..|].
  by destruct Hn; [lia..|].
Qed.

(** The form handler never raises. *)
Lemma ask_never_raises submitted question s :
  ∃ ui s', ask submitted question s = (inr ui, s').
Proof.
  unfold ask. destruct submitted, (truthy question); simpl; eauto.
  destruct (process_question_cases question s) as (ui & Hui & _).
  destruct (process_question question s) as [r s']. simpl in Hui. subst. eauto.
Qed.

(** C11: the form handler never raises.  For a question it shows the
    rendering of an answer, of an exhausted stream, of the step limit or of an
    exception; for an empty question it asks for one and without a submission it
    shows nothing, and in these two cases no collaborator is reached. *)
Theorem ask_total submitted question s :
  ∃ ui, (ask submitted question s).1 = inr ui ∧
    if submitted
    then if truthy question
         then (∃ r, ui = render r) ∨ (∃ e, ui = render_error e)
         else ui = [st_warning "Please enter a question."]
              ∧ (ask submitted question s).2 = s
    else ui = [] ∧ (ask submitted question s).2 = s.
Proof.
  unfold ask. destruct submitted, (truthy question); simpl; eauto.
  apply process_question_cases.
Qed.

Lemma follow_next_node n state n' :
  next_node n state = inr n' → n' = follow n ∨ n' = END.
Proof.
  rewrite next_node_spec. destruct n; try (intros [= <-]; by left).
  unfold should_continue. destruct (last_item _); [done|].
  destruct (has_tool_calls _); intros [= <-]; auto.
Qed.

Lemma path_from_END k : path_from END k = [].
Proof. by destruct k. Qed.

Lemma path_from_S n k :
  n ≠ END → path_from n (S k) = n :: path_from (follow n) k.
Proof. intros Hn. simpl. by rewrite decide_False. Qed.

Lemma node_fn_not_END n fn : node_fn n = Some fn → n ≠ END.
Proof. by intros Hn ->. Qed.

Lemma runs_within_refl s p : runs_within s s p.
Proof. exists [], []. split_and!; [by rewrite app_nil_r|constructor|apply prefix_nil]. Qed.

Lemma runs_within_trace s s' p : trace s' = trace s → runs_within s s' p.
Proof.
  intros Ht. exists [], []. split_and!; [by rewrite app_nil_r|constructor|apply prefix_nil].
Qed.

(** One node ran, and nothing after it. *)
Lemma runs_within_node n s s1 s2 p calls :
  trace s1 = trace (started n s) ++ calls → node_calls n calls →
  trace s2 = trace s1 → runs_within s s2 (n :: p).
Proof.
  intros Ht Hc Ht2. exists [n], (EvNode n :: calls ++ []). simpl in Ht.
  split_and!; [by rewrite Ht2, Ht, <- app_assoc, app_nil_r| |].
  - constructor; [done|constructor].
  - by apply prefix_cons, prefix_nil.
Qed.

(** One node ran, and then a prefix of the rest of the path. *)
Lemma runs_within_cons n s s1 s1' s2 p p' calls :
  trace s1 = trace (started n s) ++ calls → node_calls n calls →
  trace s1' = trace s1 →
  runs_within s1' s2 p' → p' = p ∨ p' = [] →
  runs_within s s2 (n :: p).
Proof.
  intros Ht Hc Ht1 (ns & t' & Ht' & Hr & Hp) Hor. exists (n :: ns), (EvNode n :: calls ++ t').
  simpl in Ht. split_and!; [by rewrite Ht', Ht1, Ht, <- !app_assoc|by constructor|].
  apply prefix_cons. destruct Hor as [->| ->]; [done|].
  apply prefix_nil_inv in Hp as ->. apply prefix_nil.
Qed.

(** The nodes the loop runs are the first nodes of the one path of the graph,
    and each makes the calls it is allowed. *)
Lemma agent_loop_runs_within fuel step_count g s :
  step_count ≤ max_steps →
  runs_within s (agent_loop fuel step_count g s).2
    (gen_path g (S max_steps - step_count)).
Proof.
  revert step_count g s. induction fuel as [|fuel IH]; intros sc g s Hsc;
    [apply runs_within_refl|].
  rewrite agent_loop_S. destruct g as [input|n st k].
  - rewrite gen_next_start. case_decide; [by apply runs_within_trace|].
    destruct (last_item _) as [e|last_msg]; [by apply runs_within_trace|].
    destruct (is_final_answer _); [by apply runs_within_trace|].
    destruct (IH (sc + 1) (Running n_list_tables
      (mkState (add_messages [] input (next_uuid s)).1) 0)
      (mkEnv (world s) (trace s) (add_messages [] input (next_uuid s)).2))
      as (ns & t & Ht & Hr & Hp); [lia|].
    exists ns, t. split_and!; [done..|]. simpl in *.
    by replace (S max_steps - sc - 1) with (S max_steps - (sc + 1)) by lia.
  - destruct (node_fn n) as [fn|] eqn:Hn;
      [|by (destruct n; simplify_eq/=; apply runs_within_refl)].
    destruct (decide (k < recursion_limit)) as [Hk|Hk]; cycle 1.
    { unfold gen_next. rewrite Hn, decide_True by lia. apply runs_within_refl. }
    rewrite (gen_next_running n fn) by done. simpl.
    replace (S max_steps - sc) with (S (max_steps - sc)) by lia.
    rewrite path_from_S by by eapply node_fn_not_END.
    destruct (node_calls_ok n fn st (started n s) Hn) as (calls & Ht & Hc).
    destruct (fn st (started n s)) as [[e|upd] s1]; simpl in Ht;
      [by eapply runs_within_node|].
    destruct (next_node _ _) as [e|n'] eqn:Hnext; [by eapply runs_within_node|].
    case_decide; [by eapply runs_within_node|].
    destruct (last_item _) as [e|last_msg]; [by eapply runs_within_node|].
    destruct (is_final_answer _); [by eapply runs_within_node|].
    eapply runs_within_cons; [done..| |apply IH; lia|]; [done|]. simpl.
    replace (S max_steps - (sc + 1)) with (max_steps - sc) by lia.
    destruct (follow_next_node _ _ _ Hnext) as [->| ->]; [by left|right].
    apply path_from_END.
Qed.

(** The trace of a question: segments of the first nodes of the path from
    [list_tables], [max_steps] nodes long. *)
Lemma process_question_segments question s :
  ∃ ns, run_trace ns (new_events s (process_question question s).2)
        ∧ ns `prefix_of` path_from n_list_tables max_steps.
Proof.
  rewrite process_question_spec.
  destruct (agent_loop_runs_within (S max_steps) 0
              (stream [HumanMessage question None]) s) as (ns & t & Ht & Hr & Hp); [lia|].
  exists ns. split; [|done].
  destruct (agent_loop _ _ _ _) as [[e|r] s1]; simpl in *;
    unfold new_events; by rewrite Ht, drop_app_length.
Qed.

(** The nodes a question runs are the first nodes of the path from
    [list_tables], [max_steps] nodes long. *)
Lemma process_question_nodes question s :
  nodes_run (new_events s (process_question question s).2)
    `prefix_of` path_from n_list_tables max_steps.
Proof.
  destruct (process_question_segments question s) as (ns & Hr & Hp).
  by rewrite (run_trace_nodes_run _ _ Hr).
Qed.

(** C1: the nodes a question runs are the first nodes of [agent_path], in
    that order, and at most [max_steps] of them: [run_query] runs only right
    after [check_query], at most twice, and [generate_query] at most three
    times.  The trace of the question is made of their segments: each node
    makes only the calls it is allowed. *)
Theorem process_question_path question s :
  let t := new_events s (process_question question s).2 in
  nodes_run t `prefix_of` agent_path
  ∧ length (nodes_run t) ≤ max_steps
  ∧ run_trace (nodes_run t) t.
Proof.
  intros t. destruct (process_question_segments question s) as (ns & Hr & Hp).
  fold t in Hr. rewrite (run_trace_nodes_run _ _ Hr).
  assert (ns `prefix_of` agent_path) as Hp'.
  { by change agent_path with (path_from n_list_tables max_steps). }
  split_and!; [done| |done]. by apply prefix_length in Hp'.
Qed.

(** C18: a question costs at most nine calls of the generation service: one
    for the schema request, at most two for each of the three drafts, one for
    each of the two reviews. *)
Theorem process_question_invocations question s :
  invocations (new_events s (process_question question s).2) ≤ 9.
Proof.
  destruct (process_question_segments question s) as (ns & Hr & Hp).
  etrans; [by apply run_trace_invocations|].
  change 9 with (sum_list (cost <$> path_from n_list_tables max_steps)).
  by apply sum_list_prefix, prefix_fmap.
Qed.

(** A prefix of the path that holds [run_query] holds the six nodes up to
    it. *)
Lemma agent_path_run_query ns :
  ns `prefix_of` agent_path → n_run_query ∈ ns → take 6 agent_path `prefix_of` ns.
Proof.
  intros Hp Hin. apply prefix_take_length in Hp. rewrite Hp in Hin |- *.
  destruct (decide (6 ≤ length ns)) as [Hk|Hk].
  - replace (take 6 agent_path) with (take 6 (take (length ns) agent_path))
      by (rewrite take_take; f_equal; lia).
    apply prefix_take.
  - assert (n_run_query ∉ take 5 agent_path) as Hn by by apply (bool_decide_unpack _).
    destruct Hn. apply elem_of_take in Hin as (i & Hi & ?).
    apply elem_of_take. exists i. split; [done|lia].
Qed.

Lemma elem_of_queries_run q (t : list Event) : q ∈ queries_run t ↔ EvRun q ∈ t.
Proof.
  unfold queries_run. rewrite list_elem_of_omap. split.
  - by intros ([] & ? & [= ->]).
  - intros ?. by exists (EvRun q).
Qed.

(** C17: a query reaches the database only through the node [run_query]:
    when a question runs any query, the six nodes from [list_tables] to
    [run_query] have run, [check_query] among them; and a question opens no
    database. *)
Theorem process_question_queries question s q :
  let t := new_events s (process_question question s).2 in
  (q ∈ queries_run t → take 6 agent_path `prefix_of` nodes_run t)
  ∧ ∀ url, EvConnect url ∉ t.
Proof.
  intros t. destruct (process_question_segments question s) as (ns & Hr & Hp).
  fold t in Hr. rewrite (run_trace_nodes_run _ _ Hr). split.
  - intros Hq%elem_of_queries_run. apply agent_path_run_query; [done|].
    apply (run_trace_events _ _ _ Hr Hq).
  - intros url Hin. apply (run_trace_events _ _ _ Hr Hin).
Qed.

Lemma truthy_spec (c : string) : truthy c = true ↔ c ≠ "".
Proof. by destruct c. Qed.

(** On an assistant message without tool calls the test looks at the
    content alone. *)
Lemma is_final_answer_plain c i :
  is_final_answer (AIMessage c [] i) =
  truthy c && negb (contains "Available tables:" c).
Proof. unfold is_final_answer, has_tool_calls. simpl. by rewrite andb_true_r. Qed.

(** C28: the final-answer test holds exactly of an assistant message with
    content and no tool calls whose content does not mention
    ["Available tables:"]. *)
Theorem is_final_answer_spec m :
  is_final_answer m = true ↔
  ∃ c i, m = AIMessage c [] i ∧ c ≠ "" ∧ contains "Available tables:" c = false.
Proof.
  split.
  - destruct m as [| |c [|tc tcs] i|]; try done.
    + rewrite is_final_answer_plain, andb_true_iff, negb_true_iff, truthy_spec.
      intros [? ?]. by exists c, i.
    + unfold is_final_answer, has_tool_calls. simpl. by rewrite andb_false_r.
  - intros (c & i & -> & Hc%truthy_spec & Hn).
    by rewrite is_final_answer_plain, Hc, Hn.
Qed.

Lemma is_final_answer_tables x i :
  is_final_answer (AIMessage ("Available tables: " +:+ x) [] i) = false.
Proof.
  rewrite is_final_answer_plain. apply andb_false_iff. right.
  apply negb_false_iff, contains_prefix.
  exact (string_prefix_app "Available tables:" (" " +:+ x)).
Qed.

(** The loop goes on after an item that is no final answer. *)
Lemma agent_loop_continue fuel step_count g s st' g' s1 m :
  gen_next g s = (inr (Some (st', g')), s1) → step_count < max_steps →
  last_item (messages st') = inr m → is_final_answer m = false →
  agent_loop (S fuel) step_count g s = agent_loop fuel (step_count + 1) g' s1.
Proof.
  intros Hg Hsc Hl Hf. rewrite agent_loop_S, Hg, decide_False by lia.
  by rewrite Hl, Hf.
Qed.

(** The loop stops at a final answer. *)
Lemma agent_loop_answered fuel step_count g s st' g' s1 m :
  gen_next g s = (inr (Some (st', g')), s1) → step_count < max_steps →
  last_item (messages st') = inr m → is_final_answer m = true →
  agent_loop (S fuel) step_count g s = (inr (Some (Answered (content m))), s1).
Proof.
  intros Hg Hsc Hl Hf. rewrite agent_loop_S, Hg, decide_False by lia.
  by rewrite Hl, Hf.
Qed.

Lemma wf_question question u :
  wf_messages [HumanMessage question (Some (IdUuid u))] (S u).
Proof.
  split; [by repeat constructor|apply NoDup_singleton|].
  intros k Hk%list_elem_of_singleton. simplify_eq/=. lia.
Qed.

(** The first two items of the stream are no final answers: the loop is at
    [call_get_schema] with [step_count = 2]. *)
Lemma agent_loop_opening fuel question s :
  agent_loop (S (S fuel)) 0 (stream [HumanMessage question None]) s =
  agent_loop fuel 2
    (Running n_call_get_schema (mkState (opening question (next_uuid s))) 1)
    (mkEnv (world s) (trace s ++ [EvNode n_list_tables]) (next_uuid s + 4)).
Proof.
  erewrite agent_loop_continue;
    [|apply gen_next_question|unfold max_steps; lia|done..].
  erewrite agent_loop_continue;
    [|apply gen_next_list_tables; [apply wf_question|unfold recursion_limit; lia]
     |unfold max_steps; lia|apply (last_item_snoc [_; _; _])
     |apply is_final_answer_tables].
  simpl. do 3 f_equal. lia.
Qed.

Lemma wf_opening question u : wf_messages (opening question u) (u + 4).
Proof.
  split; [by repeat constructor| |].
  - unfold opening, tables_messages. simpl. apply NoDup_ListNoDup.
    repeat constructor; simpl; intros Hin; decompose [or] Hin; simplify_eq; lia.
  - unfold opening, tables_messages. simpl. intros k Hk.
    repeat (apply elem_of_cons in Hk as [Hk|Hk]; [simplify_eq; lia|]).
    by apply elem_of_nil in Hk.
Qed.

(** C22: when the generation service raises on the schema request and the
    fallback reads the schema, the text of the fallback is shown to the user
    as the answer, unless it holds ["Available tables:"], and the run ends
    there: only [list_tables] and [call_get_schema] have run, the service
    was called once, and no query was drafted. *)
Theorem schema_fallback_is_the_answer question s e w1 info w2 :
  let conversation := opening question (next_uuid s) in
  llm_invoke ["sql_db_schema"] conversation (world s) = (inl e, w1) →
  get_table_info_no_throw (take 3 get_usable_table_names) w1 = (inr info, w2) →
  contains "Available tables:" ("Schema information: " +:+ info) = false →
  process_question question s =
  (inr [st_success "Answer:"; st_write ("Schema information: " +:+ info)],
   mkEnv w2
     (trace s ++ [EvNode n_list_tables; EvNode n_call_get_schema;
                  EvInvoke ["sql_db_schema"] conversation;
                  EvTableInfo (take 3 get_usable_table_names)])
     (next_uuid s + 5)).
Proof.
  intros conversation Hllm Hinfo Hc.
  rewrite process_question_spec. unfold max_steps. rewrite agent_loop_opening.
  erewrite agent_loop_answered; cycle 1.
  - apply (gen_next_schema_fallback _ _ _ e w1 info w2);
      [apply wf_opening|unfold recursion_limit; lia|apply Hllm|apply Hinfo].
  - unfold max_steps. lia.
  - apply (last_item_snoc (opening _ _)).
  - by rewrite is_final_answer_plain, Hc.
  - simpl. do 2 f_equal; [by rewrite <- app_assoc|lia].
Qed.

(** C23: the item that follows [max_steps] items is dropped unread: the
    loop stops with the step-limit notice whatever that item holds, a final
    answer included. *)
Theorem item_after_max_steps_is_dropped fuel g s st' g' s1 :
  gen_next g s = (inr (Some (st', g')), s1) →
  agent_loop (S fuel) max_steps g s = (inr (Some MaxSteps), s1).
Proof. intros Hg. by rewrite agent_loop_S, Hg, decide_True by lia. Qed.

Lemma should_continue_END ms c i :
  should_continue (mkState (ms ++ [AIMessage c [] i])) = inr END.
Proof. unfold should_continue. simpl. by rewrite last_item_snoc. Qed.

(** C24: an answer that mentions ["Available tables:"] is never shown:
    when the step of [generate_query] yields a conversation that ends with an
    assistant message without tool calls whose content contains that text, the
    loop ends with no answer. *)
Theorem answer_mentioning_tables_is_discarded fuel step_count st k s ms c i g' s1 :
  step_count < max_steps →
  gen_next (Running n_generate_query st k) s =
    (inr (Some (mkState (ms ++ [AIMessage c [] i]), g')), s1) →
  contains "Available tables:" c = true →
  agent_loop (S (S fuel)) step_count (Running n_generate_query st k) s =
  (inr (Some Exhausted), s1).
Proof.
  intros Hsc Hg Hc.
  assert (g' = Running END (mkState (ms ++ [AIMessage c [] i])) (S k)) as ->.
  { destruct (decide (k < recursion_limit)); cycle 1.
    { unfold gen_next in Hg. simpl in Hg. by rewrite decide_True in Hg by lia. }
    rewrite (gen_next_running n_generate_query generate_query) in Hg by done.
    destruct (generate_query _ _) as [[e|upd] s']; [done|].
    simpl in Hg. rewrite next_node_spec in Hg.
    destruct (should_continue _) as [e|n'] eqn:Hn; [done|].
    injection Hg as Hst <- _. rewrite Hst in Hn |- *.
    rewrite should_continue_END in Hn. by simplify_eq. }
  erewrite agent_loop_continue;
    [by rewrite agent_loop_S, gen_next_end|done..|apply last_item_snoc|].
  rewrite is_final_answer_plain, Hc. apply andb_false_r.
Qed.

End driver_lemmas.
