(* ===== verification/Budget.v ===== *)
(** * The step limit at work

    The drafts come from an external service: nothing makes it ever answer
    in plain text.  This file follows the run of a question against a service
    that proposes a query every time it is asked: each node of the path hands
    on to the next ([node_goes_on]), no state the stream yields passes the
    final-answer test, and after [max_steps] items the loop of the page stops
    with the step-limit notice.  By then the ten nodes of the path have run,
    the third draft included ([always_proposing_hits_max_steps]).

    The last part is about every service: a tool node never yields a final
    answer ([tool_step_not_final]), so an answer comes from one of the first
    eight nodes, before a second query can run ([answer_within_one_round]). *)

From stdpp Require Import base list strings gmap.
From S2P Require Import Prelude Streamlit Messages Collab Toolkit Nodes Graph Trace Driver.

(** A draft that proposes a query: an assistant message with at least one
    tool call, the first of which has a [query] argument. *)
Definition proposal (m : Message) : Prop :=
  ∃ c tc tcs i, m = AIMessage c (tc :: tcs) i ∧ is_Some (tc_args tc !! "query").

(** An answer of the service that is such a draft and has no identifier. *)
Definition proposes (r : Response) : Prop :=
  resp_id r = None ∧ proposal (response_message r).

(** The nodes that read the tool calls of the last message. *)
Definition awaits_tool (n : NodeName) : bool :=
  match n with
  | n_get_schema | n_check_query | n_run_query => true
  | _ => false
  end.

(** The two tool nodes. *)
Definition is_tool_node (n : NodeName) : bool :=
  match n with
  | n_get_schema | n_run_query => true
  | _ => false
  end.

(** The conversation does not end with a final answer. *)
Definition not_final (st : MessagesState) : Prop :=
  ∀ m, last_item (messages st) = inr m → is_final_answer m = false.

(** What holds of the state when node [n] is pending. *)
Definition inv (n : NodeName) (st : MessagesState) : Prop :=
  awaits_tool n = true → ∃ m, last_item (messages st) = inr m ∧ proposal m.

Section budget.
Context {W : Type} `{!Generation W, !Database W}.
Implicit Types (s : Env W) (st : MessagesState).

(** The service answers every call, in every world, with a draft that
    proposes a query. *)
Definition always_proposes : Prop :=
  ∀ tools msgs (w : W), ∃ r, (llm_invoke tools msgs w).1 = inr r ∧ proposes r.

(** The step of node [n] yields a state that is no final answer, and the
    next node of the path is pending. *)
Definition goes_on (n : NodeName) st (k : nat) s : Prop :=
  ∃ st' s',
    gen_next (Running n st k) s = (inr (Some (st', Running (follow n) st' (S k))), s')
    ∧ wf_state st' s' ∧ inv (follow n) st'
    ∧ ∃ m, last_item (messages st') = inr m ∧ is_final_answer m = false.
End budget.

(** ** Lemmas *)

Section budget_lemmas.
Context {W : Type} `{!Generation W, !Database W}.
Implicit Types (s : Env W) (st : MessagesState) (m : Message) (n : NodeName).

Lemma proposal_set_id i m : proposal m → proposal (set_id i m).
Proof. intros (c & tc & tcs & j & -> & Hq). by exists c, tc, tcs, i. Qed.

Lemma proposal_not_final m : proposal m → is_final_answer m = false.
Proof.
  intros (c & tc & tcs & j & -> & _). unfold is_final_answer, has_tool_calls. simpl.
  by rewrite andb_false_r.
Qed.

Lemma proposal_has_tool_calls m : proposal m → has_tool_calls m = true.
Proof. by intros (c & tc & tcs & j & -> & _). Qed.

Lemma is_final_answer_set_id i m : is_final_answer (set_id i m) = is_final_answer m.
Proof. by destruct m. Qed.

Lemma last_item_inv {A} (l : list A) x : last_item l = inr x → ∃ l', l = l' ++ [x].
Proof.
  unfold last_item. destruct (last l) eqn:E; [|done]. intros [= <-].
  by apply last_Some.
Qed.

Lemma last_item_app {A} (l k : list A) x : last_item k = inr x → last_item (l ++ k) = inr x.
Proof. intros [k' ->]%last_item_inv. by rewrite app_assoc, last_item_snoc. Qed.

(** The last message of an update keeps its place when the identifiers are
    assigned. *)
Lemma assign_ids_last upd next m :
  last_item upd = inr m →
  ∃ i, last_item (assign_ids upd next).1 = inr (set_id i m).
Proof.
  revert next. induction upd as [|x upd IH]; intros next; [done|].
  rewrite assign_ids_cons. cbn [fst]. destruct upd as [|y upd].
  - intros [= <-]. unfold assign_id. destruct (msg_id x) as [j|] eqn:E; simpl.
    + exists (Some j). by rewrite <- E, set_id_msg_id.
    + by eexists.
  - intros Hl. destruct (IH (assign_id x next).2) as [i Hi].
    { revert Hl. unfold last_item. by simpl. }
    exists i. revert Hi. rewrite assign_ids_cons. unfold last_item. by simpl.
Qed.

Lemma follow_node_fn n fn : node_fn n = Some fn → is_Some (node_fn (follow n)).
Proof. destruct n; simpl; intros; simplify_eq; by eexists. Qed.

Lemma inv_last n st m :
  last_item (messages st) = inr m → (awaits_tool n = true → proposal m) → inv n st.
Proof. intros Hl Hp Hn. exists m. auto. Qed.

(** A step whose node appends its update, the last message of which is no
    final answer, goes on to the next node of the path. *)
Lemma goes_on_append n fn st k s upd s1 m :
  node_fn n = Some fn → k < recursion_limit → wf_state st s →
  fn st (started n s) = (inr upd, s1) → Forall (λ m, msg_id m = None) upd →
  last_item upd = inr m → is_final_answer m = false →
  (∀ st' i, last_item (messages st') = inr (set_id i m) →
            next_node n st' = inr (follow n)) →
  (awaits_tool (follow n) = true → proposal m) →
  goes_on n st k s.
Proof.
  intros Hn Hk Hwf Hfn Hupd Hl Hf Hnext Hp.
  pose proof (gen_next_fresh n fn st k s upd s1 Hn Hk Hwf Hfn Hupd) as Hg.
  cbn zeta in Hg. destruct (assign_ids_last upd (next_uuid s) m Hl) as [i Hi].
  apply (last_item_app (messages st)) in Hi.
  rewrite (Hnext (mkState _) i Hi) in Hg.
  eexists _, _. split; [exact Hg|].
  destruct (gen_next_wf (Running n st k) s _ _ _ Hwf Hg) as (Hwf' & _ & _).
  split_and!; [done| |exists (set_id i m); by rewrite is_final_answer_set_id].
  eapply inv_last; [done|]. intros ?. by apply proposal_set_id, Hp.
Qed.

Lemma next_node_const n st :
  n ≠ n_generate_query → n ≠ END → next_node n st = inr (follow n).
Proof. rewrite next_node_spec. by destruct n. Qed.

Lemma next_node_proposal st i m :
  proposal m → last_item (messages st) = inr (set_id i m) →
  next_node n_generate_query st = inr (follow n_generate_query).
Proof.
  intros Hp Hl. rewrite next_node_spec. unfold should_continue. rewrite Hl.
  by rewrite (proposal_has_tool_calls _ (proposal_set_id i m Hp)).
Qed.

Section proposing.
Hypothesis Hllm : always_proposes.

Lemma list_tables_goes_on st k s :
  wf_state st s → k < recursion_limit → goes_on n_list_tables st k s.
Proof.
  intros Hwf Hk.
  eapply (goes_on_append n_list_tables list_tables); [done..|apply list_tables_spec| | | | |];
    [by repeat constructor|apply (last_item_snoc [_; _])|apply is_final_answer_tables
    |intros; by apply next_node_const|done].
Qed.

(** A node that asks the service once and returns its answer. *)
Lemma response_goes_on n fn st k s r s1 :
  node_fn n = Some fn → k < recursion_limit → wf_state st s →
  fn st (started n s) = (inr [response_message r], s1) → proposes r →
  (n = n_call_get_schema ∨ n = n_generate_query) →
  goes_on n st k s.
Proof.
  intros Hn Hk Hwf Hfn [Hid Hp] Hor.
  eapply (goes_on_append n fn); [done..| | | | |].
  - apply Forall_singleton. simpl. by rewrite Hid.
  - apply (last_item_snoc []).
  - by apply proposal_not_final.
  - intros st' i Hl. destruct Hor as [->| ->];
      [by apply next_node_const|by eapply next_node_proposal].
  - done.
Qed.

Lemma call_get_schema_goes_on st k s :
  wf_state st s → k < recursion_limit → goes_on n_call_get_schema st k s.
Proof.
  intros Hwf Hk.
  destruct (Hllm ["sql_db_schema"] (messages st) (world (started n_call_get_schema s)))
    as (r & Hr & Hp).
  eapply (response_goes_on n_call_get_schema call_get_schema); [done..| |done|by left].
  rewrite call_get_schema_spec. cbn zeta. by rewrite Hr.
Qed.

Lemma generate_query_goes_on st k s :
  wf_state st s → k < recursion_limit → goes_on n_generate_query st k s.
Proof.
  intros Hwf Hk.
  destruct (Hllm ["sql_db_query"]
              (SystemMessage generate_query_system_prompt None :: messages st)
              (world (started n_generate_query s))) as (r & Hr & Hp).
  eapply (response_goes_on n_generate_query generate_query); [done..| |done|by right].
  rewrite generate_query_spec. cbn zeta. by rewrite Hr.
Qed.

(** The answers of a tool node to at least one call: none has an
    identifier, and the last is a tool message. *)
Lemma tool_answers_last tc tcs upd :
  Forall2 is_tool_answer (tc :: tcs) upd →
  Forall (λ m, msg_id m = None) upd
  ∧ ∃ m, last_item upd = inr m ∧ is_final_answer m = false.
Proof.
  intros H. split.
  - induction H as [|?? ?? (text & name & ->)]; by constructor.
  - pose proof (Forall2_last _ _ _ H) as Hl. unfold last_item.
    destruct (last (tc :: tcs)) as [tc'|] eqn:E;
      [|by apply last_None in E].
    inversion Hl as [? m Ha|]. simplify_eq. exists m. split; [done|].
    by destruct Ha as (text & name & ->).
Qed.

Lemma tool_node_goes_on n (tl : Tool) st k s :
  node_fn n = Some (ToolNode [tl]) → tl ∈ tools → follow n = n_generate_query →
  wf_state st s → k < recursion_limit → inv n st → awaits_tool n = true →
  goes_on n st k s.
Proof.
  intros Hn Htl Hf Hwf Hk Hinv Ha. destruct (Hinv Ha) as (m & Hl & Hp).
  destruct (last_item_inv _ _ Hl) as [ms Hms].
  destruct Hp as (c & tc & tcs & i & -> & _).
  pose proof (ToolNode_spec [tl] st (started n s)) as Hspec.
  rewrite Hms, latest_ai_message_last in Hspec by done.
  destruct Hspec as (upd & Hr & Hans & _); [by intros ? ->%list_elem_of_singleton|].
  destruct (tool_answers_last _ _ _ Hans) as (Hnone & m & Hlast & Hfin).
  eapply (goes_on_append n (ToolNode [tl]) st k s upd (ToolNode [tl] st (started n s)).2);
    [done..| |done|done|done| |].
  - rewrite <- Hr. by destruct (ToolNode _ _ _).
  - intros st' j _. apply next_node_const; by destruct n.
  - by rewrite Hf.
Qed.

Lemma check_query_goes_on st k s :
  wf_state st s → k < recursion_limit → inv n_check_query st →
  goes_on n_check_query st k s.
Proof.
  intros Hwf Hk Hinv. destruct (Hinv eq_refl) as (m & Hl & c & tc & tcs & i & -> & q & Hq).
  destruct (last_item_inv _ _ Hl) as [ms Hms].
  destruct (Hllm ["sql_db_query"]
              [SystemMessage check_query_system_prompt None; HumanMessage q None]
              (world s)) as (r & Hr & Hid & Hp).
  destruct (llm_invoke _ _ _) as [x w1] eqn:E. simpl in Hr. subst x.
  pose proof (gen_next_review st k s ms c tc tcs i q r w1 Hwf Hk Hms Hq E) as Hg.
  cbn zeta in Hg.
  destruct (gen_next_wf (Running n_check_query st k) s _ _ _ Hwf Hg) as (Hwf' & _ & _).
  eexists _, _. split; [exact Hg|]. split_and!; [done| |].
  - eapply inv_last; [apply last_item_snoc|]. intros _. exact (proposal_set_id i _ Hp).
  - eexists. split; [apply last_item_snoc|].
    exact (proposal_not_final _ (proposal_set_id i _ Hp)).
Qed.

(** Every node of the path goes on to the next. *)
Lemma node_goes_on n st k s :
  is_Some (node_fn n) → wf_state st s → inv n st → k < recursion_limit →
  goes_on n st k s.
Proof.
  intros [fn Hn] Hwf Hinv Hk. destruct n; simpl in Hn; simplify_eq.
  - by apply list_tables_goes_on.
  - by apply call_get_schema_goes_on.
  - apply (tool_node_goes_on n_get_schema get_schema_tool); try done.
    by apply (proj1 node_tools_subseteq), list_elem_of_singleton.
  - by apply generate_query_goes_on.
  - by apply check_query_goes_on.
  - apply (tool_node_goes_on n_run_query run_query_tool); try done.
    by apply (proj2 node_tools_subseteq), list_elem_of_singleton.
Qed.

(** The loop follows the path until the step limit: it ends with the
    step-limit notice, and the trace holds the segments of the nodes of the
    path. *)
Lemma agent_loop_goes_on fuel step_count n st k s :
  is_Some (node_fn n) → wf_state st s → inv n st →
  step_count ≤ max_steps → max_steps < step_count + fuel →
  k + (S max_steps - step_count) ≤ recursion_limit →
  (agent_loop fuel step_count (Running n st k) s).1 = inr (Some MaxSteps)
  ∧ ∃ t, trace (agent_loop fuel step_count (Running n st k) s).2 = trace s ++ t
         ∧ run_trace (path_from n (S max_steps - step_count)) t.
Proof.
  revert step_count n st k s. induction fuel as [|fuel IH];
    intros sc n st k s [fn Hn] Hwf Hinv Hsc Hf Hk; [lia|].
  destruct (node_goes_on n st k s) as (st' & s' & Hg & Hwf' & Hinv' & m & Hl & Hfin);
    [by eexists|done..|lia|].
  destruct (gen_next_segment n fn st k s Hn) as (calls & Ht & Hc); [lia|].
  rewrite Hg in Ht. simpl in Ht.
  replace (S max_steps - sc) with (S (max_steps - sc)) by lia.
  rewrite path_from_S by by eapply node_fn_not_END.
  rewrite agent_loop_S, Hg. case_decide.
  - split; [done|]. exists (EvNode n :: calls ++ []).
    split; [by rewrite app_nil_r|].
    replace (max_steps - sc) with 0 by lia. constructor; [done|constructor].
  - rewrite Hl, Hfin.
    destruct (IH (sc + 1) (follow n) st' (S k) s') as (Hr & t & Ht' & Hrun);
      [by eapply follow_node_fn|done..|lia|lia|lia|].
    split; [done|]. exists (EvNode n :: calls ++ t).
    split; [by rewrite Ht', Ht, <- app_assoc|].
    replace (max_steps - sc) with (S max_steps - (sc + 1)) by lia. by constructor.
Qed.

End proposing.

(** C14: a generation service that proposes a query every time is stopped
    by the step limit: the ten nodes of the path run, the third draft
    included, and the user is shown the step-limit notice and no answer. *)
Theorem always_proposing_hits_max_steps question s :
  always_proposes →
  (process_question question s).1 = inr (render MaxSteps)
  ∧ run_trace agent_path (new_events s (process_question question s).2).
Proof.
  intros Hllm. rewrite process_question_spec.
  erewrite agent_loop_continue;
    [|apply gen_next_question|unfold max_steps; lia|done..].
  destruct (agent_loop_goes_on Hllm max_steps 1 n_list_tables
    (mkState [HumanMessage question (Some (IdUuid (next_uuid s)))]) 0
    (mkEnv (world s) (trace s) (S (next_uuid s)))) as (Hr & t & Ht & Hrun);
    [by eexists|apply wf_question|done|unfold max_steps, recursion_limit; lia..|].
  destruct (agent_loop _ _ _ _) as [r s1]. simpl in *. subst r.
  split; [done|]. unfold new_events. simpl. by rewrite Ht, drop_app_length.
Qed.

End budget_lemmas.

(** ** How late an answer can come *)

Section rounds.
Context {W : Type} `{!Generation W, !Database W}.
Implicit Types (s : Env W) (st : MessagesState) (m : Message) (n : NodeName).

(** The step of a tool node never yields a final answer: it leaves the
    conversation as it is or ends it with a tool message. *)
Lemma ToolNode_step_not_final n (tl : Tool) st k s st' g' s' :
  node_fn n = Some (ToolNode [tl]) → tl ∈ tools → wf_state st s →
  k < recursion_limit → not_final st →
  gen_next (Running n st k) s = (inr (Some (st', g')), s') → not_final st'.
Proof.
  intros Hn Htl Hwf Hk Hnf Hg.
  pose proof (ToolNode_spec [tl] st (started n s)) as Hspec.
  rewrite (gen_next_running n _ st k s Hn Hk) in Hg.
  destruct (latest_ai_message (messages st)) as [[]|];
    try (rewrite Hspec in Hg by (by intros ? ->%list_elem_of_singleton); done).
  destruct Hspec as (upd & Hr & Hans & _); [by intros ? ->%list_elem_of_singleton|].
  destruct (node_update_ok n _ st (started n s) Hn) as [[Hu _] _].
  destruct (ToolNode _ _ _) as [r s1]. simpl in Hr, Hu. subst r. revert Hg. rewrite Hu.
  destruct Hans as [|tc a tcs upd Ha Hans].
  - rewrite add_messages_nil by apply Hwf. simpl.
    destruct (next_node _ _); intros; simplify_eq. by destruct st.
  - destruct (tool_answers_last tc tcs (a :: upd)) as (Hnone & m & Hl & Hf);
      [by constructor|].
    rewrite add_messages_all_None by done. cbn zeta. simpl.
    destruct (assign_ids_last (a :: upd) (next_uuid s) m Hl) as [i Hi].
    destruct (next_node _ _); intros; simplify_eq.
    intros m' Hm'. simpl in Hm'.
    rewrite (last_item_app _ _ _ Hi) in Hm'. simplify_eq.
    by rewrite is_final_answer_set_id.
Qed.

Lemma tool_step_not_final n st k s st' g' s' :
  is_tool_node n = true → wf_state st s → k < recursion_limit → not_final st →
  gen_next (Running n st k) s = (inr (Some (st', g')), s') → not_final st'.
Proof.
  intros Hn. destruct n; try done.
  - apply (ToolNode_step_not_final n_get_schema get_schema_tool); [done|].
    by apply (proj1 node_tools_subseteq), list_elem_of_singleton.
  - apply (ToolNode_step_not_final n_run_query run_query_tool); [done|].
    by apply (proj2 node_tools_subseteq), list_elem_of_singleton.
Qed.

Lemma question_not_final question i : not_final (mkState [HumanMessage question i]).
Proof. by intros m [= <-]. Qed.

(** The loop ends with an answer only on the result of a node that is no
    tool node, read within the step limit. *)
Lemma answered_node fuel step_count n st k s answer s' :
  wf_state st s → not_final st →
  agent_loop fuel step_count (Running n st k) s = (inr (Some (Answered answer)), s') →
  ∃ ns n' t,
    trace s' = trace s ++ t ∧ run_trace ns t ∧ last ns = Some n'
    ∧ is_tool_node n' = false ∧ step_count + length ns ≤ max_steps.
Proof.
  revert step_count n st k s. induction fuel as [|fuel IH];
    intros sc n st k s Hwf Hnf Hloop; [done|].
  rewrite agent_loop_S in Hloop.
  destruct (node_fn n) as [fn|] eqn:Hn; [|by (destruct n; simplify_eq/=)].
  destruct (decide (k < recursion_limit)) as [Hk|Hk];
    [|by (unfold gen_next in Hloop; rewrite Hn, decide_True in Hloop by lia)].
  destruct (gen_next_segment n fn st k s Hn Hk) as (calls & Ht & Hc).
  destruct (gen_next _ s) as [[e|[[st' g']|]] s1] eqn:Hg; [done| |done].
  destruct (gen_next_wf (Running n st k) s _ _ _ Hwf Hg) as (Hwf' & _ & n1 & k1 & ->).
  case_decide; [done|]. simpl in Ht.
  destruct (last_item (messages st')) as [e|m] eqn:Hl; [done|].
  destruct (is_final_answer m) eqn:Hf.
  - simplify_eq. exists [n], n, (EvNode n :: calls ++ []).
    split_and!; [by rewrite app_nil_r|constructor; [done|constructor]|done| |simpl; lia].
    destruct (is_tool_node n) eqn:Htool; [|done].
    by rewrite (tool_step_not_final n st k s _ _ _ Htool Hwf Hk Hnf Hg m Hl) in Hf.
  - assert (not_final st') as Hnf' by (intros m' Hm'; congruence).
    destruct (IH _ _ _ _ _ Hwf' Hnf' Hloop)
      as (ns & n' & t & Ht' & Hrun & Hlast & Htool & Hlen).
    exists (n :: ns), n', (EvNode n :: calls ++ t).
    split_and!; [by rewrite Ht', Ht, <- app_assoc|by constructor| |done|simpl; lia].
    by destruct ns.
Qed.

(** A prefix of the path that ends, within nine nodes, with a node that is
    no tool node holds [run_query] at most once. *)
Lemma agent_path_answer ns n' :
  ns `prefix_of` agent_path → length ns ≤ 9 → last ns = Some n' →
  is_tool_node n' = false →
  ns `prefix_of` take 8 agent_path
  ∧ length (filter (λ n, n = n_run_query) ns) ≤ 1.
Proof.
  intros Hp%prefix_take_length Hlen Hlast Htool. rewrite Hp in Hlast |- *.
  destruct (length ns) as [|[|[|[|[|[|[|[|[|[|j]]]]]]]]]]; simplify_eq/=; try lia;
    (split; [by eexists|vm_compute; lia]).
Qed.

(** C13: an answer is shown only for the first query: when a question ends
    with an answer, it has run at most the first eight nodes of the path, so
    [run_query] has run at most once.  What the service drafts from the
    result of a second query is the eleventh item of the stream, which the
    step limit drops. *)
Theorem answer_within_one_round question s answer :
  (process_question question s).1 = inr (render (Answered answer)) →
  let ns := nodes_run (new_events s (process_question question s).2) in
  ns `prefix_of` take 8 agent_path
  ∧ length (filter (λ n, n = n_run_query) ns) ≤ 1.
Proof.
  intros Hr. cbn zeta.
  pose proof (process_question_nodes question s) as Hp. revert Hr Hp.
  rewrite process_question_spec.
  destruct (agent_loop _ _ _ _) as [[e|[r|]] s1] eqn:Hloop; simpl; [done| |done].
  intros Hr Hp. assert (r = Answered answer) as -> by (by destruct r; simplify_eq/=).
  erewrite agent_loop_continue in Hloop;
    [|apply gen_next_question|unfold max_steps; lia|done..].
  eapply answered_node in Hloop as (ns & n' & t & Ht & Hrun & Hlast & Htool & Hlen);
    [|apply wf_question|apply question_not_final].
  simpl in Ht. unfold new_events in *. rewrite Ht, drop_app_length in *.
  rewrite (run_trace_nodes_run _ _ Hrun) in *.
  apply (agent_path_answer ns n'); [done|unfold max_steps in Hlen; lia|done..].
Qed.

End rounds.
