(* ===== verification/Answer.v ===== *)
(** * The run that ends with an answer

    What the graph is built for: the service asks for the schema, drafts a
    query, reviews it, the query runs, and the service answers from the
    result.  This file follows that run against a service that keeps to this
    protocol ([cooperative]): bound to a tool and shown a conversation without
    a query result, it calls that tool once, with the argument the tool
    reads; shown a conversation with a query result, it answers in plain
    text.  Each node of the path then hands on to the next ([node_advances]),
    the second draft is the answer, and the page shows it after seven nodes,
    one query and four calls of the service
    ([cooperative_service_is_answered]). *)

From stdpp Require Import base list strings gmap.
From S2P Require Import Prelude Streamlit Messages Collab Toolkit Nodes Graph Trace Driver Budget.

(** The message holds the result of a query. *)
Definition is_result (m : Message) : bool :=
  match m with
  | ToolMessage _ name _ _ => bool_decide (name = "sql_db_query")
  | _ => false
  end.

Definition has_result (ms : list Message) : bool := existsb is_result ms.

(** The argument a tool reads. *)
Definition argument (tool : string) : string :=
  if decide (tool = "sql_db_schema") then "table_names" else "query".

(** The response calls [tool], once, with its argument. *)
Definition calls_tool (tool : string) (r : Response) : Prop :=
  ∃ tc, resp_tool_calls r = [tc] ∧ tc_name tc = tool
        ∧ is_Some (tc_args tc !! argument tool).

(** The conversation ends with one call of [tool]. *)
Definition pending_call (tool : string) (st : MessagesState) : Prop :=
  ∃ ms c tc i, messages st = ms ++ [AIMessage c [tc] i] ∧ tc_name tc = tool
               ∧ is_Some (tc_args tc !! argument tool).

(** What holds of the state when [n] is pending and no query has run. *)
Definition before (n : NodeName) (st : MessagesState) : Prop :=
  has_result (messages st) = false
  ∧ match n with
    | n_get_schema => pending_call "sql_db_schema" st
    | n_check_query | n_run_query => pending_call "sql_db_query" st
    | _ => True
    end.

(** What holds of the state that the step of [n] yields. *)
Definition after (n : NodeName) (st : MessagesState) : Prop :=
  if decide (n = n_run_query) then has_result (messages st) = true
  else before (follow n) st.

(** The queries and the calls of the service that the step of [n] makes, and
    the calls of the service from [n] up to the answer. *)
Definition runs (n : NodeName) : nat := if decide (n = n_run_query) then 1 else 0.

Definition asks (n : NodeName) : nat :=
  match n with
  | n_call_get_schema | n_generate_query | n_check_query => 1
  | _ => 0
  end.

Definition asks_from (n : NodeName) : nat :=
  match n with
  | n_list_tables | n_call_get_schema => 4
  | n_get_schema | n_generate_query => 3
  | n_check_query => 2
  | n_run_query => 1
  | _ => 0
  end.

(** The number of nodes from [n] to the node that runs the query. *)
Definition way (n : NodeName) : nat :=
  match n with
  | n_list_tables => 6
  | n_call_get_schema => 5
  | n_get_schema => 4
  | n_generate_query => 3
  | n_check_query => 2
  | n_run_query => 1
  | _ => 0
  end.

Section answer.
Context {W : Type} `{!Generation W, !Database W}.
Implicit Types (s : Env W) (st : MessagesState).

(** The service keeps to the protocol of the graph. *)
Definition cooperative : Prop :=
  ∀ tool msgs (w : W), ∃ r,
    (llm_invoke [tool] msgs w).1 = inr r ∧ resp_id r = None
    ∧ if has_result msgs then is_final_answer (response_message r) = true
      else calls_tool tool r.

(** The step of node [n] yields a state that is no final answer, with the
    next node of the path pending. *)
Definition advances (n : NodeName) st (k : nat) s : Prop :=
  ∃ st' s' calls m,
    gen_next (Running n st k) s = (inr (Some (st', Running (follow n) st' (S k))), s')
    ∧ trace s' = trace s ++ EvNode n :: calls
    ∧ length (queries_run calls) = runs n ∧ invocations calls = asks n
    ∧ after n st'
    ∧ last_item (messages st') = inr m ∧ is_final_answer m = false.

(** The loop ended with an answer, after the nodes [ns], [queries] queries
    and [invokes] calls of the service. *)
Definition answered (r : (Exn + option LoopEnd) * Env W) s (ns : list NodeName)
    (queries invokes : nat) : Prop :=
  ∃ answer t,
    r.1 = inr (Some (Answered answer)) ∧ truthy answer = true
    ∧ trace r.2 = trace s ++ t ∧ run_trace ns t
    ∧ length (queries_run t) = queries ∧ invocations t = invokes.

End answer.

(** ** Lemmas *)

Section answer_lemmas.
Context {W : Type} `{!Generation W, !Database W}.
Implicit Types (s : Env W) (st : MessagesState) (m : Message) (n : NodeName).

Lemma has_result_app ms ms' : has_result (ms ++ ms') = has_result ms || has_result ms'.
Proof. apply existsb_app. Qed.

Lemma has_result_snoc ms m :
  has_result ms = false → is_result m = false → has_result (ms ++ [m]) = false.
Proof. intros Hms Hm. rewrite has_result_app, Hms. simpl. by rewrite Hm. Qed.

Lemma has_result_init ms m : has_result (ms ++ [m]) = false → has_result ms = false.
Proof. rewrite has_result_app. by intros [? _]%orb_false_iff. Qed.

Lemma calls_not_final c tc tcs i : is_final_answer (AIMessage c (tc :: tcs) i) = false.
Proof. unfold is_final_answer, has_tool_calls. simpl. by rewrite andb_false_r. Qed.

Lemma final_answer_no_calls c tcs i : is_final_answer (AIMessage c tcs i) = true → tcs = [].
Proof. destruct tcs; [done|]. by rewrite calls_not_final. Qed.

(** A step whose node returns one message without identifier appends it
    under the next fresh uuid. *)
Lemma gen_next_single n fn st k s m s1 :
  node_fn n = Some fn → k < recursion_limit → wf_state st s →
  fn st (started n s) = (inr [m], s1) → msg_id m = None →
  gen_next (Running n st k) s =
  let st' := mkState (messages st ++ [set_id (Some (IdUuid (next_uuid s))) m]) in
  let s2 := mkEnv (world s1) (trace s1) (next_uuid s + 1) in
  match next_node n st' with
  | inl e => (inl e, s2)
  | inr n' => (inr (Some (st', Running n' st' (S k))), s2)
  end.
Proof.
  intros Hn Hk Hwf Hfn Hm.
  rewrite (gen_next_fresh n fn st k s [m] s1) by (done || by apply Forall_singleton).
  by rewrite assign_ids_cons, (assign_id_None _ _ Hm).
Qed.

(** The step of a node whose one message is no final answer. *)
Lemma advances_single n fn st k s m w calls :
  node_fn n = Some fn → k < recursion_limit → wf_state st s →
  fn st (started n s) = (inr [m], mkEnv w (trace (started n s) ++ calls) (next_uuid s)) →
  msg_id m = None → is_final_answer m = false →
  (∀ i, next_node n (mkState (messages st ++ [set_id i m])) = inr (follow n)) →
  (∀ i, after n (mkState (messages st ++ [set_id i m]))) →
  length (queries_run calls) = runs n → invocations calls = asks n →
  advances n st k s.
Proof.
  intros Hn Hk Hwf Hfn Hm Hf Hnext Hafter Hq Hi.
  pose proof (gen_next_single n fn st k s m _ Hn Hk Hwf Hfn Hm) as Hg.
  cbn zeta in Hg. rewrite Hnext in Hg.
  eexists _, _, calls, _. split; [exact Hg|]. simpl.
  split_and!; [by rewrite <- app_assoc|done..|apply last_item_snoc|].
  by rewrite is_final_answer_set_id.
Qed.

Lemma next_node_calls st ms c tc tcs i :
  messages st = ms ++ [AIMessage c (tc :: tcs) i] →
  next_node n_generate_query st = inr n_check_query.
Proof.
  intros Hms. rewrite next_node_spec. unfold should_continue.
  by rewrite Hms, last_item_snoc.
Qed.

Lemma list_tables_advances st k s :
  wf_state st s → k < recursion_limit → before n_list_tables st →
  advances n_list_tables st k s.
Proof.
  intros Hwf Hk [Hno _].
  eexists _, _, [], _. split; [by apply gen_next_list_tables|]. simpl.
  split_and!; [done..| |apply last_item_app, (last_item_snoc [_; _])|apply is_final_answer_tables].
  split; [|done]. simpl. by rewrite has_result_app, Hno.
Qed.

(** A node that asks the service once and returns its answer. *)
Lemma response_advances n fn tool st k s r w msgs :
  node_fn n = Some fn → k < recursion_limit → wf_state st s →
  fn st (started n s) =
    (inr [response_message r],
     mkEnv w (trace (started n s) ++ [EvInvoke [tool] msgs]) (next_uuid s)) →
  resp_id r = None → calls_tool tool r → has_result (messages st) = false →
  (n = n_call_get_schema ∧ tool = "sql_db_schema"
   ∨ n = n_generate_query ∧ tool = "sql_db_query") →
  advances n st k s.
Proof.
  intros Hn Hk Hwf Hfn Hid (tc & Htc & Hname & Harg) Hno Hor.
  unfold response_message in *. rewrite Htc, Hid in *.
  eapply (advances_single n fn); [done..|apply calls_not_final| | | |].
  - intros i. destruct Hor as [[-> _]|[-> _]];
      [by apply next_node_const|by eapply next_node_calls].
  - intros i. unfold after, before.
    destruct Hor as [[-> ->]|[-> ->]]; simpl;
      (split; [by apply has_result_snoc|by eexists _, _, _, _]).
  - by destruct Hor as [[-> _]|[-> _]].
  - by destruct Hor as [[-> _]|[-> _]].
Qed.

(** The step of [call_get_schema] when the service asks for the schema. *)
Lemma schema_request_advances st k s r :
  wf_state st s → k < recursion_limit → has_result (messages st) = false →
  (llm_invoke ["sql_db_schema"] (messages st) (world s)).1 = inr r →
  resp_id r = None → calls_tool "sql_db_schema" r →
  advances n_call_get_schema st k s.
Proof.
  intros Hwf Hk Hno Hr Hid Hc.
  eapply (response_advances n_call_get_schema call_get_schema); [done..| |done|done|done|by left].
  rewrite call_get_schema_spec. cbn zeta. simpl. by rewrite Hr.
Qed.

Section cooperating.
Hypothesis Hllm : cooperative.

Lemma call_get_schema_advances st k s :
  wf_state st s → k < recursion_limit → before n_call_get_schema st →
  advances n_call_get_schema st k s.
Proof.
  intros Hwf Hk [Hno _].
  destruct (Hllm "sql_db_schema" (messages st) (world s)) as (r & Hr & Hid & Hc).
  rewrite Hno in Hc. by eapply schema_request_advances.
Qed.

Lemma generate_query_advances st k s :
  wf_state st s → k < recursion_limit → before n_generate_query st →
  advances n_generate_query st k s.
Proof.
  intros Hwf Hk [Hno _].
  destruct (Hllm "sql_db_query"
              (SystemMessage generate_query_system_prompt None :: messages st) (world s))
    as (r & Hr & Hid & Hc).
  change (has_result (_ :: messages st)) with (has_result (messages st)) in Hc.
  rewrite Hno in Hc.
  eapply (response_advances n_generate_query generate_query); [done..| |done|done|done|by right].
  rewrite generate_query_spec. cbn zeta. simpl. by rewrite Hr.
Qed.

Lemma get_schema_advances st k s :
  wf_state st s → k < recursion_limit → before n_get_schema st →
  advances n_get_schema st k s.
Proof.
  intros Hwf Hk (Hno & ms & c & tc & i & Hms & Hname & names & Harg).
  pose proof (get_schema_node_single st (started n_get_schema s) c tc i names) as Hfn.
  rewrite Hms, latest_ai_message_last in Hfn by done.
  specialize (Hfn eq_refl Hname Harg). cbn zeta in Hfn.
  eapply (advances_single n_get_schema get_schema_node);
    [done|done|done|exact Hfn|done|done| | |done|done].
  - intros j. by apply next_node_const.
  - intros j. split; [by apply has_result_snoc|done].
Qed.

Lemma check_query_advances st k s :
  wf_state st s → k < recursion_limit → before n_check_query st →
  advances n_check_query st k s.
Proof.
  intros Hwf Hk (Hno & ms & c & tc & i & Hms & Hname & q & Harg).
  destruct (Hllm "sql_db_query"
              [SystemMessage check_query_system_prompt None; HumanMessage q None] (world s))
    as (r & Hr & Hid & tc' & Htc & Hname' & Harg').
  destruct (llm_invoke _ _ _) as [x w1] eqn:E. simpl in Hr. subst x.
  pose proof (gen_next_review st k s ms c tc [] i q r w1 Hwf Hk Hms Harg E) as Hg.
  cbn zeta in Hg. rewrite Htc in Hg.
  eexists _, _, [_], _. split; [exact Hg|]. simpl.
  split_and!; [done..| |apply last_item_snoc|apply calls_not_final].
  split; [|by eexists _, _, _, _]. simpl. rewrite Hms in Hno.
  by apply has_result_snoc; [eapply has_result_init|].
Qed.

Lemma run_query_advances st k s :
  wf_state st s → k < recursion_limit → before n_run_query st →
  advances n_run_query st k s.
Proof.
  intros Hwf Hk (Hno & ms & c & tc & i & Hms & Hname & q & Harg).
  eexists _, _, [_], _. split; [by eapply gen_next_run_query|]. simpl.
  split_and!; [done..| |apply last_item_snoc|done].
  unfold after. simpl. rewrite has_result_app. apply orb_true_r.
Qed.

(** Every node on the way to the result hands on to the next. *)
Lemma node_advances n st k s :
  0 < way n → wf_state st s → k < recursion_limit → before n st → advances n st k s.
Proof.
  intros Hway Hwf Hk Hb. destruct n; simpl in Hway; try lia.
  - by apply list_tables_advances.
  - by apply call_get_schema_advances.
  - by apply get_schema_advances.
  - by apply generate_query_advances.
  - by apply check_query_advances.
  - by apply run_query_advances.
Qed.

End cooperating.

(** ** The loop *)

Lemma agent_loop_advance fuel sc n st k s :
  advances n st k s → is_Some (node_fn n) → wf_state st s →
  k < recursion_limit → sc < max_steps →
  ∃ st' s' calls,
    agent_loop (S fuel) sc (Running n st k) s
    = agent_loop fuel (sc + 1) (Running (follow n) st' (S k)) s'
    ∧ wf_state st' s' ∧ after n st'
    ∧ trace s' = trace s ++ EvNode n :: calls ∧ node_calls n calls
    ∧ length (queries_run calls) = runs n ∧ invocations calls = asks n.
Proof.
  intros (st' & s' & calls & m & Hg & Ht & Hq & Hi & Ha & Hl & Hf) [fn Hn] Hwf Hk Hsc.
  exists st', s', calls. split; [by eapply agent_loop_continue|].
  destruct (gen_next_wf (Running n st k) s _ _ _ Hwf Hg) as (Hwf' & _ & _).
  destruct (gen_next_segment n fn st k s Hn Hk) as (calls' & Ht' & Hc).
  rewrite Hg in Ht'. simpl in Ht'. rewrite Ht in Ht'. apply app_inv_head in Ht'.
  by simplify_eq.
Qed.

(** A run that is answered after the nodes [ns], one step earlier. *)
Lemma answered_cons (r : (Exn + option LoopEnd) * Env W) s s' n calls ns q a q' a' :
  trace s' = trace s ++ EvNode n :: calls → node_calls n calls →
  answered r s' ns q a →
  length (queries_run calls) + q = q' → invocations calls + a = a' →
  answered r s (n :: ns) q' a'.
Proof.
  intros Ht Hc (answer & t & Hr & Htr & Ht' & Hrun & Hq & Ha) <- <-.
  exists answer, (EvNode n :: calls ++ t).
  split_and!; [done|done| |by constructor| |].
  - by rewrite Ht', Ht, <- app_assoc.
  - change (EvNode n :: calls ++ t) with ([EvNode n] ++ calls ++ t).
    rewrite !queries_run_app, !length_app, Hq. done.
  - change (EvNode n :: calls ++ t) with ([EvNode n] ++ calls ++ t).
    rewrite !invocations_app, Ha. done.
Qed.

Section answering.
Hypothesis Hllm : cooperative.

(** Shown the result of the query, the service answers, and the loop ends
    with that answer. *)
Lemma agent_loop_final fuel sc st k s :
  wf_state st s → has_result (messages st) = true →
  k < recursion_limit → sc < max_steps →
  answered (agent_loop (S fuel) sc (Running n_generate_query st k) s) s
    [n_generate_query] 0 1.
Proof.
  intros Hwf Hres Hk Hsc.
  destruct (Hllm "sql_db_query"
              (SystemMessage generate_query_system_prompt None :: messages st) (world s))
    as (r & Hr & Hid & Hc).
  change (has_result (_ :: messages st)) with (has_result (messages st)) in Hc.
  rewrite Hres in Hc. unfold response_message in Hc. rewrite Hid in Hc. simpl in Hc.
  pose proof (final_answer_no_calls _ _ _ Hc) as Htc. rewrite Htc in Hc.
  destruct (llm_invoke _ _ _) as [x w1] eqn:E. simpl in Hr. subst x.
  assert (generate_query st (started n_generate_query s) =
          (inr [AIMessage (resp_content r) [] None],
           mkEnv w1 (trace (started n_generate_query s) ++
                     [EvInvoke ["sql_db_query"]
                        (SystemMessage generate_query_system_prompt None :: messages st)])
             (next_uuid s))) as Hfn.
  { rewrite generate_query_spec. cbn zeta. simpl. rewrite E. simpl.
    unfold response_message. by rewrite Hid, Htc. }
  pose proof (gen_next_single n_generate_query generate_query st k s _ _
                eq_refl Hk Hwf Hfn eq_refl) as Hg.
  cbn zeta in Hg. cbn [set_id] in Hg.
  rewrite next_node_spec, should_continue_END in Hg.
  erewrite agent_loop_answered; [|exact Hg|done|apply last_item_snoc|done].
  destruct (gen_next_segment n_generate_query generate_query st k s eq_refl Hk)
    as (calls & Ht & Hcalls).
  rewrite Hg in Ht. simpl in Ht. rewrite <- app_assoc in Ht.
  apply app_inv_head in Ht. injection Ht as <-.
  eexists (resp_content r), [_; _]. simpl.
  rewrite is_final_answer_plain in Hc. apply andb_true_iff in Hc as [Hc _].
  split_and!; [done|done|rewrite <- app_assoc; reflexivity| |done|done].
  apply (run_trace_node _ [] [_] []); [exact Hcalls|constructor].
Qed.

(** From a node on the way to the result, the loop ends with an answer. *)
Lemma agent_loop_answer j fuel sc n st k s :
  way n = S j → wf_state st s → before n st →
  sc + S j < max_steps → S j < fuel → k + S j < recursion_limit →
  answered (agent_loop fuel sc (Running n st k) s) s
    (path_from n (S (S j))) 1 (asks_from n).
Proof.
  revert fuel sc n st k s. induction j as [|j IH];
    intros fuel sc n st k s Hway Hwf Hb Hsc Hfuel Hk;
    (destruct fuel as [|fuel]; [lia|]);
    (destruct (agent_loop_advance fuel sc n st k s)
       as (st' & s' & calls & -> & Hwf' & Ha & Ht & Hc & Hq & Hi);
       [apply node_advances; (done || lia)|by destruct n|done|lia|lia|]);
    rewrite path_from_S by (by destruct n).
  - destruct n; simplify_eq/=. destruct fuel as [|fuel]; [lia|].
    eapply (answered_cons _ s s' _ calls _ 0 1); [done..| |by rewrite Hq|by rewrite Hi].
    apply agent_loop_final; [done|done|lia..].
  - assert (way (follow n) = S j ∧ runs n = 0 ∧ asks n + asks_from (follow n) = asks_from n
            ∧ before (follow n) st') as (Hway' & Hruns & Hasks & Hb').
    { by destruct n; simplify_eq/=. }
    eapply (answered_cons _ s s'); [done..| |by rewrite Hq, Hruns|by rewrite Hi].
    apply IH; (done || lia).
Qed.

End answering.

(** C12: a generation service that keeps to the protocol of the graph gets
    an answer shown: the question runs the first seven nodes of the path
    (tables, schema request, schema, draft, review, run, second draft), the
    database runs exactly one query, the service is called exactly four
    times, and the page shows an answer that is not empty. *)
Theorem cooperative_service_is_answered question s :
  cooperative →
  let t := new_events s (process_question question s).2 in
  ∃ answer q,
    (process_question question s).1 = inr (render (Answered answer))
    ∧ truthy answer = true
    ∧ run_trace (take 7 agent_path) t
    ∧ queries_run t = [q] ∧ invocations t = 4.
Proof.
  intros Hllm. cbn zeta. rewrite process_question_spec.
  erewrite agent_loop_continue;
    [|apply gen_next_question|unfold max_steps; lia|done..].
  destruct (agent_loop_answer Hllm 5 max_steps 1 n_list_tables
    (mkState [HumanMessage question (Some (IdUuid (next_uuid s)))]) 0
    (mkEnv (world s) (trace s) (S (next_uuid s))))
    as (answer & t & Hr & Htr & Ht & Hrun & Hq & Hi);
    [done|apply wf_question|done|unfold max_steps, recursion_limit; lia..|].
  destruct (agent_loop _ _ _ _) as [r s1]. simpl in *. subst r.
  unfold new_events. simpl. rewrite Ht, drop_app_length.
  destruct (queries_run t) as [|q [|??]] eqn:E; try done.
  by exists answer, q.
Qed.

End answer_lemmas.
