(* ===== verification/Failure.v ===== *)
(** * The run that ends with an error

    [generate_query] catches the exception of its first call of the service
    and calls the service again, without tools and outside any [try]: when
    the second call raises too, the exception leaves the node and the graph,
    and the page's [except] shows it with its traceback.  This file follows
    that run: the service serves the schema request and fails on every other
    call ([drafting_fails]); the question runs the four nodes up to the
    first draft and the page shows the error
    ([drafting_failure_is_shown]).

    The [except] branch of [call_get_schema] is not guarded either: it reads
    the schema with [db.get_table_info_no_throw], which catches only the
    errors of a missing table.  When the service and that read both raise,
    the exception of the read leaves the graph after two nodes
    ([schema_fallback_failure_is_shown]). *)

From stdpp Require Import base list strings gmap.
From S2P Require Import Prelude Streamlit Messages Collab Toolkit Nodes Graph Trace Driver Budget Answer.

Section failure.
Context {W : Type} `{!Generation W, !Database W}.
Implicit Types (s : Env W) (st : MessagesState).

(** The service serves the schema request and raises [e] on every other
    call. *)
Definition drafting_fails (e : Exn) : Prop :=
  (∀ msgs (w : W), ∃ r,
     (llm_invoke ["sql_db_schema"] msgs w).1 = inr r ∧ resp_id r = None
     ∧ calls_tool "sql_db_schema" r)
  ∧ (∀ tools msgs (w : W), tools ≠ ["sql_db_schema"] → (llm_invoke tools msgs w).1 = inl e).

End failure.

(** ** Lemmas *)

Section failure_lemmas.
Context {W : Type} `{!Generation W, !Database W}.
Implicit Types (s : Env W) (st : MessagesState).

(** When both calls of the service raise, the exception of the second
    leaves the step. *)
Lemma gen_next_drafting_fails st k s e :
  k < recursion_limit →
  (∀ tools msgs (w : W), tools ≠ ["sql_db_schema"] → (llm_invoke tools msgs w).1 = inl e) →
  ∃ calls,
    (gen_next (Running n_generate_query st k) s).1 = inl e
    ∧ trace (gen_next (Running n_generate_query st k) s).2
      = trace s ++ EvNode n_generate_query :: calls
    ∧ node_calls n_generate_query calls ∧ invocations calls = 2.
Proof.
  intros Hk Hllm.
  destruct (gen_next_segment n_generate_query generate_query st k s eq_refl Hk)
    as (calls & Ht & Hc).
  exists calls. revert Ht.
  rewrite (gen_next_running n_generate_query generate_query) by done.
  rewrite generate_query_spec. cbn zeta.
  rewrite !Hllm by done. simpl. rewrite <- app_assoc.
  intros Ht. split_and!; [done..|].
  apply app_inv_head in Ht. by injection Ht as <-.
Qed.

(** C21: when the drafting call of the generation service fails twice, the
    user is shown the exception with its traceback: the question runs the
    four nodes from [list_tables] to [generate_query], the second failure
    leaves the node uncaught, and the page renders it as an error. *)
Theorem drafting_failure_is_shown question s e :
  drafting_fails e →
  (process_question question s).1
    = inr [st_error ("An error occurred: " +:+ str_exn e);
           st_text "Detailed error:"; st_code_traceback e]
  ∧ run_trace (take 4 agent_path) (new_events s (process_question question s).2).
Proof.
  intros [Hschema Hfail]. rewrite process_question_spec.
  erewrite agent_loop_continue;
    [|apply gen_next_question|unfold max_steps; lia|done..].
  change (agent_loop max_steps (0 + 1)) with (agent_loop 10 1).
  set (st0 := mkState _). set (s0 := mkEnv _ _ _).
  destruct (agent_loop_advance 9 1 n_list_tables st0 0 s0)
    as (st1 & s1 & c1 & -> & Hwf1 & [Hno1 _] & Ht1 & Hc1 & _);
    [by apply list_tables_advances; [apply wf_question|unfold recursion_limit; lia|]
    |done|apply wf_question|unfold recursion_limit; lia|unfold max_steps; lia|].
  cbn [follow].
  destruct (Hschema (messages st1) (world s1)) as (r & Hr & Hid & Hcall).
  destruct (agent_loop_advance 8 (1 + 1) n_call_get_schema st1 1 s1)
    as (st2 & s2 & c2 & -> & Hwf2 & Hb2 & Ht2 & Hc2 & _);
    [by eapply schema_request_advances; [|unfold recursion_limit; lia|..]
    |done|done|unfold recursion_limit; lia|unfold max_steps; lia|].
  cbn [follow].
  destruct (agent_loop_advance 7 (1 + 1 + 1) n_get_schema st2 2 s2)
    as (st3 & s3 & c3 & -> & Hwf3 & _ & Ht3 & Hc3 & _);
    [by apply get_schema_advances; [|unfold recursion_limit; lia|]
    |done|done|unfold recursion_limit; lia|unfold max_steps; lia|].
  cbn [follow].
  destruct (gen_next_drafting_fails st3 3 s3 e) as (c4 & Hr4 & Ht4 & Hc4 & _);
    [unfold recursion_limit; lia|done|].
  rewrite agent_loop_S. destruct (gen_next _ s3) as [r4 s4]. simpl in *. subst r4.
  split; [done|]. unfold new_events. simpl.
  rewrite Ht4, Ht3, Ht2, Ht1. subst s0. simpl.
  rewrite <- !app_assoc, drop_app_length. simpl.
  do 3 (constructor; [done|]). rewrite <- (app_nil_r c4).
  constructor; [done|constructor].
Qed.

(** C38: when the schema request of the generation service raises and the
    schema read of the fallback raises too, the user is shown the exception
    of the schema read with its traceback: only [list_tables] and
    [call_get_schema] have run. *)
Theorem schema_fallback_failure_is_shown question s e w1 e' w2 :
  let conversation := opening question (next_uuid s) in
  llm_invoke ["sql_db_schema"] conversation (world s) = (inl e, w1) →
  get_table_info_no_throw (take 3 get_usable_table_names) w1 = (inl e', w2) →
  process_question question s =
  (inr [st_error ("An error occurred: " +:+ str_exn e');
        st_text "Detailed error:"; st_code_traceback e'],
   mkEnv w2
     (trace s ++ [EvNode n_list_tables; EvNode n_call_get_schema;
                  EvInvoke ["sql_db_schema"] conversation;
                  EvTableInfo (take 3 get_usable_table_names)])
     (next_uuid s + 4)).
Proof.
  intros conversation Hllm Hinfo.
  rewrite process_question_spec. unfold max_steps. rewrite agent_loop_opening.
  rewrite agent_loop_S.
  rewrite (gen_next_schema_fallback_raises _ _ _ e w1 e' w2);
    [|unfold recursion_limit; lia|apply Hllm|apply Hinfo].
  simpl. by rewrite <- app_assoc.
Qed.

End failure_lemmas.
