(* ===== verification/Orchestrator.v ===== *)
(** * The orchestrator of the specification, and the graph as its implementation

    Section 4.5 of the specification describes the control loop as a state
    machine: [ListTables → GetSchemaRequest → GetSchemaResult → GenerateQuery
    → {Terminal | CheckQuery} → RunQuery → GenerateQuery], with the branch
    after [GenerateQuery] decided by whether the latest assistant message
    carries a pending tool call, and a bound of ten transitions.  [Phase] and
    [transition] are that machine; [spec_run] is what a bounded run of it may
    execute.

    The graph of [Graph] implements it: [phase] maps the node the generator is
    about to run to the state of the machine, every step of the generator is
    a transition of the machine ([gen_next_refines]), and the nodes a question
    runs are a run of the machine from its entry state, within the bound
    ([process_question_refines]). *)

From stdpp Require Import base list strings gmap.
From S2P Require Import Prelude Streamlit Messages Collab Toolkit Nodes Graph Driver.

(** ** The machine of the specification *)

Inductive Phase : Type :=
| ListTables
| GetSchemaRequest
| GetSchemaResult
| GenerateQuery
| CheckQuery
| RunQuery
| Terminal.

#[export] Instance Phase_eq_dec : EqDecision Phase.
Proof. solve_decision. Defined.

(** [transition p pending q]: from [p] the machine goes to [q], where
    [pending] says whether the latest assistant message carries a tool call. *)
Inductive transition : Phase → bool → Phase → Prop :=
| t_list_tables pending : transition ListTables pending GetSchemaRequest
| t_schema_request pending : transition GetSchemaRequest pending GetSchemaResult
| t_schema_result pending : transition GetSchemaResult pending GenerateQuery
| t_check : transition GenerateQuery true CheckQuery
| t_answer : transition GenerateQuery false Terminal
| t_review pending : transition CheckQuery pending RunQuery
| t_run pending : transition RunQuery pending GenerateQuery.

#[export] Instance transition_dec p b q : Decision (transition p b q).
Proof. destruct p, b, q; ((left; constructor) || (right; inversion 1)). Defined.

(** The same, as a function. *)
Definition next_phase (p : Phase) (pending : bool) : option Phase :=
  match p with
  | ListTables => Some GetSchemaRequest
  | GetSchemaRequest => Some GetSchemaResult
  | GetSchemaResult => Some GenerateQuery
  | GenerateQuery => Some (if pending then CheckQuery else Terminal)
  | CheckQuery => Some RunQuery
  | RunQuery => Some GenerateQuery
  | Terminal => None
  end.

(** The states a run of the machine executes from [p] on, in order.  A run
    may stop after any state: when the bound is reached, or when a state
    fails. *)
Inductive spec_run : Phase → list Phase → Prop :=
| spec_stop p : spec_run p []
| spec_go p pending q l :
    transition p pending q → spec_run q l → spec_run p (p :: l).

(** The bound on the transitions of a run. *)
Definition step_budget : nat := 10.

(** ** The graph as its implementation *)

(** The state of the machine a node of the graph stands for. *)
Definition phase (n : NodeName) : option Phase :=
  match n with
  | START => None
  | n_list_tables => Some ListTables
  | n_call_get_schema => Some GetSchemaRequest
  | n_get_schema => Some GetSchemaResult
  | n_generate_query => Some GenerateQuery
  | n_check_query => Some CheckQuery
  | n_run_query => Some RunQuery
  | END => Some Terminal
  end.

(** Whether the last message of the conversation carries a tool call. *)
Definition pending (state : MessagesState) : bool :=
  match last_item (messages state) with
  | inr m => has_tool_calls m
  | inl _ => false
  end.

(** ** Lemmas *)

(** Build a run of the machine over a given list of states. *)
Ltac spec_run_solve :=
  first [ apply spec_stop
        | eapply (spec_go _ false); [|spec_run_solve]; constructor
        | eapply (spec_go _ true); [|spec_run_solve]; constructor ].

Section orchestrator_lemmas.
Context {W : Type} `{!Generation W, !Database W}.
Implicit Types (state : MessagesState) (s : Env W) (n : NodeName) (p q : Phase).

Lemma transition_next_phase p b q : transition p b q ↔ next_phase p b = Some q.
Proof.
  split; [by destruct 1|].
  destruct p, b; intros [= <-]; constructor.
Qed.

(** The machine is deterministic, and [Terminal] is its only final state. *)
Lemma transition_deterministic p b q q' :
  transition p b q → transition p b q' → q = q'.
Proof. rewrite !transition_next_phase. congruence. Qed.

Lemma transition_final p : (∀ b q, ¬ transition p b q) ↔ p = Terminal.
Proof.
  split.
  - intros H. destruct p; try done; by edestruct (H false); constructor.
  - intros -> b q. by inversion 1.
Qed.

(** The edge that leaves a node is a transition of the machine. *)
Lemma next_node_transition n state n' p :
  n ≠ END → phase n = Some p → next_node n state = inr n' →
  ∃ q, phase n' = Some q ∧ transition p (pending state) q.
Proof.
  rewrite next_node_spec. unfold pending, should_continue.
  destruct n; intros ? [= <-]; try done;
    try (intros [= <-]; eexists; split; [done|constructor]).
  destruct (last_item _) as [e|m]; [done|].
  destruct (has_tool_calls m); intros [= <-]; eexists; split; try done; constructor.
Qed.

(** A run of the machine may stop earlier. *)
Lemma spec_run_prefix p l l' : spec_run p l → l' `prefix_of` l → spec_run p l'.
Proof.
  intros Hr. revert l'. induction Hr as [p|p b q l Ht _ IH]; intros l' Hl.
  - apply prefix_nil_inv in Hl as ->. constructor.
  - destruct l' as [|p' l']; [constructor|].
    apply prefix_cons_inv_1 in Hl as Hp. apply prefix_cons_inv_2 in Hl. subst.
    econstructor; [done|by apply IH].
Qed.

(** The one path of the graph is a run of the machine. *)
Lemma agent_path_spec_run : spec_run ListTables (omap phase agent_path).
Proof. spec_run_solve. Qed.

(** C16: every step of the generator is a transition of the machine of the
    specification: the node that is pending after the step stands for the
    state the machine goes to from the state of the node that ran, the branch
    after [GenerateQuery] being taken on the last message of the new
    conversation; and nothing is pending after [Terminal]. *)
Theorem gen_next_refines n state k s state' g' s' p :
  phase n = Some p →
  gen_next (Running n state k) s = (inr (Some (state', g')), s') →
  ∃ n' q, g' = Running n' state' (S k) ∧ phase n' = Some q
          ∧ transition p (pending state') q.
Proof.
  intros Hp Hg. destruct (node_fn n) as [fn|] eqn:Hn; [|by (destruct n; simplify_eq/=)].
  destruct (decide (k < recursion_limit)) as [Hk|Hk];
    [|by unfold gen_next in Hg; rewrite Hn, decide_True in Hg by lia].
  rewrite (gen_next_running n fn) in Hg by done.
  destruct (fn state _) as [[e|upd] s1]; [done|]. cbn zeta in Hg.
  destruct (next_node _ _) as [e|n'] eqn:Hnext; [done|]. simplify_eq.
  destruct (next_node_transition n _ n' p (node_fn_not_END _ _ Hn) Hp Hnext)
    as (q & Hq & Ht).
  by exists n', q.
Qed.

(** C15: the nodes a question runs are a run of the machine of the
    specification from its entry state, of at most [step_budget] states. *)
Theorem process_question_refines question s :
  let ran := nodes_run (new_events s (process_question question s).2) in
  spec_run ListTables (omap phase ran) ∧ length (omap phase ran) ≤ step_budget.
Proof.
  intros ran. pose proof (process_question_nodes question s) as Hp. fold ran in Hp.
  change (path_from n_list_tables max_steps) with agent_path in Hp.
  apply (prefix_omap phase) in Hp. split.
  - eapply spec_run_prefix; [apply agent_path_spec_run|done].
  - by apply prefix_length in Hp.
Qed.

End orchestrator_lemmas.
