(* ===== verification/Page.v ===== *)
(** * The page: one run of the script, and a session of runs

    [src/app.py] is run from top to bottom each time the user interacts with
    the page.  A run reads the settings and stops if they are not valid
    (lines 48-67), stores the key of the generation service in the process
    environment (line 77), builds the agent unless the session holds one
    (lines 80-219) and stops if that fails, shows the form and handles it
    (lines 222-271), and fills the sidebar (lines 274-289).  [st.stop()] ends
    the run on the spot: what stands after it in the script is not shown.

    Building the agent is the body of the [try] of lines 82-214
    ([build_agent]): the client of the generation service and the database
    are made, which are calls of the [Connector] and may raise; the two tools
    are looked up in the toolkit with [next], which raises when there is no
    tool of that name; the graph is compiled, which raises when it is not
    well formed.  Whatever is raised there is shown, and the run stops.

    [page] is one run: it gives what is shown, in order, and the state after
    the run.  The state a run leaves behind is [PageState]: the sources of
    the settings (the run writes to the environment) and what
    [st.session_state] holds, the agent.  The agent is a compiled graph; what
    the model keeps of it is what it was built from ([Agent]), the graph
    itself being [Graph].  [step] is what can happen to a session: a run of
    the script, or a change of the settings by whoever operates the page. *)

From stdpp Require Import base list strings gmap relations.
From S2P Require Import Prelude Streamlit Credentials Messages Collab Toolkit Nodes Graph Driver.

(** [ChatGroq(groq_api_key=..., model=..., temperature=...)] *)
Record Llm : Type := mkLlm {
  groq_api_key : string;
  model : string;
  temperature : nat;
}.

(** What the agent of the session was built from: the chat model and the
    URL of the database. *)
Record Agent : Type := mkAgent {
  agent_llm : Llm;
  agent_url : string;
}.

Record PageState : Type := mkPage {
  sources : Sources;
  session_agent : option Agent;
}.

(** The agent is built from settings that passed the validation, with the
    model and the temperature the script fixes. *)
Definition agent_ok (a : Agent) : Prop :=
  groq_api_key (agent_llm a) ≠ ""
  ∧ model (agent_llm a) = "llama3-70b-8192"
  ∧ temperature (agent_llm a) = 0
  ∧ ∃ c, agent_url a = postgres_url c ∧ POSTGRES_PASSWORD c ≠ "".

Definition session_ok (p : PageState) : Prop :=
  ∀ a, session_agent p = Some a → agent_ok a.

Section page.
Context {W : Type} `{!Generation W, !Database W, !Connector W}.
Implicit Types (s : Env W) (p : PageState).

(** [llm = ChatGroq(groq_api_key=..., model=..., temperature=...)] *)
Definition chat_model (llm : Llm) : M (Env W) () :=
  λ s, let '(r, w) := ChatGroq (groq_api_key llm) (model llm) (temperature llm)
                        (world s) in
       (r, mkEnv w (trace s) (next_uuid s)).

(** [db = SQLDatabase.from_uri(postgres_url)] *)
Definition connect (url : string) : M (Env W) () :=
  let* r := call (EvConnect url) (from_uri url) in
  lift r.

(** The environment after the client was made. *)
Definition with_model (llm : Llm) s : Env W :=
  mkEnv (ChatGroq (groq_api_key llm) (model llm) (temperature llm) (world s)).2
    (trace s) (next_uuid s).

(** The environment after the attempt to open the database. *)
Definition connected (url : string) s : Env W :=
  mkEnv (from_uri url (world s)).2 (trace s ++ [EvConnect url]) (next_uuid s).

(** The body of the [try] of lines 82-214: the chat model, the database, the
    two tools the nodes are made of, the graph. *)
Definition build_agent (credentials : Credentials) : M (Env W) Agent :=
  let llm := mkLlm (GROQ_API_KEY credentials) "llama3-70b-8192" 0 in
  let postgres_url := postgres_url credentials in
  let* _ := chat_model llm in
  let* _ := connect postgres_url in
  let* get_schema_tool := lift (next_tool "sql_db_schema" tools) in
  let* run_query_tool := lift (next_tool "sql_db_query" tools) in
  let* _ := lift compile in
  ret (mkAgent llm postgres_url).

(** The agent that is built from the settings, when it is built. *)
Definition agent_of (credentials : Credentials) : Agent :=
  mkAgent (mkLlm (GROQ_API_KEY credentials) "llama3-70b-8192" 0)
    (postgres_url credentials).

(** [if 'agent' not in st.session_state: ...]: what is shown and the agent
    of the session, [None] after [st.stop()]. *)
Definition initialise (credentials : Credentials) (agent : option Agent)
    : M (Env W) (list Ui * option Agent) :=
  match agent with
  | Some a => ret ([], Some a)
  | None =>
      try_except
        (let* a := build_agent credentials in
         ret ([st_success "✅ SQL Agent initialized successfully!"], Some a))
        (λ e, ret ([st_error ("❌ Failed to initialize SQL Agent: " +:+ str_exn e)],
                   None))
  end.

(** What every run shows first. *)
Definition page_head : list Ui :=
  [st_set_page_config "SQL Agent" "🗄️" "wide";
   st_title "🗄️ Natural Language to SQL Agent"].

(** [with st.form("query_form"): ...] *)
Definition query_form : list Ui :=
  st_form "query_form" <$>
  [st_text_area "Enter your question:"
     "e.g., Show me the top 5 customers by total purchases" 100;
   st_form_submit_button "Ask SQL Agent" "primary"].

(** [with st.sidebar: ...] *)
Definition sidebar (credentials : Credentials) : list Ui :=
  st_sidebar <$>
  [st_header "Database Info";
   st_write ("**Database:** " +:+ POSTGRES_DB credentials);
   st_write ("**Host:** " +:+ POSTGRES_HOST credentials);
   st_write ("**Port:** " +:+ POSTGRES_PORT credentials);
   st_header "How to use";
   st_write "1. Enter your question in natural language";
   st_write "2. Click 'Ask SQL Agent'";
   st_write "3. The agent will convert your question to SQL and return the results";
   st_header "Example Questions";
   st_write "- Show me the top 5 customers by total purchases";
   st_write "- What are the most popular music genres?";
   st_write "- List all albums by a specific artist";
   st_write "- How many tracks are in each playlist?"].

(** [os.environ["GROQ_API_KEY"] = GROQ_API_KEY] *)
Definition set_api_key (key : string) (src : Sources) : Sources :=
  mkSources (secrets src) (<["GROQ_API_KEY" := key]> (environ src)).

(** One run of the script, for what the widgets of the form return. *)
Definition page (submitted : bool) (question : string) (p : PageState)
    : M (Env W) (list Ui * PageState) :=
  let credentials := get_credentials (sources p) in
  match validate credentials with
  | Some ui => ret (page_head ++ ui, p)
  | None =>
      let src := set_api_key (GROQ_API_KEY credentials) (sources p) in
      let* r := initialise credentials (session_agent p) in
      match r with
      | (ui1, None) => ret (page_head ++ ui1, mkPage src None)
      | (ui1, Some a) =>
          let* ui2 := ask submitted question in
          ret (page_head ++ ui1
                 ++ [st_markdown "Ask questions about your database in natural language!"]
                 ++ query_form ++ ui2 ++ sidebar credentials,
               mkPage src (Some a))
      end
  end.

(** What can happen to a session: the script runs, or the settings change. *)
Inductive step : PageState * Env W → PageState * Env W → Prop :=
| step_run submitted question p s ui p' s' :
    page submitted question p s = (inr (ui, p'), s') →
    step (p, s) (p', s')
| step_configure p s src :
    step (p, s) (mkPage src (session_agent p), s).

End page.

(** ** Lemmas *)

Section page_lemmas.
Context {W : Type} `{!Generation W, !Database W, !Connector W}.
Implicit Types (s : Env W) (p : PageState) (c : Credentials) (a : Agent).

Lemma connect_spec url s :
  connect url s = ((from_uri url (world s)).1, connected url s).
Proof.
  unfold connect, bind. by rewrite call_spec.
Qed.

Lemma chat_model_spec llm s :
  chat_model llm s =
  ((ChatGroq (groq_api_key llm) (model llm) (temperature llm) (world s)).1,
   with_model llm s).
Proof. unfold chat_model, with_model. by destruct (ChatGroq _ _ _ _). Qed.

(** Building the agent, by cases: making the client raises; opening the
    database raises; both succeed.  The lookups of the tools and the
    compilation of the graph succeed. *)
Lemma build_agent_spec c s :
  build_agent c s =
  let s1 := with_model (agent_llm (agent_of c)) s in
  match (ChatGroq (GROQ_API_KEY c) "llama3-70b-8192" 0 (world s)).1 with
  | inl e => (inl e, s1)
  | inr _ =>
      (sum_map id (λ _, agent_of c) (from_uri (postgres_url c) (world s1)).1,
       connected (postgres_url c) s1)
  end.
Proof.
  unfold build_agent, bind. rewrite chat_model_spec. cbn zeta.
  destruct (ChatGroq _ _ _ _).1 as [e|[]]; [done|]. rewrite connect_spec.
  by destruct (from_uri _ _).1 as [e|[]].
Qed.

(** What building the agent adds to the trace: at most the opening of the
    database. *)
Lemma build_agent_trace c s :
  trace (build_agent c s).2 = trace s
  ∨ trace (build_agent c s).2 = trace s ++ [EvConnect (postgres_url c)].
Proof. rewrite build_agent_spec. cbn zeta. destruct (ChatGroq _ _ _ _).1; auto. Qed.

Lemma build_agent_inr c s a : (build_agent c s).1 = inr a → a = agent_of c.
Proof.
  rewrite build_agent_spec. cbn zeta. destruct (ChatGroq _ _ _ _).1; [done|].
  simpl. destruct (from_uri _ _).1; [done|]. by intros [= <-].
Qed.

(** The initialisation, by cases: the session holds an agent; the agent is
    built; building it raises. *)
Lemma initialise_spec c agent s :
  initialise c agent s =
  match agent with
  | Some a => (inr ([], Some a), s)
  | None =>
      (inr match (build_agent c s).1 with
           | inr a => ([st_success "✅ SQL Agent initialized successfully!"], Some a)
           | inl e =>
               ([st_error ("❌ Failed to initialize SQL Agent: " +:+ str_exn e)], None)
           end,
       (build_agent c s).2)
  end.
Proof.
  destruct agent as [a|]; [done|]. unfold initialise, try_except, bind.
  by destruct (build_agent c s) as [[e|a] s1].
Qed.

(** A run whose settings are valid, by what the initialisation gives. *)
Lemma page_valid submitted question p s :
  validate (get_credentials (sources p)) = None →
  page submitted question p s =
  let c := get_credentials (sources p) in
  let src := set_api_key (GROQ_API_KEY c) (sources p) in
  match initialise c (session_agent p) s with
  | (inr (ui1, Some a), s1) =>
      match ask submitted question s1 with
      | (inr ui2, s2) =>
          (inr (page_head ++ ui1
                  ++ [st_markdown "Ask questions about your database in natural language!"]
                  ++ query_form ++ ui2 ++ sidebar c,
                mkPage src (Some a)), s2)
      | (inl e, s2) => (inl e, s2)
      end
  | (inr (ui1, None), s1) => (inr (page_head ++ ui1, mkPage src None), s1)
  | (inl e, s1) => (inl e, s1)
  end.
Proof.
  intros Hv. unfold page. rewrite Hv. unfold bind.
  destruct (initialise _ _ s) as [[e|[ui1 [a|]]] s1]; done.
Qed.

(** A run with valid settings that has an agent after the initialisation:
    the form is handled and the run reaches the end. *)
Lemma page_agent submitted question p s ui1 a s1 :
  let c := get_credentials (sources p) in
  validate c = None →
  initialise c (session_agent p) s = (inr (ui1, Some a), s1) →
  ∃ ui2, (ask submitted question s1).1 = inr ui2
    ∧ page submitted question p s =
      (inr (page_head ++ ui1
              ++ [st_markdown "Ask questions about your database in natural language!"]
              ++ query_form ++ ui2 ++ sidebar c,
            mkPage (set_api_key (GROQ_API_KEY c) (sources p)) (Some a)),
       (ask submitted question s1).2).
Proof.
  intros c Hv Hi. rewrite page_valid by done. cbn zeta. fold c. rewrite Hi.
  destruct (ask_never_raises submitted question s1) as (ui2 & s2 & ->). by exists ui2.
Qed.

(** A run with valid settings whose initialisation fails. *)
Lemma page_no_agent submitted question p s e :
  let c := get_credentials (sources p) in
  validate c = None → session_agent p = None → (build_agent c s).1 = inl e →
  page submitted question p s =
  (inr (page_head ++ [st_error ("❌ Failed to initialize SQL Agent: " +:+ str_exn e)],
        mkPage (set_api_key (GROQ_API_KEY c) (sources p)) None),
   (build_agent c s).2).
Proof.
  intros c Hv Ha He. rewrite page_valid by done. cbn zeta.
  rewrite initialise_spec, Ha. fold c. by rewrite He.
Qed.

Lemma sidebar_in_sidebar c : Forall (λ u, in_sidebar u = true) (sidebar c).
Proof. unfold sidebar. rewrite Forall_fmap. by apply Forall_true. Qed.

(** What is shown when the run stops in the validation names an error and
    nothing of the sidebar. *)
Lemma validate_shown c ui :
  validate c = Some ui →
  Forall (λ u, in_sidebar u = false) ui ∧ Exists (λ u, ∃ body, u = st_error body) ui.
Proof.
  unfold validate. repeat case_match; intros; simplify_eq.
  all: split; [repeat apply Forall_cons_2; done|apply Exists_cons_hd; by eexists].
Qed.

(** A run that is stopped shows the head and what the stop shows. *)
Lemma stopped_shown ui :
  Forall (λ u, in_sidebar u = false) ui → Exists (λ u, ∃ body, u = st_error body) ui →
  page_head `prefix_of` page_head ++ ui
  ∧ Forall (λ u, in_sidebar u = false) (page_head ++ ui)
  ∧ Exists (λ u, ∃ body, u = st_error body) (page_head ++ ui).
Proof.
  intros Hf He. split_and!; [by apply prefix_app_r| |apply Exists_app; by right].
  apply Forall_app. split; [repeat apply Forall_cons_2; done|done].
Qed.

(** A run that reaches the end shows the head first and the sidebar last. *)
Lemma finished_shown c ui :
  page_head `prefix_of` page_head ++ ui ++ sidebar c
  ∧ sidebar c `suffix_of` page_head ++ ui ++ sidebar c.
Proof.
  split; [by apply prefix_app_r|]. rewrite app_assoc. by apply suffix_app_r.
Qed.

(** The initialisation does not raise: it gives an agent, or shows an
    error and gives none. *)
Lemma initialise_cases c agent s :
  (∃ ui1 a, (initialise c agent s).1 = inr (ui1, Some a))
  ∨ (∃ e, agent = None ∧ (build_agent c s).1 = inl e).
Proof.
  rewrite initialise_spec. destruct agent as [a|]; [left; by eexists _, _|].
  destruct (build_agent c s).1 as [e|a]; [right; by eexists|left; by eexists _, _].
Qed.

(** A run of the script returns. *)
Lemma page_returns submitted question p s :
  ∃ r, (page submitted question p s).1 = inr r.
Proof.
  set (c := get_credentials (sources p)).
  destruct (validate c) as [ui|] eqn:Hv; [unfold page; fold c; rewrite Hv; by eexists|].
  destruct (initialise_cases c (session_agent p) s) as [(ui1 & a & Hi)|(e & Ha & He)].
  - destruct (initialise c (session_agent p) s) as [r s1] eqn:Hi'. simpl in Hi. subst r.
    destruct (page_agent submitted question p s ui1 a s1 Hv Hi') as (ui2 & _ & ->).
    by eexists.
  - rewrite (page_no_agent submitted question p s e Hv Ha He). by eexists.
Qed.

(** C20: a run of the script on settings that are texts never raises and
    always shows the page configuration and the title first.  Either it
    reaches the end, the sidebar is the last thing shown and the session holds
    an agent; or it was stopped: then an error is shown and the sidebar is
    not. *)
Theorem page_total submitted question p s :
  ∃ ui p', (page submitted question p s).1 = inr (ui, p')
    ∧ page_head `prefix_of` ui
    ∧ (sidebar (get_credentials (sources p)) `suffix_of` ui ∧ is_Some (session_agent p')
       ∨ Forall (λ u, in_sidebar u = false) ui
         ∧ Exists (λ u, ∃ body, u = st_error body) ui).
Proof.
  set (c := get_credentials (sources p)).
  destruct (validate c) as [ui|] eqn:Hv.
  { unfold page. fold c. rewrite Hv. destruct (validate_shown _ _ Hv) as [Hf He].
    destruct (stopped_shown ui Hf He) as (?&?&?). eexists _, _. by eauto. }
  destruct (initialise_cases c (session_agent p) s) as [(ui1 & a & Hi)|(e & Ha & He)].
  - destruct (initialise c (session_agent p) s) as [r s1] eqn:Hi'. simpl in Hi. subst r.
    destruct (page_agent submitted question p s ui1 a s1 Hv Hi') as (ui2 & _ & ->).
    destruct (finished_shown c (ui1 ++ [st_markdown
      "Ask questions about your database in natural language!"] ++ query_form ++ ui2))
      as [??].
    eexists _, _. rewrite <- !app_assoc in *. by eauto.
  - rewrite (page_no_agent submitted question p s e Hv Ha He).
    destruct (stopped_shown
      [st_error ("❌ Failed to initialize SQL Agent: " +:+ str_exn e)]) as (?&?&?);
      [by apply Forall_singleton|apply Exists_cons_hd; by eexists|].
    eexists _, _. by eauto.
Qed.

(** C27: when the session holds an agent and the settings are valid, the
    run shows the form and its outcome between the head and the sidebar, no
    client is made and the database is not opened again, and the agent of the
    session is kept as it is, whatever the settings now say: the sidebar shows
    the settings of this run, the agent is bound to those it was built from. *)
Theorem page_with_agent submitted question p s a :
  let c := get_credentials (sources p) in
  validate c = None → session_agent p = Some a →
  ∃ ui2, (ask submitted question s).1 = inr ui2
    ∧ page submitted question p s =
      (inr (page_head
              ++ [st_markdown "Ask questions about your database in natural language!"]
              ++ query_form ++ ui2 ++ sidebar c,
            mkPage (set_api_key (GROQ_API_KEY c) (sources p)) (Some a)),
       (ask submitted question s).2).
Proof.
  intros c Hv Ha.
  apply (page_agent submitted question p s [] a s); [done|]. by rewrite Ha.
Qed.

(** C26: when building the agent raises, whether the client of the
    generation service cannot be made or the database cannot be opened, the run
    shows the error and stops: the form and the sidebar are not shown, the
    question is not handled, nothing reaches the generation service and no
    query reaches the database, and the session stays without an agent, so
    that the next run tries again; the key is in the environment all the
    same. *)
Theorem page_init_failure submitted question p s e :
  let c := get_credentials (sources p) in
  let s1 := (build_agent c s).2 in
  validate c = None → session_agent p = None → (build_agent c s).1 = inl e →
  page submitted question p s =
  (inr (page_head ++ [st_error ("❌ Failed to initialize SQL Agent: " +:+ str_exn e)],
        mkPage (set_api_key (GROQ_API_KEY c) (sources p)) None), s1)
  ∧ invocations (new_events s s1) = 0 ∧ queries_run (new_events s s1) = [].
Proof.
  intros c s1 Hv Ha He. split; [by apply page_no_agent|]. unfold s1, new_events.
  destruct (build_agent_trace c s) as [->| ->].
  - by rewrite drop_ge.
  - by rewrite drop_app_length.
Qed.

(** C39: building the agent raises exactly when making the client of the
    generation service raises, or the client is made and opening the database
    raises: the two tools are found in the toolkit and the graph passes the
    validation of [compile].  When nothing raises the agent is the one of the
    settings, and the database was opened once. *)
Theorem build_agent_raises c s :
  let llm := agent_llm (agent_of c) in
  let made := ChatGroq (GROQ_API_KEY c) "llama3-70b-8192" 0 (world s) in
  let opened := from_uri (postgres_url c) made.2 in
  build_agent c s =
  match made.1, opened.1 with
  | inl e, _ => (inl e, mkEnv made.2 (trace s) (next_uuid s))
  | inr _, inl e =>
      (inl e, mkEnv opened.2 (trace s ++ [EvConnect (postgres_url c)]) (next_uuid s))
  | inr _, inr _ =>
      (inr (agent_of c),
       mkEnv opened.2 (trace s ++ [EvConnect (postgres_url c)]) (next_uuid s))
  end.
Proof.
  rewrite build_agent_spec. cbn zeta. destruct (ChatGroq _ _ _ _).1; [done|].
  by destruct (from_uri _ _).1.
Qed.

(** The first run of a session with valid settings, a client that can be
    made and a database that opens: the agent is built from these settings. *)
Lemma page_first_run submitted question p s :
  let c := get_credentials (sources p) in
  let s1 := (build_agent c s).2 in
  validate c = None → session_agent p = None →
  (build_agent c s).1 = inr (agent_of c) →
  ∃ ui2, (ask submitted question s1).1 = inr ui2
    ∧ page submitted question p s =
      (inr (page_head ++ [st_success "✅ SQL Agent initialized successfully!"]
              ++ [st_markdown "Ask questions about your database in natural language!"]
              ++ query_form ++ ui2 ++ sidebar c,
            mkPage (set_api_key (GROQ_API_KEY c) (sources p)) (Some (agent_of c))),
       (ask submitted question s1).2).
Proof.
  intros c s1 Hv Ha He. apply (page_agent submitted question p s); [done|].
  rewrite initialise_spec, Ha. fold c. by rewrite He.
Qed.

(** An agent built from valid settings is as the session wants it. *)
Lemma built_agent_ok c : validate c = None → agent_ok (agent_of c).
Proof. intros [Hk Hp]%validate_None. split_and!; [done..|by exists c]. Qed.

(** A run keeps the agent the session holds, and builds none but from valid
    settings. *)
Lemma page_session submitted question p s ui p' s' :
  page submitted question p s = (inr (ui, p'), s') →
  (∀ a, session_agent p = Some a → session_agent p' = Some a)
  ∧ (session_ok p → session_ok p').
Proof.
  set (c := get_credentials (sources p)).
  destruct (validate c) as [vui|] eqn:Hv.
  { unfold page. fold c. rewrite Hv. by intros [= _ <- _]. }
  destruct (initialise_cases c (session_agent p) s) as [(ui1 & a & Hi)|(e & Ha & He)].
  - destruct (initialise c (session_agent p) s) as [r s1] eqn:Hi'. simpl in Hi. subst r.
    destruct (page_agent submitted question p s ui1 a s1 Hv Hi') as (ui2 & _ & ->).
    intros [= _ <- _]. simpl. rewrite initialise_spec in Hi'.
    destruct (session_agent p) as [a0|] eqn:Ha.
    + injection Hi' as _ <- _. split; [done|]. intros Hok a' [= <-]. by apply Hok.
    + split; [done|]. intros _ a' [= <-].
      destruct (build_agent c s).1 as [?|a1] eqn:Hb; [done|].
      injection Hi' as _ <- _. apply build_agent_inr in Hb as ->. by apply built_agent_ok.
  - rewrite (page_no_agent submitted question p s e Hv Ha He). intros [= _ <- _].
    simpl. rewrite Ha. split; [done|]. by intros _ a.
Qed.

Lemma step_session x y :
  step x y →
  (∀ a, session_agent x.1 = Some a → session_agent y.1 = Some a)
  ∧ (session_ok x.1 → session_ok y.1).
Proof.
  destruct 1 as [submitted question p s ui p' s' Hp|p s src]; [|done].
  by eapply page_session.
Qed.

(** C9: over a session, through any runs of the script and any changes of
    the settings between them, the agent the session holds was built from
    settings that passed the validation, with the model and the temperature
    the script fixes, and once the session holds an agent it keeps that very
    agent: it is neither rebuilt nor dropped. *)
Theorem session_invariant x y :
  rtc step x y → session_ok x.1 →
  session_ok y.1 ∧ ∀ a, session_agent x.1 = Some a → session_agent y.1 = Some a.
Proof.
  induction 1 as [x|x y z Hxy _ IH]; [done|]. intros Hok.
  destruct (step_session x y Hxy) as [Hkeep Hok']. destruct (IH (Hok' Hok)) as [? Hkeep'].
  split; [done|]. intros a Ha. by apply Hkeep', Hkeep.
Qed.

End page_lemmas.
