(* ===== verification/Secrets.v ===== *)
(** * Settings that are not texts

    [Credentials] and [Page] take every setting to be a text, which is what
    the environment gives.  The secrets file is a TOML file: a setting written
    there without quotes ([POSTGRES_PORT = 5432]) is a number, and
    [st.secrets.get] returns it as one.  The script uses three settings as
    texts without looking: the password and the user in [quote_plus] (lines
    70-71) and the key of the generation service in the assignment to
    [os.environ] (line 77).  Each raises a [TypeError] for a value that is
    not a [str], outside of any [try]; the other three settings are only
    formatted into texts (lines 74 and 276-278), which works for any value.

    [app] is the run of the page on the settings as the sources give
    them: the two guards on their truth values, the three uses as texts, then
    the run of [page] on the settings formatted as texts.  On settings that
    are texts it is [page] ([app_on_texts]); it raises exactly when a
    setting used as a text is not one and the guards let it through
    ([app_raises]). *)

From stdpp Require Import base list strings gmap.
From S2P Require Import Prelude Streamlit Credentials Messages Collab Toolkit Nodes Graph Driver Page.

(** A value of [st.secrets]: a [str], or a value of another type, of which
    the script meets the name of the type, the truth value and the text
    [str(v)]. *)
Inductive Setting : Type :=
| Str (s : string)
| NotStr (type_name : string) (truth : bool) (text : string).

#[export] Instance Setting_eq_dec : EqDecision Setting.
Proof. solve_decision. Defined.

(** Where the settings come from: [st.secrets] as in [Sources], with values
    of any type, and [os.environ], whose values are texts. *)
Record RawSources : Type := mkRaw {
  raw_secrets : option (Exn + gmap string Setting);
  raw_environ : gmap string string;
}.

(** [not v] is [negb (truth_value v)]. *)
Definition truth_value (v : Setting) : bool :=
  match v with
  | Str s => truthy s
  | NotStr _ b _ => b
  end.

(** [f"{v}"] *)
Definition format (v : Setting) : string :=
  match v with
  | Str s => s
  | NotStr _ _ t => t
  end.

(** [quote_plus(v)]: a value that is neither [str] nor [bytes] is handed to
    [quote_from_bytes], which raises. *)
Definition quote_plus_value (v : Setting) : Exn + string :=
  match v with
  | Str s => inr (quote_plus s)
  | NotStr _ _ _ => inl (Error "TypeError" "quote_from_bytes() expected bytes")
  end.

(** [os.environ[key] = v]: the value is encoded, which raises unless it is a
    [str]. *)
Definition environ_value (v : Setting) : Exn + string :=
  match v with
  | Str s => inr s
  | NotStr ty _ _ => inl (Error "TypeError" ("str expected, not " +:+ ty))
  end.

(** [credentials[key]], for the [get] of [get_credentials] in use. *)
Definition read (raw : RawSources) (key fallback : string) : Setting :=
  match raw_secrets raw with
  | Some (inr sec) => default (Str fallback) (sec !! key)
  | Some (inl _) | None => Str (mapping_get (raw_environ raw) key fallback)
  end.

(** The sources with every setting formatted as a text. *)
Definition texts (raw : RawSources) : Sources :=
  mkSources (sum_map id (λ sec : gmap string Setting, format <$> sec) <$> raw_secrets raw)
    (raw_environ raw).

(** Sources whose settings are texts. *)
Definition of_texts (src : Sources) : RawSources :=
  mkRaw (sum_map id (λ sec : gmap string string, Str <$> sec) <$> secrets src)
    (environ src).

(** The settings lines 70-77 use as texts, in the order they are used. *)
Definition used_as_text (raw : RawSources) : list (Exn + string) :=
  [quote_plus_value (read raw "POSTGRES_PASSWORD" "");
   quote_plus_value (read raw "POSTGRES_USER" "postgres");
   environ_value (read raw "GROQ_API_KEY" "")].

(** The first exception of a list of results. *)
Definition first_raised {A} (rs : list (Exn + A)) : option Exn :=
  head (omap (λ r, match r with inl e => Some e | inr _ => None end) rs).

Section app.
Context {W : Type} `{!Generation W, !Database W, !Connector W}.

(** One run of the script on the settings as the sources give them. *)
Definition app (submitted : bool) (question : string) (raw : RawSources)
    (agent : option Agent) : M (Env W) (list Ui * PageState) :=
  let p := mkPage (texts raw) agent in
  if negb (truth_value (read raw "GROQ_API_KEY" "")) then
    ret (page_head ++ key_missing, p)
  else if negb (truth_value (read raw "POSTGRES_PASSWORD" "")) then
    ret (page_head ++ password_missing, p)
  else
    let* encoded_password := lift (quote_plus_value (read raw "POSTGRES_PASSWORD" "")) in
    let* encoded_user := lift (quote_plus_value (read raw "POSTGRES_USER" "postgres")) in
    let* _ := lift (environ_value (read raw "GROQ_API_KEY" "")) in
    page submitted question p.

End app.

(** ** Lemmas *)

Section app_lemmas.
Context {W : Type} `{!Generation W, !Database W, !Connector W}.
Implicit Types (s : Env W) (raw : RawSources) (src : Sources) (v : Setting).

Lemma texts_of_texts src : texts (of_texts src) = src.
Proof.
  destruct src as [[[e|sec]|] env]; unfold texts, of_texts; simpl; [done| |done].
  rewrite <- map_fmap_compose. by rewrite (map_fmap_ext _ id) by done; rewrite map_fmap_id.
Qed.

(** A setting of sources that are texts is the text [get_credentials] reads. *)
Lemma read_of_texts src key fallback :
  read (of_texts src) key fallback =
  Str (match secrets src with
       | Some (inr sec) => mapping_get sec key fallback
       | _ => mapping_get (environ src) key fallback
       end).
Proof.
  unfold read, of_texts, mapping_get. destruct src as [[[e|sec]|] env]; simpl; [done| |done].
  rewrite lookup_fmap. by destruct (sec !! key).
Qed.

Lemma read_key src :
  read (of_texts src) "GROQ_API_KEY" "" = Str (GROQ_API_KEY (get_credentials src)).
Proof. rewrite read_of_texts. unfold get_credentials. by destruct (secrets src) as [[]|]. Qed.

Lemma read_password src :
  read (of_texts src) "POSTGRES_PASSWORD" "" = Str (POSTGRES_PASSWORD (get_credentials src)).
Proof. rewrite read_of_texts. unfold get_credentials. by destruct (secrets src) as [[]|]. Qed.

Lemma read_user src :
  read (of_texts src) "POSTGRES_USER" "postgres" = Str (POSTGRES_USER (get_credentials src)).
Proof. rewrite read_of_texts. unfold get_credentials. by destruct (secrets src) as [[]|]. Qed.

(** The run, by cases: stopped by a guard; a setting used as a text is not
    one; the run of [page]. *)
Lemma app_spec submitted question raw agent s :
  app submitted question raw agent s =
  let p := mkPage (texts raw) agent in
  if negb (truth_value (read raw "GROQ_API_KEY" "")) then
    (inr (page_head ++ key_missing, p), s)
  else if negb (truth_value (read raw "POSTGRES_PASSWORD" "")) then
    (inr (page_head ++ password_missing, p), s)
  else match first_raised (used_as_text raw) with
       | Some e => (inl e, s)
       | None => page submitted question p s
       end.
Proof.
  unfold app, used_as_text, first_raised, bind. cbn zeta.
  destruct (truth_value (read raw "GROQ_API_KEY" "")); [|done].
  destruct (truth_value (read raw "POSTGRES_PASSWORD" "")); [|done]. simpl.
  destruct (quote_plus_value (read raw "POSTGRES_PASSWORD" "")); [done|].
  destruct (quote_plus_value (read raw "POSTGRES_USER" "postgres")); [done|].
  by destruct (environ_value (read raw "GROQ_API_KEY" "")).
Qed.

(** On settings that are texts, the run on the settings as the sources
    give them is the run of [page]: what is shown of a run of [page] is shown
    of the script whenever the secrets file holds texts only, or is not
    there. *)
Lemma app_on_texts submitted question p s :
  app submitted question (of_texts (sources p)) (session_agent p) s =
  page submitted question p s.
Proof.
  rewrite app_spec. cbn zeta. rewrite texts_of_texts, read_key, read_password.
  unfold used_as_text. rewrite read_key, read_password, read_user.
  destruct p as [src agent]. unfold page, validate. simpl.
  destruct (truthy (GROQ_API_KEY _)); [|done].
  by destruct (truthy (POSTGRES_PASSWORD _)).
Qed.


End app_lemmas.
