(* ===== verification/Chinook.v ===== *)
(** * The download of the sample database

    [src/chinook_db.py] fetches the Chinook sample database over HTTP and, if
    the answer has status 200, writes its body to the file [Chinook.db] and
    says so; otherwise it reports the status and writes nothing.  The HTTP
    answer is the input of [chinook_db]; the file system is a map from names
    to contents, and what is printed is returned with it.  If the request
    itself raises, the script ends with that exception before anything is
    written; this is the [inl] case. *)

From stdpp Require Import base strings gmap pretty.
From S2P Require Import Prelude.

(** What [requests.get] returns, as far as the script reads it. *)
Record HttpResponse : Type := mkHttpResponse {
  status_code : nat;
  content : string;
}.

Definition url : string :=
  "https://storage.googleapis.com/benchmarks-artifacts/chinook/Chinook.db".

(** The script, given [requests.get]. *)
Definition chinook_db (get : string → Exn + HttpResponse) (files : gmap string string)
    : Exn + (gmap string string * string) :=
  match get url with
  | inl e => inl e
  | inr response =>
      if decide (status_code response = 200) then
        inr (<["Chinook.db" := content response]> files,
             "File downloaded and saved as Chinook.db")
      else
        inr (files,
             "Failed to download the file. Status code: " +:+ pretty (status_code response))
  end.

(** ** Lemmas *)

(** The file is written exactly when the status is 200, with the body of the
    answer; every other file is left alone. *)
Lemma chinook_db_files get files files' out :
  chinook_db get files = inr (files', out) →
  ∃ response, get url = inr response
    ∧ (∀ name, name ≠ "Chinook.db" → files' !! name = files !! name)
    ∧ files' !! "Chinook.db" =
      if decide (status_code response = 200) then Some (content response)
      else files !! "Chinook.db".
Proof.
  unfold chinook_db. destruct (get url) as [e|response]; [done|].
  case_decide; intros [= <- <-]; exists response; split_and!; try done;
    try by rewrite decide_False.
  - intros name Hn. apply lookup_insert_ne. by intros <-.
  - by rewrite lookup_insert_eq, decide_True.
Qed.

(** The script fails only if the request does. *)
Lemma chinook_db_raises get files e :
  chinook_db get files = inl e ↔ get url = inl e.
Proof.
  unfold chinook_db. destruct (get url) as [e'|response]; [naive_solver|].
  by case_decide.
Qed.
